(** * ArcUnpack: the extraction and conversion pipeline of [arc_unpack.py]

    A shallow embedding of [src/arc_unpack.py] (lines 119-329: pack
    extraction, song and pack conversion, the content store, the database
    update) and the properties of it that the specification states.

    Conventions of the model.
    - Python [str] values are [string]s (byte strings; comparing UTF-8
      encodings byte by byte orders them as Python orders code points).
    - File contents are [list byte].
    - JSON integers are [Z]; a JSON float is carried by its Python [str].
    - A Python exception that escapes the script aborts the run: every
      operation returns a [result], [Err e] naming the exception.
    - The file system is a finite map from locations (absolute lists of
      path components) to nodes.  [pathlib] keeps a [..] component as it
      is written and leaves it to the operating system; the model keeps
      it as a name and does not resolve it, so a statement about the
      file a path leads to is made for paths without [..].  Symbolic
      links are outside the model, and so are resource limits such as
      memory exhaustion. *)

From Stdlib Require Import ZArith Lia List String Ascii DecimalString.
From Stdlib.Strings Require Import Byte.
From stdpp Require Import gmap strings list fin_maps sorting.

Local Open Scope string_scope.
Local Open Scope list_scope.
Local Open Scope Z_scope.

(** ** Outcomes of script fragments *)

Inductive exn :=
  | FileNotFoundError
  | FileExistsError
  | NotADirectoryError
  | IsADirectoryError
  | SameFileError
  | IndexError
  | KeyError
  | ValueError
  | OverflowError
  | MemoryError
  | OSError.

Inductive result (A : Type) :=
  | Ok (a : A)
  | Err (e : exn).
Arguments Ok {A} a.
Arguments Err {A} e.

Definition is_ok {A} (r : result A) : bool :=
  match r with Ok _ => true | Err _ => false end.

Definition is_err {A} (r : result A) : bool := negb (is_ok r).

Definition rbind {A B} (r : result A) (k : A -> result B) : result B :=
  match r with
  | Ok a => k a
  | Err e => Err e
  end.

Notation "x <- c1 ;; c2" := (rbind c1 (fun x => c2))
  (at level 100, c1 at next level, right associativity).

(** [for x in l: acc = body(acc, x)], stopping at the first exception. *)
Fixpoint foldM {A S} (body : S -> A -> result S) (acc : S) (l : list A)
  : result S :=
  match l with
  | [] => Ok acc
  | x :: l' => acc' <- body acc x ;; foldM body acc' l'
  end.

(** ** [hashlib.sha1(data).hexdigest()] (FIPS 180-4, SHA-1) *)

Module SHA1.

Definition w32 (x : Z) : Z := x mod 2 ^ 32.

Definition rotl (n x : Z) : Z :=
  w32 (Z.lor (Z.shiftl x n) (Z.shiftr x (32 - n))).

Definition byte_to_Z (b : byte) : Z := Z.of_N (Byte.to_N b).

(** The message, a 1 bit, zeros up to 56 mod 64 bytes, then the bit length
    as a 64-bit big-endian integer. *)
Definition be_bytes (n : nat) (x : Z) : list Z :=
  map (fun i => Z.land (Z.shiftr x (8 * Z.of_nat i)) 255) (rev (seq 0 n)).

Definition pad (msg : list byte) : list Z :=
  let len := Z.of_nat (length msg) in
  let zeros := Z.to_nat ((55 - len) mod 64) in
  map byte_to_Z msg ++ [128] ++ repeat 0 zeros ++ be_bytes 8 (8 * len).

Fixpoint be_words (fuel : nat) (bs : list Z) : list Z :=
  match fuel, bs with
  | S fuel', b0 :: b1 :: b2 :: b3 :: bs' =>
      (Z.shiftl b0 24 + Z.shiftl b1 16 + Z.shiftl b2 8 + b3)
        :: be_words fuel' bs'
  | _, _ => []
  end.

Fixpoint blocks (fuel : nat) (ws : list Z) : list (list Z) :=
  match fuel, ws with
  | S fuel', _ :: _ => firstn 16 ws :: blocks fuel' (skipn 16 ws)
  | _, _ => []
  end.

(** The message schedule, newest word first: [w !! 0] is W[t-1]. *)
Fixpoint schedule (n : nat) (w : list Z) : list Z :=
  match n with
  | O => w
  | S n' =>
      let x := Z.lxor (Z.lxor (nth 2 w 0) (nth 7 w 0))
                      (Z.lxor (nth 13 w 0) (nth 15 w 0)) in
      schedule n' (rotl 1 x :: w)
  end.

Definition f_k (t : nat) (b c d : Z) : Z * Z :=
  if (t <? 20)%nat then
    (Z.lor (Z.land b c) (Z.land (Z.lxor b 4294967295) d), 1518500249)
  else if (t <? 40)%nat then
    (Z.lxor (Z.lxor b c) d, 1859775393)
  else if (t <? 60)%nat then
    (Z.lor (Z.lor (Z.land b c) (Z.land b d)) (Z.land c d), 2400959708)
  else
    (Z.lxor (Z.lxor b c) d, 3395469782).

Definition state : Type := Z * Z * Z * Z * Z.

Definition round (s : state) (tw : nat * Z) : state :=
  let '(a, b, c, d, e) := s in
  let '(t, w) := tw in
  let '(f, k) := f_k t b c d in
  (w32 (rotl 5 a + f + e + k + w), a, rotl 30 b, c, d).

Definition compress (h : state) (block : list Z) : state :=
  let w := rev (schedule 64 (rev block)) in
  let '(a, b, c, d, e) := fold_left round (combine (seq 0 80) w) h in
  let '(h0, h1, h2, h3, h4) := h in
  (w32 (h0 + a), w32 (h1 + b), w32 (h2 + c), w32 (h3 + d), w32 (h4 + e)).

Definition init : state :=
  (1732584193, 4023233417, 2562383102, 271733878, 3285377520).

Definition digest (msg : list byte) : state :=
  let bs := pad msg in
  let ws := be_words (length bs) bs in
  fold_left compress (blocks (length ws) ws) init.

Definition hex_digit (x : Z) : ascii :=
  nth (Z.to_nat (x mod 16))
      (list_ascii_of_string "0123456789abcdef") "0"%char.

Definition hex8 (x : Z) : string :=
  string_of_list_ascii
    (map (fun i => hex_digit (Z.shiftr x (4 * Z.of_nat i))) (rev (seq 0 8))).

Definition hexdigest (msg : list byte) : string :=
  let '(h0, h1, h2, h3, h4) := digest msg in
  hex8 h0 +:+ hex8 h1 +:+ hex8 h2 +:+ hex8 h3 +:+ hex8 h4.

End SHA1.

Definition bytes_of_string (s : string) : list byte := list_byte_of_string s.

(** ** Python values *)

(** [str(n)] for an [int]. *)
Definition str_int (n : Z) : string := NilZero.string_of_int (Z.to_int n).

(** A JSON number: an integer, or a float carried by its [str]. *)
Inductive jnum :=
  | JInt (n : Z)
  | JFloat (repr : string).

Definition str_num (x : jnum) : string :=
  match x with
  | JInt n => str_int n
  | JFloat r => r
  end.

(** A [float] is named by the number it was made of: [FloatOf (JInt n)]
    is the double nearest to [n], [FloatOf (JFloat r)] the double whose
    [str] is [r]. *)
Inductive pyfloat := FloatOf (x : jnum).

(** The least integer that is too large for a double: the doubles end at
    [2 ^ 1024 - 2 ^ 971], and rounding takes what is half a step further
    on to [2 ^ 1024]. *)
Definition float_limit : Z := 2 ^ 1024 - 2 ^ 970.

(** [float(x)] for a JSON number: [OverflowError: int too large to
    convert to float] beyond the doubles. *)
Definition float_of (x : jnum) : result pyfloat :=
  match x with
  | JInt n =>
      if float_limit <=? Z.abs n then Err OverflowError else Ok (FloatOf x)
  | JFloat _ => Ok (FloatOf x)
  end.

(** [lst[i]]: a negative index counts from the end. *)
Definition py_index {A} (lst : list A) (i : Z) : result A :=
  let n := Z.of_nat (length lst) in
  let j := if i <? 0 then i + n else i in
  if (0 <=? j) && (j <? n) then
    match nth_error lst (Z.to_nat j) with
    | Some x => Ok x
    | None => Err IndexError
    end
  else Err IndexError.

(** [s.replace(old, new)] for a one-character [old]. *)
Fixpoint replace_char (old : ascii) (new : string) (s : string) : string :=
  match s with
  | EmptyString => EmptyString
  | String c s' =>
      if Ascii.eqb c old then new +:+ replace_char old new s'
      else String c (replace_char old new s')
  end.

(** [data[off:off+len]] as [seek(off)] followed by [read(len)] delivers
    it, for [0 <= off] and [0 <= len]: clipped to the end of the data. *)
Definition slice (data : list byte) (off len : Z) : list byte :=
  firstn (Z.to_nat len) (skipn (Z.to_nat off) data).

(** ** [pathlib.PurePosixPath] *)

(** [s.split('/')] *)
Fixpoint split_slash (s : string) : list string :=
  match s with
  | EmptyString => [EmptyString]
  | String c s' =>
      if Ascii.eqb c "/" then EmptyString :: split_slash s'
      else match split_slash s' with
           | [] => [String c EmptyString]
           | x :: xs => String c x :: xs
           end
  end.

Fixpoint leading_slashes (s : string) : nat :=
  match s with
  | String c s' => if Ascii.eqb c "/" then S (leading_slashes s') else O
  | EmptyString => O
  end.

(** [anchor] is [""] for a relative path, ["/"] or ["//"] otherwise;
    [parts] are the components after the anchor. *)
Record Path := { anchor : string; parts : list string }.

Definition is_component (x : string) : bool :=
  negb (String.eqb x "") && negb (String.eqb x ".").

Definition parse_path (s : string) : Path :=
  {| anchor := match leading_slashes s with
               | O => ""
               | 2%nat => "//"
               | _ => "/"
               end;
     parts := List.filter is_component (split_slash s) |}.

(** [p / s] *)
Definition joinpath (p : Path) (s : string) : Path :=
  let q := parse_path s in
  if String.eqb (anchor q) "" then
    {| anchor := anchor p; parts := parts p ++ parts q |}
  else q.

Notation "p </> s" := (joinpath p s) (at level 40, left associativity).

(** [p.name] *)
Definition name (p : Path) : string := List.last (parts p) "".

(** [p.parent] *)
Definition parent (p : Path) : Path :=
  {| anchor := anchor p; parts := removelast (parts p) |}.

(** [s.rfind('.')] *)
Fixpoint rfind_dot (s : string) : option nat :=
  match s with
  | EmptyString => None
  | String c s' =>
      match rfind_dot s' with
      | Some i => Some (S i)
      | None => if Ascii.eqb c "." then Some O else None
      end
  end.

(** [p.suffix], from the name [nm] of [p] *)
Definition suffix_of_name (nm : string) : string :=
  match rfind_dot nm with
  | Some i =>
      if (0 <? i)%nat && (i <? String.length nm - 1)%nat
      then substring i (String.length nm - i) nm
      else ""
  | None => ""
  end.

Definition suffix (p : Path) : string := suffix_of_name (name p).

(** [p.relative_to(base)], for [base] a prefix of [p], the one way the
    script calls it *)
Definition relative_to (p base : Path) : Path :=
  {| anchor := ""; parts := skipn (length (parts base)) (parts p) |}.

(** [p.as_posix()] *)
Definition as_posix (p : Path) : string :=
  match parts p with
  | [] => if String.eqb (anchor p) "" then "." else anchor p
  | _ => anchor p +:+ String.concat "/" (parts p)
  end.

(** A string without [/]: what a directory entry is named. *)
Fixpoint no_slash (s : string) : bool :=
  match s with
  | EmptyString => true
  | String c s' => negb (Ascii.eqb c "/") && no_slash s'
  end.

(** ** The file system *)

Inductive node :=
  | Dir
  | File (data : list byte).

Abbreviation loc := (list string).
Abbreviation filesys := (gmap (list string) node).

Definition node_at (fs : filesys) (l : loc) : option node :=
  match l with
  | [] => Some Dir
  | _ => fs !! l
  end.

(** Path resolution: every proper prefix of the location has to be a
    directory. *)
Fixpoint walk (fs : filesys) (done : loc) (rest : list string)
  : result unit :=
  match rest with
  | [] => Ok tt
  | c :: rest' =>
      match node_at fs done with
      | Some Dir => walk fs (done ++ [c]) rest'
      | Some (File _) => Err NotADirectoryError
      | None => Err FileNotFoundError
      end
  end.

(** [os.stat] *)
Definition stat (fs : filesys) (l : loc) : result node :=
  _ <- walk fs [] l ;;
  match node_at fs l with
  | Some n => Ok n
  | None => Err FileNotFoundError
  end.

Definition exists_at (fs : filesys) (l : loc) : bool := is_ok (stat fs l).

Definition is_file_at (fs : filesys) (l : loc) : bool :=
  match stat fs l with
  | Ok (File _) => true
  | _ => false
  end.

(** [Path.mkdir(parents=True, exist_ok=True)] *)
Fixpoint mkdirs (fs : filesys) (done : loc) (rest : list string)
  : result filesys :=
  match rest with
  | [] => Ok fs
  | c :: rest' =>
      let d := done ++ [c] in
      match node_at fs d with
      | Some Dir => mkdirs fs d rest'
      | Some (File _) =>
          Err match rest' with
              | [] => FileExistsError
              | _ => NotADirectoryError
              end
      | None => mkdirs (<[d := Dir]> fs) d rest'
      end
  end.

Definition mkdir_at (fs : filesys) (l : loc) : result filesys :=
  mkdirs fs [] l.

(** [open(l, 'rb').read()] *)
Definition read_at (fs : filesys) (l : loc) : result (list byte) :=
  n <- stat fs l ;;
  match n with
  | File data => Ok data
  | Dir => Err IsADirectoryError
  end.

(** [open(l, 'wb')], [write(data)], [close()] *)
Definition write_at (fs : filesys) (l : loc) (data : list byte)
  : result filesys :=
  _ <- walk fs [] l ;;
  match node_at fs l with
  | Some Dir => Err IsADirectoryError
  | _ => Ok (<[l := File data]> fs)
  end.

(** [shutil.copyfile(src, dst)] *)
Definition copyfile_at (fs : filesys) (src dst : loc) : result filesys :=
  if bool_decide (src = dst) && exists_at fs src then Err SameFileError
  else data <- read_at fs src ;; write_at fs dst data.

(** [Path.rename] of a regular file; the script renames nothing else. *)
Definition rename_at (fs : filesys) (src dst : loc) : result filesys :=
  n <- stat fs src ;;
  match n with
  | File data =>
      _ <- walk fs [] dst ;;
      match node_at fs dst with
      | Some Dir => Err IsADirectoryError
      | _ => Ok (<[dst := File data]> (delete src fs))
      end
  | Dir => Err OSError
  end.

Definition under (d l : loc) : Prop := d `prefix_of` l.

(** [shutil.rmtree] *)
Definition rmtree_at (fs : filesys) (l : loc) : result filesys :=
  n <- stat fs l ;;
  match n with
  | Dir => Ok (filter (fun kv => ~ under l (fst kv)) fs)
  | File _ => Err NotADirectoryError
  end.

(** What [Path(d).glob('**/*')] yields, as locations relative to [d]:
    everything that exists strictly below [d].  The order is the file
    system's; [glob_sorted] is one such enumeration. *)
Definition is_glob (fs : filesys) (d : loc) (rels : list (list string))
  : Prop :=
  NoDup rels /\
  forall rel, rel ∈ rels <-> rel <> [] /\ is_Some (fs !! (d ++ rel)).

Definition glob_rec (fs : filesys) (d : loc) : list (list string) :=
  omap (fun kv => match fst kv with
                  | l => if bool_decide (under d l /\ l <> d)
                         then Some (skipn (length d) l) else None
                  end)
       (map_to_list fs).

(** ** Source documents *)

(** The index next to a pack file: [{"Groups": [{"Name", "OrderedEntries":
    [{"OriginalFilename", "Offset", "Length"}]}]}]. *)
Record Entry := {
  OriginalFilename : string;
  Offset : Z;
  Length : Z }.

Record Group := {
  Name : string;
  OrderedEntries : list Entry }.

(** A [*.pack] file of the input directory: its file name, its bytes and
    the parsed sibling [.json] document, [None] when there is none.  The
    input directory is read only: it is kept apart from [filesys]. *)
Record PackFile := {
  pack_name : string;
  pack_data : list byte;
  pack_index : option (list Group) }.

(** An element of [song['difficulties']]. *)
Record Difficulty := {
  ratingClass : Z;
  rating : jnum;
  chartDesigner : string;
  jacketDesigner : string }.

(** An element of [song_list['songs']]. *)
Record Song := {
  song_id : string;
  song_set : string;
  song_date : Z;
  song_bpm : string;
  song_bpm_base : jnum;
  song_side : Z;
  song_bg : string;
  song_title_en : string;
  song_artist : string;
  song_difficulties : list Difficulty;
  song_remote_dl : option bool }.

(** An element of [pack_list['packs']]. *)
Record Pack := {
  pack_id : string;
  pack_parent : option string;
  pack_name_en : string }.

(** ** Catalog records *)

Record Chart := {
  ChartPath : string;
  AudioPath : string;
  JacketPath : string;
  BaseBpm : pyfloat;
  Title : string;
  Composer : string;
  Charter : string;
  Illustrator : string;
  DifficultyText : string;
  ChartConstant : pyfloat;
  DifficultyColor : string;
  Skin : option string;
  SyncBaseBpm : bool;
  BpmText : option string;
  BackgroundPath : string }.

Record Level := {
  level_id : Z;
  level_Type : string;
  level_Identifier : string;
  level_IsDefaultAsset : bool;
  level_AddedDate : string;
  level_Version : Z;
  level_Charts : list Chart;
  level_LastOpenedChartPath : string;
  level_FileReferences : list string }.

Record CatalogPack := {
  cpack_id : Z;
  cpack_Type : string;
  cpack_PackName : string;
  cpack_ImagePath : string;
  cpack_LevelIdentifiers : list string;
  cpack_Identifier : string;
  cpack_Version : Z;
  cpack_FileReferences : list string;
  cpack_AddedDate : string;
  cpack_IsDefaultAsset : bool }.

Record CatalogFile := {
  file_id : string;
  RealPath : string;
  CorrectHashPath : string }.

(** A call of [litedb.subcommand]; the record stands for the text
    [json.dumps] makes of it. *)
Inductive db_call :=
  | AddLevel (song : Level)
  | AddPack (pack : CatalogPack)
  | AddFile (file : CatalogFile).

Definition DIFFICULTY_NAMES : list string :=
  ["Past"; "Present"; "Future"; "Beyond"].
Definition DIFFICULTY_COLORS : list string :=
  ["#3A6B78FF"; "#566947FF"; "#482B54FF"; "#7C1C30FF"].

(** ** The script *)

Section Script.

(** The working directory of the run. *)
Variable cwd : loc.

(** The platform: the largest position the file system lets [seek] take
    and the largest [read] the machine has memory for, both below
    [2 ^ 63 - 1]. *)
Variable max_offset : Z.
Variable max_length : Z.

Definition locate (p : Path) : loc :=
  if String.eqb (anchor p) "" then cwd ++ parts p else parts p.

Definition mkdir (p : Path) (fs : filesys) : result filesys :=
  mkdir_at fs (locate p).
Definition copyfile (src dst : Path) (fs : filesys) : result filesys :=
  copyfile_at fs (locate src) (locate dst).
Definition path_exists (p : Path) (fs : filesys) : bool :=
  exists_at fs (locate p).
Definition is_file (p : Path) (fs : filesys) : bool :=
  is_file_at fs (locate p).

Definition extracted_romfs_path : Path := parse_path "./extracted_romfs".
Definition final_path : Path := parse_path "./final".

(** *** Extract romfs (lines 119-146) *)

Definition packs_leb (a b : PackFile) : bool :=
  String.leb (pack_name a) (pack_name b).

Fixpoint insert_sorted (p : PackFile) (l : list PackFile) : list PackFile :=
  match l with
  | [] => [p]
  | q :: l' =>
      if packs_leb p q then p :: l else q :: insert_sorted p l'
  end.

(** [pack_list.sort()] *)
Definition sort_packs (l : list PackFile) : list PackFile :=
  fold_right insert_sorted [] l.

(** [pack.seek(off)] *)
Definition seek (off : Z) : result unit :=
  if off <? 0 then Err OSError
  else if max_offset <? off then
    Err (if 2 ^ 63 <=? off then ValueError else OSError)
  else Ok tt.

(** [pack.read(len)] at position [off] *)
Definition read (data : list byte) (off len : Z) : result (list byte) :=
  if len <? -1 then Err ValueError
  else if max_length <? len then
    Err (if 2 ^ 63 - 1 <=? len then OverflowError else MemoryError)
  else if len =? -1 then Ok (skipn (Z.to_nat off) data)
  else Ok (slice data off len).

Definition extract_entry (pack : list byte) (group_path : Path)
    (fs : filesys) (ordered_entry : Entry) : result filesys :=
  let file_path := group_path </> OriginalFilename ordered_entry in
  fs <- mkdir (parent file_path) fs ;;
  _ <- seek (Offset ordered_entry) ;;
  fs <- write_at fs (locate file_path) [] ;;
  data <- read pack (Offset ordered_entry) (Length ordered_entry) ;;
  write_at fs (locate file_path) data.

Definition extract_group (pack : list byte) (fs : filesys) (group : Group)
  : result filesys :=
  let group_path := extracted_romfs_path </> Name group in
  fs <- mkdir group_path fs ;;
  foldM (extract_entry pack group_path) fs (OrderedEntries group).

Definition extract_pack (fs : filesys) (pack : PackFile) : result filesys :=
  match pack_index pack with
  | None => Err FileNotFoundError
  | Some groups => foldM (extract_group (pack_data pack)) fs groups
  end.

Definition extract_romfs (packs : list PackFile) (fs : filesys)
  : result filesys :=
  foldM extract_pack fs (sort_packs packs).

(** *** Convert songs (lines 148-247) *)

Definition charts_root_path : Path :=
  extracted_romfs_path </> "charts" </> "songs".
Definition audio_root_path : Path :=
  extracted_romfs_path </> "Fallback" </> "songs".
Definition jacket_root_path : Path :=
  extracted_romfs_path </> "jackets_large" </> "songs".
Definition background_root_path : Path :=
  extracted_romfs_path </> "not_audio" </> "img" </> "bg".

Definition original_id (song : Song) : string :=
  match song_remote_dl song with
  | Some true => "dl_" +:+ song_id song
  | _ => song_id song
  end.

Definition new_id (song : Song) : string :=
  song_set song +:+ "." +:+ song_id song.

Definition song_root_path (song : Song) : Path :=
  final_path </> "Level" </> new_id song.

Definition chart_path (song : Song) (diff : Difficulty) : Path :=
  charts_root_path </> original_id song
    </> (str_int (ratingClass diff) +:+ ".aff").

(** Lines 217-224. *)
Definition background_path (song : Song) (diff : Difficulty) : Path :=
  if negb (String.eqb (song_bg song) "") then
    background_root_path </> (song_bg song +:+ ".jpg")
  else
    let base_background_type :=
      if ratingClass diff =? 3 then "byd" else "base" in
    let base_background_name :=
      if song_side song =? 0 then "light" else "conflict" in
    background_root_path
      </> (base_background_type +:+ "_" +:+ base_background_name +:+ ".jpg").

(** Lines 195-216 and 231: the chart dictionary of one difficulty, its
    values made in the order of the keys. *)
Definition make_chart (song : Song) (diff : Difficulty) : result Chart :=
  base_bpm <- float_of (song_bpm_base song) ;;
  difficulty_name <- py_index DIFFICULTY_NAMES (ratingClass diff) ;;
  chart_constant <- float_of (rating diff) ;;
  difficulty_color <- py_index DIFFICULTY_COLORS (ratingClass diff) ;;
  let synced := String.eqb (song_bpm song) (str_num (song_bpm_base song)) in
  Ok {| ChartPath := name (chart_path song diff);
        AudioPath := "base.ogg";
        JacketPath := "base.jpg";
        BaseBpm := base_bpm;
        Title := song_title_en song;
        Composer := song_artist song;
        Charter := chartDesigner diff;
        Illustrator := jacketDesigner diff;
        DifficultyText :=
          difficulty_name +:+ " " +:+ str_num (rating diff);
        ChartConstant := chart_constant;
        DifficultyColor := difficulty_color;
        Skin :=
          if (song_side song =? 0) || (song_side song =? 1)
          then Some (if song_side song =? 0 then "light" else "conflict")
          else None;
        SyncBaseBpm := synced;
        BpmText :=
          if synced then None
          else Some (replace_char "-" " - "
                       (replace_char " " "" (song_bpm song)));
        BackgroundPath := name (background_path song diff) |}.

(** The body of [for diff in song['difficulties']] (lines 190-232). *)
Definition convert_diff (song : Song)
    (st : list Chart * list Path * filesys) (diff : Difficulty)
  : result (list Chart * list Path * filesys) :=
  let '(charts, background_paths, fs) := st in
  fs <- copyfile (chart_path song diff)
          (song_root_path song </> name (chart_path song diff)) fs ;;
  chart <- make_chart song diff ;;
  let bg := background_path song diff in
  if path_exists (song_root_path song </> name bg) fs then
    Ok (charts ++ [chart], background_paths, fs)
  else
    fs <- copyfile bg (song_root_path song </> name bg) fs ;;
    Ok (charts ++ [chart], background_paths ++ [bg], fs).

(** The body of [for song in song_list['songs']] up to line 243. *)
Definition convert_song (i : Z) (song : Song) (fs : filesys)
  : result (Level * filesys) :=
  fs <- mkdir (song_root_path song) fs ;;
  fs <- copyfile (audio_root_path </> original_id song </> "base.ogg")
          (song_root_path song </> "base.ogg") fs ;;
  fs <- copyfile (jacket_root_path </> original_id song </> "base.jpg")
          (song_root_path song </> "base.jpg") fs ;;
  st <- foldM (convert_diff song) ([], [], fs) (song_difficulties song) ;;
  let '(charts, background_paths, fs) := st in
  last_chart <- py_index charts (-1) ;;
  Ok ({| level_id := i;
         level_Type := "Level";
         level_Identifier := new_id song;
         level_IsDefaultAsset := true;
         level_AddedDate := "d" +:+ str_int (song_date song);
         level_Version := 0;
         level_Charts := charts;
         level_LastOpenedChartPath := ChartPath last_chart;
         level_FileReferences :=
           ["base.ogg"; "base.jpg"]
             ++ map name background_paths ++ map ChartPath charts |},
      fs).

(** The state of the song loop: [i], [converted_songs],
    [level_identifiers] and the file system. *)
Record SongLoop := {
  sl_i : Z;
  converted_songs : list Level;
  level_identifiers : gmap string (list string);
  sl_fs : filesys }.

Definition song_step (st : SongLoop) (song : Song) : result SongLoop :=
  r <- convert_song (sl_i st) song (sl_fs st) ;;
  let '(converted_song, fs) := r in
  Ok {| sl_i := sl_i st + 1;
        converted_songs := converted_songs st ++ [converted_song];
        level_identifiers :=
          <[song_set song :=
              default [] (level_identifiers st !! song_set song)
                ++ [new_id song]]> (level_identifiers st);
        sl_fs := fs |}.

Definition convert_songs (level_count : Z) (songs : list Song)
    (fs : filesys) : result SongLoop :=
  foldM song_step
    {| sl_i := level_count + 1; converted_songs := [];
       level_identifiers := ∅; sl_fs := fs |}
    songs.

(** *** Convert packs (lines 249-285) *)

(** [int(time())] at the [k]-th pack of the list. *)
Variable clock : nat -> Z.

Definition pack_cover_root_path : Path :=
  extracted_romfs_path </> "packs" </> "songs" </> "pack".
Definition singles_cover_path : Path :=
  extracted_romfs_path </> "not_large_png" </> "layouts" </> "songselect"
    </> "folder_singles.png".

Definition pack_new_id (pack : Pack) : string :=
  match pack_parent pack with
  | Some parent_id => parent_id
  | None => pack_id pack
  end.

(** [d[k]] *)
Definition dict_get {V} (d : gmap string V) (k : string) : result V :=
  match d !! k with
  | Some v => Ok v
  | None => Err KeyError
  end.

Definition convert_pack (level_identifiers : gmap string (list string))
    (i : Z) (now : Z) (pack : Pack) (fs : filesys)
  : result (CatalogPack * filesys) :=
  let new_id := pack_new_id pack in
  let pack_root_path := final_path </> "Pack" </> new_id in
  fs <- mkdir pack_root_path fs ;;
  let pack_cover_path :=
    pack_cover_root_path </> ("select_" +:+ new_id +:+ ".png") in
  r <- (if String.eqb new_id "single" then Ok (singles_cover_path, fs)
        else
          fs <- copyfile pack_cover_path
                  (pack_root_path </> name pack_cover_path) fs ;;
          Ok (pack_cover_path, fs)) ;;
  let '(pack_cover_path, fs) := r in
  ids <- dict_get level_identifiers (pack_id pack) ;;
  Ok ({| cpack_id := i;
         cpack_Type := "Pack";
         cpack_PackName := pack_name_en pack;
         cpack_ImagePath := name pack_cover_path;
         cpack_LevelIdentifiers := ids;
         cpack_Identifier := new_id;
         cpack_Version := 0;
         cpack_FileReferences := [name pack_cover_path];
         cpack_AddedDate := "d" +:+ str_int now;
         cpack_IsDefaultAsset := true |},
      fs).

(** The state of the pack loop: [i], [converted_packs] and the file
    system. *)
Record PackLoop := {
  pl_i : Z;
  converted_packs : list CatalogPack;
  pl_fs : filesys }.

Definition pack_step (level_identifiers : gmap string (list string))
    (st : PackLoop) (pack : Pack) : result PackLoop :=
  r <- convert_pack level_identifiers (pl_i st)
         (clock (length (converted_packs st))) pack (pl_fs st) ;;
  let '(converted_pack, fs) := r in
  Ok {| pl_i := pl_i st + 1;
        converted_packs := converted_packs st ++ [converted_pack];
        pl_fs := fs |}.

Definition convert_packs (level_identifiers : gmap string (list string))
    (pack_count : Z) (packs : list Pack) (fs : filesys) : result PackLoop :=
  foldM (pack_step level_identifiers)
    {| pl_i := pack_count + 1; converted_packs := []; pl_fs := fs |}
    packs.

(** *** Move files (lines 287-305) *)

Definition storage_root_path : Path := final_path </> "storage".

(** The name a file gets in the store, from its name and its bytes. *)
Definition stored_name (file_name : string) (data : list byte) : string :=
  SHA1.hexdigest data +:+ suffix_of_name file_name.

(** The path the glob yields for what is at [rel] below
    [final_path / type_name]. *)
Definition glob_file (type_name : string) (rel : list string) : Path :=
  {| anchor := anchor (final_path </> type_name);
     parts := parts (final_path </> type_name) ++ rel |}.

(** The body of [for file in (final_path / type_name).glob('**/*')]. *)
Definition move_file (type_name : string)
    (st : list CatalogFile * filesys) (rel : list string)
  : result (list CatalogFile * filesys) :=
  let '(converted_files, fs) := st in
  let file := glob_file type_name rel in
  if is_file file fs then
    let file_real_path := as_posix (relative_to file final_path) in
    data <- read_at fs (locate file) ;;
    let file_hash_path :=
      storage_root_path </> stored_name (name file) data in
    fs <- (if path_exists file_hash_path fs then Ok fs
           else rename_at fs (locate file) (locate file_hash_path)) ;;
    Ok (converted_files
          ++ [{| file_id := file_real_path;
                 RealPath := name file_hash_path;
                 CorrectHashPath := name file_hash_path |}],
        fs)
  else Ok st.

(** One round of [for type_name in ['Level', 'Pack']], [rels] being what
    the glob yields. *)
Definition move_tree (type_name : string) (rels : list (list string))
    (st : list CatalogFile * filesys)
  : result (list CatalogFile * filesys) :=
  st <- foldM (move_file type_name) st rels ;;
  let '(converted_files, fs) := st in
  fs <- rmtree_at fs (locate (final_path </> type_name)) ;;
  Ok (converted_files, fs).

(** The enumeration order of [glob]. *)
Variable glob : filesys -> loc -> list (list string).

Definition move_files (fs : filesys)
  : result (list CatalogFile * filesys) :=
  fs <- mkdir storage_root_path fs ;;
  st <- move_tree "Level"
          (glob fs (locate (final_path </> "Level"))) ([], fs) ;;
  move_tree "Pack"
    (glob (snd st) (locate (final_path </> "Pack"))) st.

(** *** Update database (lines 307-327) *)

Definition update_database (songs : list Level) (packs : list CatalogPack)
    (files : list CatalogFile) : list db_call :=
  map AddLevel songs ++ map AddPack packs ++ map AddFile files.

(** *** Lines 148-327, from the parsed song list and pack list and the
    answers of [LevelCount] and [PackCount] *)

Definition convert (level_count pack_count : Z)
    (songs : list Song) (packs : list Pack) (fs : filesys)
  : result (list db_call * filesys) :=
  sl <- convert_songs level_count songs fs ;;
  pl <- convert_packs (level_identifiers sl) pack_count packs (sl_fs sl) ;;
  r <- move_files (pl_fs pl) ;;
  let '(converted_files, fs) := r in
  Ok (update_database (converted_songs sl) (converted_packs pl)
        converted_files,
      fs).

End Script.


(** ** The specification's wording, for comparison *)

(** "stripping spaces" *)
Definition strip_spaces (s : string) : string :=
  string_of_list_ascii
    (List.filter (fun c => negb (Ascii.eqb c " ")) (list_ascii_of_string s)).

(** "normalizing a hyphen range separator to [" - "]" *)
Definition spread_hyphens (s : string) : string :=
  string_of_list_ascii
    (flat_map (fun c => if Ascii.eqb c "-"
                        then [" "; "-"; " "]%char else [c])
       (list_ascii_of_string s)).

(** "the ["<set>.<id>"] strings for source songs whose [set] equals that
    pack's source id" *)
Definition levels_of_set (songs : list Song) (set_id : string)
  : list string :=
  map new_id (List.filter (fun song => String.eqb (song_set song) set_id) songs).


(** ** Notions the statements use *)

Definition same_kind (n n' : node) : Prop :=
  match n, n' with
  | Dir, Dir => True
  | File _, File _ => True
  | _, _ => False
  end.

(** Nothing disappears and nothing changes between file and directory. *)
Definition grows (fs fs' : filesys) : Prop :=
  forall l n, fs !! l = Some n -> exists n', fs' !! l = Some n' /\ same_kind n n'.


(** [evolves fs ws fs']: [fs'] comes from [fs] by making directories and
    writing files, [ws] being the files written, in order. *)
Inductive evolves : filesys -> list (loc * list byte) -> filesys -> Prop :=
  | evolves_done fs :
      evolves fs [] fs
  | evolves_mkdir fs l fs1 ws fs' :
      mkdir_at fs l = Ok fs1 -> evolves fs1 ws fs' -> evolves fs ws fs'
  | evolves_write fs l data fs1 ws fs' :
      write_at fs l data = Ok fs1 -> evolves fs1 ws fs' ->
      evolves fs ((l, data) :: ws) fs'.


(** What [read] delivers for an entry when it raises nothing. *)
Definition entry_bytes (pack : list byte) (e : Entry) : list byte :=
  if Length e =? -1 then skipn (Z.to_nat (Offset e)) pack
  else slice pack (Offset e) (Length e).


Definition names_ascend (a b : PackFile) : Prop :=
  String.leb (pack_name a) (pack_name b) = true.


(** The offsets and lengths [seek] and [read] take without raising. *)
Definition entry_accepted (max_offset max_length : Z) (e : Entry) : Prop :=
  0 <= Offset e <= max_offset /\ -1 <= Length e <= max_length.

(** Strings of lower-case hexadecimal digits. *)
Definition is_hex_digit (c : ascii) : bool :=
  existsb (Ascii.eqb c) (list_ascii_of_string "0123456789abcdef").

Fixpoint is_hex (s : string) : bool :=
  match s with
  | EmptyString => true
  | String c s' => is_hex_digit c && is_hex s'
  end.

(** Directories stay directories. *)
Definition keeps_dirs (fs fs' : filesys) : Prop :=
  forall l, fs !! l = Some Dir -> fs' !! l = Some Dir.

(** The location of the file named [n] in the store [./final/storage]. *)
Definition store_loc (cwd : loc) (n : string) : loc :=
  cwd ++ ["final"; "storage"; n].

Definition in_store (cwd : loc) (fs : filesys) (n : string)
    (data : list byte) : Prop :=
  fs !! store_loc cwd n = Some (File data).

(** Every file of the store is named after its content. *)
Definition content_addressed (cwd : loc) (fs : filesys) : Prop :=
  forall n data, in_store cwd fs n data -> exists nm, n = stored_name nm data.

(** The last component of what the glob yields is a file name. *)
Definition rel_named (rel : list string) : bool := no_slash (List.last rel "").

(** The two values of [type_name]. *)
Definition is_type_name (type_name : string) : Prop :=
  type_name = "Level" \/ type_name = "Pack".

(** What a File record says of the store: its stored name is there, and
    is the name some file name and some bytes make. *)
Definition recorded (cwd : loc) (fs : filesys) (f : CatalogFile) : Prop :=
  exists_at fs (store_loc cwd (RealPath f)) = true /\
  exists nm data, no_slash nm = true /\ RealPath f = stored_name nm data.

(** The numbers [float] takes. *)
Definition converts (x : jnum) : Prop :=
  match x with
  | JInt n => Z.abs n < float_limit
  | JFloat _ => True
  end.

(** A path none of whose components is [..]: the location the operating
    system takes it to is the one [locate] names. *)
Definition plain (p : Path) : bool :=
  forallb (fun c => negb (String.eqb c "..")) (parts p).

(** ** A small archive *)

Module Fixture.

Definition cwd : loc := ["work"].

(** An empty working directory. *)
Definition empty_disk : filesys := <[ cwd := Dir ]> ∅.

(** The file system a fragment leaves, the empty one if it raises. *)
Definition disk_of (r : result filesys) : filesys :=
  match r with
  | Ok fs => fs
  | Err _ => ∅
  end.

(** The calls a run makes, none if it raises. *)
Definition calls_of (r : result (list db_call * filesys)) : list db_call :=
  match r with
  | Ok (calls, _) => calls
  | Err _ => []
  end.

Definition pack_bytes : list byte :=
  bytes_of_string "OGGJPGAFF0AFF2BGLPNG".

Definition entry (nm : string) (off len : Z) : Entry :=
  {| OriginalFilename := nm; Offset := off; Length := len |}.

Definition index : list Group :=
  [ {| Name := "Fallback";
       OrderedEntries := [entry "songs/s1/base.ogg" 0 3] |};
    {| Name := "jackets_large";
       OrderedEntries := [entry "songs/s1/base.jpg" 3 3] |};
    {| Name := "charts";
       OrderedEntries := [entry "songs/s1/0.aff" 6 4;
                          entry "songs/s1/2.aff" 10 4] |};
    {| Name := "not_audio";
       OrderedEntries := [entry "img/bg/base_light.jpg" 14 3] |};
    {| Name := "packs";
       OrderedEntries := [entry "songs/pack/select_p1.png" 17 3] |} ].

Definition archive : list PackFile :=
  [ {| pack_name := "a.pack"; pack_data := pack_bytes;
       pack_index := Some index |} ].

Definition max_offset : Z := 2 ^ 40.
Definition max_length : Z := 2 ^ 30.

(** The staging tree the extractor makes of [archive]. *)
Definition staged : filesys :=
  disk_of (extract_romfs cwd max_offset max_length archive empty_disk).

Definition difficulty (rc : Z) (r : Z) : Difficulty :=
  {| ratingClass := rc; rating := JInt r;
     chartDesigner := "charter"; jacketDesigner := "painter" |}.

Definition song : Song :=
  {| song_id := "s1"; song_set := "p1"; song_date := 1500000000;
     song_bpm := "120-140"; song_bpm_base := JInt 120;
     song_side := 0; song_bg := "";
     song_title_en := "Title"; song_artist := "Artist";
     song_difficulties := [difficulty 0 3; difficulty 2 9];
     song_remote_dl := None |}.

Definition pack : Pack :=
  {| pack_id := "p1"; pack_parent := None; pack_name_en := "Pack One" |}.

Definition clock (k : nat) : Z := 1700000000 + Z.of_nat k.

(** A glob that yields file names, in the order of the map. *)
Definition glob (fs : filesys) (d : loc) : list (list string) :=
  List.filter rel_named (glob_rec fs d).

(** The whole conversion of the staged archive. *)
Definition run : result (list db_call * filesys) :=
  convert cwd clock glob 10 20 [song] [pack] staged.

Definition emitted : list db_call := calls_of run.

Definition final_disk : filesys := disk_of (r <- run ;; Ok (snd r)).

(** A song without difficulties. *)
Definition silent_song : Song :=
  {| song_id := "s1"; song_set := "p1"; song_date := 1500000000;
     song_bpm := "120"; song_bpm_base := JInt 120;
     song_side := 1; song_bg := "";
     song_title_en := "Title"; song_artist := "Artist";
     song_difficulties := [];
     song_remote_dl := None |}.

(** An archive whose only chart is [-1.aff], and a song of side 2 with
    the rating class -1. *)
Definition odd_index : list Group :=
  [ {| Name := "Fallback";
       OrderedEntries := [entry "songs/s1/base.ogg" 0 3] |};
    {| Name := "jackets_large";
       OrderedEntries := [entry "songs/s1/base.jpg" 3 3] |};
    {| Name := "charts";
       OrderedEntries := [entry "songs/s1/-1.aff" 6 4] |};
    {| Name := "not_audio";
       OrderedEntries := [entry "img/bg/base_conflict.jpg" 14 3] |} ].

Definition odd_staged : filesys :=
  disk_of (extract_romfs cwd max_offset max_length
             [ {| pack_name := "a.pack"; pack_data := pack_bytes;
                  pack_index := Some odd_index |} ] empty_disk).

Definition odd_song : Song :=
  {| song_id := "s1"; song_set := "p1"; song_date := 1500000000;
     song_bpm := "120"; song_bpm_base := JInt 120;
     song_side := 2; song_bg := "";
     song_title_en := "Title"; song_artist := "Artist";
     song_difficulties := [difficulty (-1) 11];
     song_remote_dl := None |}.

(** A song with a rating class past the table. *)
Definition fifth_song : Song :=
  {| song_id := "s1"; song_set := "p1"; song_date := 1500000000;
     song_bpm := "120"; song_bpm_base := JInt 120;
     song_side := 0; song_bg := "";
     song_title_en := "Title"; song_artist := "Artist";
     song_difficulties := [difficulty 4 12];
     song_remote_dl := None |}.

(** An archive that holds the chart [4.aff] of that song. *)
Definition fifth_index : list Group :=
  [ {| Name := "Fallback";
       OrderedEntries := [entry "songs/s1/base.ogg" 0 3] |};
    {| Name := "jackets_large";
       OrderedEntries := [entry "songs/s1/base.jpg" 3 3] |};
    {| Name := "charts";
       OrderedEntries := [entry "songs/s1/4.aff" 6 4] |};
    {| Name := "not_audio";
       OrderedEntries := [entry "img/bg/base_light.jpg" 14 3] |} ].

Definition fifth_staged : filesys :=
  disk_of (extract_romfs cwd max_offset max_length
             [ {| pack_name := "a.pack"; pack_data := pack_bytes;
                  pack_index := Some fifth_index |} ] empty_disk).

(** A song whose base BPM is past the range of a double. *)
Definition huge_song : Song :=
  {| song_id := "s1"; song_set := "p1"; song_date := 1500000000;
     song_bpm := "120"; song_bpm_base := JInt (10 ^ 400);
     song_side := 0; song_bg := "";
     song_title_en := "Title"; song_artist := "Artist";
     song_difficulties := [difficulty 0 3];
     song_remote_dl := None |}.

(** A pack of three bytes with an entry of five from offset 1. *)
Definition short_entry : Entry := entry "f" 1 5.

Definition short_group : Group :=
  {| Name := "g"; OrderedEntries := [short_entry] |}.

Definition short_pack : PackFile :=
  {| pack_name := "s.pack"; pack_data := bytes_of_string "abc";
     pack_index := Some [short_group] |}.

(** Two working files of the same bytes, [x.jpg] and [x.aff]. *)
Definition twins : filesys :=
  <[ cwd ++ ["final"; "Level"; "x.aff"] := File (bytes_of_string "AB") ]>
  (<[ cwd ++ ["final"; "Level"; "x.jpg"] := File (bytes_of_string "AB") ]>
   (<[ cwd ++ ["final"; "storage"] := Dir ]>
    (<[ cwd ++ ["final"; "Level"] := Dir ]>
     (<[ cwd ++ ["final"] := Dir ]> empty_disk)))).

(** Two working files of the same bytes and the same suffix. *)
Definition doubles : filesys :=
  <[ cwd ++ ["final"; "Level"; "y.jpg"] := File (bytes_of_string "AB") ]>
  (<[ cwd ++ ["final"; "Level"; "x.jpg"] := File (bytes_of_string "AB") ]>
   (<[ cwd ++ ["final"; "storage"] := Dir ]>
    (<[ cwd ++ ["final"; "Level"] := Dir ]>
     (<[ cwd ++ ["final"] := Dir ]> empty_disk)))).

Definition short_disk : filesys :=
  disk_of (extract_romfs cwd max_offset max_length [short_pack] empty_disk).

Definition short_group_path : Path := extracted_romfs_path </> "g".

(** The disk once the directory of the short entry is made, and once its
    file is opened. *)
Definition short_dir : filesys :=
  disk_of (mkdir cwd (parent (short_group_path </> "f")) empty_disk).

Definition short_open : filesys :=
  disk_of (write_at short_dir (locate cwd (short_group_path </> "f")) []).

(** The staged archive with the working directory of [song]. *)
Definition prepared : filesys :=
  disk_of (mkdir cwd (song_root_path song) staged).

(** [fifth_staged] with the working directory of [fifth_song]. *)
Definition fifth_prepared : filesys :=
  disk_of (mkdir cwd (song_root_path fifth_song) fifth_staged).

(** [doubles] after the round of [x.jpg], and after the whole tree. *)
Definition doubles_after_x : filesys :=
  disk_of (r <- move_file cwd "Level" ([], doubles) ["x.jpg"] ;; Ok (snd r)).

Definition doubles_moved : filesys :=
  disk_of (r <- move_tree cwd "Level" [["x.jpg"]; ["y.jpg"]] ([], doubles) ;;
           Ok (snd r)).

Definition twins_moved : filesys :=
  disk_of (r <- move_tree cwd "Level" [["x.jpg"]; ["x.aff"]] ([], twins) ;;
           Ok (snd r)).

(** A pack no song is in. *)
Definition stray_pack : Pack :=
  {| pack_id := "p9"; pack_parent := Some "p1"; pack_name_en := "Stray" |}.

End Fixture.

(** ** Further vocabulary *)

(** What a Pack record built at position [k] of the pack list looks
    like. *)
Definition pack_record (clock : nat -> Z) (k : nat) (pack : Pack) (cp : CatalogPack) : Prop :=
  cpack_Identifier cp = default (pack_id pack) (pack_parent pack) /\
  cpack_Type cp = "Pack" /\
  cpack_PackName cp = pack_name_en pack /\
  cpack_Version cp = 0 /\
  cpack_IsDefaultAsset cp = true /\
  cpack_AddedDate cp = "d" +:+ str_int (clock k) /\
  cpack_FileReferences cp = [cpack_ImagePath cp] /\
  (cpack_Identifier cp = "single" ->
   cpack_ImagePath cp = "folder_singles.png") /\
  (cpack_Identifier cp <> "single" ->
   no_slash (cpack_Identifier cp) = true ->
   cpack_ImagePath cp = "select_" +:+ cpack_Identifier cp +:+ ".png").

(** The operations the extractor does on the file system, one after the
    other. *)
Inductive fs_op :=
  | MkDir (l : loc)
  | WriteFile (l : loc) (data : list byte).

Definition apply_op (fs : filesys) (o : fs_op) : result filesys :=
  match o with
  | MkDir l => mkdir_at fs l
  | WriteFile l data => write_at fs l data
  end.

Definition apply_ops (fs : filesys) (ops : list fs_op) : result filesys :=
  foldM apply_op fs ops.



(** What the extractor does for an entry, a group, a pack and an
    archive. *)
Definition entry_ops (cwd : loc) (pack : list byte) (group_path : Path)
    (e : Entry) : list fs_op :=
  let file_path := group_path </> OriginalFilename e in
  [MkDir (locate cwd (parent file_path));
   WriteFile (locate cwd file_path) [];
   WriteFile (locate cwd file_path) (entry_bytes pack e)].

Definition group_ops (cwd : loc) (pack : list byte) (group : Group)
  : list fs_op :=
  let group_path := extracted_romfs_path </> Name group in
  MkDir (locate cwd group_path)
    :: flat_map (entry_ops cwd pack group_path) (OrderedEntries group).

Definition pack_ops (cwd : loc) (pack : PackFile) : list fs_op :=
  flat_map (group_ops cwd (pack_data pack)) (default [] (pack_index pack)).

Definition romfs_ops (cwd : loc) (packs : list PackFile) : list fs_op :=
  flat_map (pack_ops cwd) (sort_packs packs).

(** A pack the extractor takes: it has an index, of entries whose offsets
    and lengths [seek] and [read] take. *)
Definition pack_accepted (max_offset max_length : Z) (pack : PackFile)
  : Prop :=
  is_Some (pack_index pack) /\
  Forall (fun group =>
            Forall (entry_accepted max_offset max_length)
              (OrderedEntries group))
    (default [] (pack_index pack)).

(** ** The console (lines 11-38) *)

Module Message.

Definition ESC : string := String (ascii_of_nat 27) "".

Definition ALL_OFF : string := ESC +:+ "[0m".
Definition BOLD : string := ESC +:+ "[1m".
Definition BLUE : string := BOLD +:+ ESC +:+ "[34m".
Definition GREEN : string := BOLD +:+ ESC +:+ "[32m".
Definition RED : string := BOLD +:+ ESC +:+ "[31m".
Definition YELLOW : string := BOLD +:+ ESC +:+ "[33m".

Inductive stream := stdout | stderr.

(** One call of [print]: the stream and the text before the newline. *)
Definition line : Type := stream * string.

Definition plain (message : string) : line :=
  (stdout, BOLD +:+ "   " +:+ message +:+ ALL_OFF).

Definition msg (message : string) : line :=
  (stdout, GREEN +:+ "==>" +:+ ALL_OFF +:+ BOLD +:+ " " +:+ message
             +:+ ALL_OFF).

Definition msg2 (message : string) : line :=
  (stdout, BLUE +:+ "  ->" +:+ ALL_OFF +:+ BOLD +:+ " " +:+ message
             +:+ ALL_OFF).

Definition ask (message : string) : line :=
  (stdout, BLUE +:+ "::" +:+ ALL_OFF +:+ BOLD +:+ " " +:+ message
             +:+ ALL_OFF).

Definition warning (message : string) : line :=
  (stderr, YELLOW +:+ "==> WARNING:" +:+ ALL_OFF +:+ BOLD +:+ " " +:+ message
             +:+ ALL_OFF).

Definition error (message : string) : line :=
  (stderr, RED +:+ "==> ERROR:" +:+ ALL_OFF +:+ BOLD +:+ " " +:+ message
             +:+ ALL_OFF).

End Message.

(** ** Preparing (lines 40-47 and 87-116) *)

Definition litedb_path : Path :=
  parse_path
    "./ArcUnpack.LiteDB/bin/Release/net7.0/linux-x64/publish/ArcUnpack.LiteDB".

(** [LiteDB.__init__] *)
Definition LiteDB_init (cwd : loc) (path : Path) (fs : filesys)
  : result Path :=
  if negb (path_exists cwd path fs) then Err FileNotFoundError else Ok path.

Definition is_dir_at (fs : filesys) (l : loc) : bool :=
  match stat fs l with
  | Ok Dir => true
  | _ => false
  end.

(** [shutil.copy(src, dst)] for a source that has a name; the mode bits
    are not in the model. *)
Definition shutil_copy (cwd : loc) (src dst : Path) (fs : filesys)
  : result filesys :=
  let dst := if is_dir_at fs (locate cwd dst) then dst </> name src
             else dst in
  copyfile cwd src dst fs.

(** How the preparation ends: the script goes on, [sys.exit(code)] or an
    exception that nothing catches. *)
Inductive outcome :=
  | Continues
  | Exits (code : Z)
  | Raises (e : exn).

Record Prepared := {
  p_outcome : outcome;
  p_fs : filesys;
  p_console : list Message.line }.

(** Lines 87-116, [argv] being [sys.argv].  The working directory is
    taken to be there, so that a [mkdir] that raises has made nothing. *)
Definition prepare (cwd : loc) (argv : list string) (fs : filesys)
  : Prepared :=
  match (a1 <- py_index argv 1 ;; a2 <- py_index argv 2 ;; Ok (a1, a2)) with
  | Err e => {| p_outcome := Raises e; p_fs := fs; p_console := [] |}
  | Ok (a1, a2) =>
      let input_romfs_path := parse_path a1 in
      let arc_create_db_input_path := parse_path a2 in
      let out := [Message.ask "Preparing ..."] in
      if negb (path_exists cwd litedb_path fs) then
        {| p_outcome := Exits 1; p_fs := fs;
           p_console :=
             out ++ [Message.error "ArcUnpack.LiteDB not found!"] |}
      else
        let checked : list Message.line + list Message.line :=
          if negb (path_exists cwd input_romfs_path fs) then
            if path_exists cwd extracted_romfs_path fs then
              inl (out ++ [Message.warning
                             "Extracted romfs found, skipping extraction..."])
            else
              inr (out ++ [Message.error "Input romfs not found!"])
          else inl out in
        match checked with
        | inr out => {| p_outcome := Exits 1; p_fs := fs; p_console := out |}
        | inl out =>
            match mkdir cwd extracted_romfs_path fs with
            | Err e =>
                {| p_outcome := Raises e; p_fs := fs; p_console := out |}
            | Ok fs1 =>
                match mkdir cwd final_path fs1 with
                | Err e =>
                    {| p_outcome := Raises e; p_fs := fs1;
                       p_console := out |}
                | Ok fs2 =>
                    let arc_create_db_path :=
                      final_path </> "arccreate.litedb" in
                    match
                      (if negb (path_exists cwd arc_create_db_path fs2)
                       then shutil_copy cwd arc_create_db_input_path
                              arc_create_db_path fs2
                       else Ok fs2)
                    with
                    | Err e =>
                        {| p_outcome := Raises e; p_fs := fs2;
                           p_console := out |}
                    | Ok fs3 =>
                        match LiteDB_init cwd arc_create_db_path fs3 with
                        | Err e =>
                            {| p_outcome := Raises e; p_fs := fs3;
                               p_console := out |}
                        | Ok _ =>
                            {| p_outcome := Continues; p_fs := fs3;
                               p_console := out |}
                        end
                    end
                end
            end
        end
  end.

(** ** Dates in the JSON text (lines 314 and 320) *)

Definition quote : ascii := ascii_of_nat 34.

(** [\d] on ASCII text, as [json.dumps] writes it *)
Definition is_digit (c : ascii) : bool :=
  (48 <=? nat_of_ascii c)%nat && (nat_of_ascii c <=? 57)%nat.

(** The digits a string starts with, and what follows them. *)
Fixpoint span_digits (s : string) : string * string :=
  match s with
  | EmptyString => (EmptyString, EmptyString)
  | String c s' =>
      if is_digit c then
        let '(ds, rest) := span_digits s' in (String c ds, rest)
      else (EmptyString, s)
  end.

(** A match of the pattern ["(d\d+)"] at the head of [s]: group 1 and
    the length of the match. *)
Definition match_date (s : string) : option (string * nat) :=
  match s with
  | String q (String d s1) =>
      if Ascii.eqb q quote && Ascii.eqb d "d" then
        match span_digits s1 with
        | (String c ds, String q' _) =>
            if Ascii.eqb q' quote
            then Some (String "d" (String c ds),
                       (String.length (String c ds) + 3)%nat)
            else None
        | _ => None
        end
      else None
  | _ => None
  end.

(** [re.sub(r'"(d\d+)"', r'\1', s)] from the position where [skip]
    characters of a match are still to be passed over: the leftmost
    matches, none overlapping another, give way to their group 1. *)
Fixpoint unquote_from (skip : nat) (s : string) : string :=
  match s with
  | EmptyString => EmptyString
  | String c s' =>
      match skip with
      | S k => unquote_from k s'
      | O =>
          match match_date s with
          | Some (g, n) => g +:+ unquote_from (n - 1) s'
          | None => String c (unquote_from 0 s')
          end
      end
  end.

Definition unquote_dates (s : string) : string := unquote_from 0 s.

Fixpoint no_quote (s : string) : bool :=
  match s with
  | EmptyString => true
  | String c s' => negb (Ascii.eqb c quote) && no_quote s'
  end.

Fixpoint all_digits (s : string) : bool :=
  match s with
  | EmptyString => true
  | String c s' => is_digit c && all_digits s'
  end.

Fixpoint drop_quotes (s : string) : string :=
  match s with
  | EmptyString => EmptyString
  | String c s' =>
      if Ascii.eqb c quote then drop_quotes s' else String c (drop_quotes s')
  end.

(** [s] between quotes. *)
Definition quoted (s : string) : string :=
  String quote (s +:+ String quote EmptyString).

(** ** More of the small archive *)

Module Sample.

(** The pack of the songs that belong to no pack. *)
Definition single_pack : Pack :=
  {| pack_id := "single"; pack_parent := None;
     pack_name_en := "Memory Archive" |}.



(** A second pack, of one file. *)
Definition late_pack : PackFile :=
  {| pack_name := "z.pack"; pack_data := bytes_of_string "xyz";
     pack_index :=
       Some [ {| Name := "late";
                 OrderedEntries := [Fixture.entry "z.bin" 0 3] |} ] |}.

Definition argv : list string :=
  ["arc_unpack.py"; "romfs"; "arccreate.litedb"].

Definition tool_dir : loc :=
  Fixture.cwd
    ++ ["ArcUnpack.LiteDB"; "bin"; "Release"; "net7.0"; "linux-x64";
        "publish"].

(** A working directory with the LiteDB tool, an input directory and an
    input catalog. *)
Definition tooled : filesys :=
  Fixture.disk_of
    (apply_ops Fixture.empty_disk
       [MkDir tool_dir;
        WriteFile (tool_dir ++ ["ArcUnpack.LiteDB"]) (bytes_of_string "ELF");
        MkDir (Fixture.cwd ++ ["romfs"]);
        WriteFile (Fixture.cwd ++ ["arccreate.litedb"])
          (bytes_of_string "DB")]).

(** The same with a staging directory in the place of the input
    directory. *)
Definition staged_only : filesys :=
  Fixture.disk_of
    (apply_ops Fixture.empty_disk
       [MkDir tool_dir;
        WriteFile (tool_dir ++ ["ArcUnpack.LiteDB"]) (bytes_of_string "ELF");
        MkDir (Fixture.cwd ++ ["extracted_romfs"]);
        WriteFile (Fixture.cwd ++ ["arccreate.litedb"])
          (bytes_of_string "DB")]).

(** JSON text with a date and with a title that looks like one. *)
Definition dated : string :=
  "{AddedDate: " +:+ quoted "d1700000000" +:+ ", Title: " +:+ quoted "d2"
    +:+ "}".

End Sample.
(** * Properties *)

(** ** SHA-1 on the test vectors of FIPS 180 *)

Example sha1_empty :
  SHA1.hexdigest [] = "da39a3ee5e6b4b0d3255bfef95601890afd80709".
Proof. vm_compute. reflexivity. Qed.

Example sha1_abc :
  SHA1.hexdigest (bytes_of_string "abc")
  = "a9993e364706816aba3e25717850c26c9cd0d89d".
Proof. vm_compute. reflexivity. Qed.

Example sha1_two_blocks :
  SHA1.hexdigest
    (bytes_of_string "abcdbcdecdefdefgefghfghighijhijkijkljklmklmnlmnomnopnopq")
  = "84983e441c3bd26ebaae4aa1f95129e5e54670f1".
Proof. vm_compute. reflexivity. Qed.

(** ** Loops that may raise *)

Lemma rbind_ok {A B} (r : result A) (k : A -> result B) (b : B) :
  rbind r k = Ok b -> exists a, r = Ok a /\ k a = Ok b.
Proof. destruct r as [a|e]; simpl; [eauto | discriminate]. Qed.

Lemma is_err_true {A} (r : result A) :
  is_err r = true <-> exists e, r = Err e.
Proof.
  destruct r as [a|e]; simpl; split; try discriminate; eauto.
  intros [e He]; discriminate.
Qed.

Lemma is_ok_true {A} (r : result A) :
  is_ok r = true <-> exists a, r = Ok a.
Proof.
  destruct r as [a|e]; simpl; split; try discriminate; eauto.
  intros [a Ha]; discriminate.
Qed.

(** Takes a bind that returned apart, naming the intermediate value. *)
Ltac ok_inv H :=
  let a := fresh "a" in
  let Ha := fresh "Ha" in
  apply rbind_ok in H; destruct H as (a & Ha & H).

Lemma foldM_app {A S} (body : S -> A -> result S) (s : S) (l1 l2 : list A) :
  foldM body s (l1 ++ l2) = (s' <- foldM body s l1 ;; foldM body s' l2).
Proof.
  revert s; induction l1 as [|x l1 IH]; intros s; simpl; [reflexivity|].
  destruct (body s x) as [s1|e]; simpl; [apply IH | reflexivity].
Qed.

(** An invariant of the loop body is an invariant of the loop; the body
    may use that its element is in the list. *)
Lemma foldM_invariant {A S} (P : S -> Prop) (body : S -> A -> result S)
    (l : list A) :
  (forall s x s', In x l -> P s -> body s x = Ok s' -> P s') ->
  forall s s', P s -> foldM body s l = Ok s' -> P s'.
Proof.
  induction l as [|x l IH]; intros Hstep s s' Hs Hrun; simpl in Hrun.
  - congruence.
  - ok_inv Hrun. apply (IH (fun s0 y s1 Hy => Hstep s0 y s1 (or_intror Hy)) a).
    + eapply Hstep; eauto; now left.
    + exact Hrun.
Qed.

(** An element on which the body always raises makes the loop raise. *)
Lemma foldM_raises {A S} (body : S -> A -> result S) (x : A) (l : list A) :
  In x l ->
  (forall s, is_err (body s x) = true) ->
  forall s, is_err (foldM body s l) = true.
Proof.
  induction l as [|y l IH]; intros Hin Hx s; simpl; [destruct Hin|].
  destruct Hin as [->|Hin].
  - specialize (Hx s). destruct (body s x); [discriminate | reflexivity].
  - destruct (body s y) as [s1|e]; simpl; [now apply IH | reflexivity].
Qed.

(** A loop that appends one element to a list component per round. *)
Lemma foldM_snoc_Forall2 {A B S} (R : A -> B -> Prop) (out : S -> list B)
    (body : S -> A -> result S) :
  (forall s x s', body s x = Ok s' -> exists y, out s' = out s ++ [y] /\ R x y) ->
  forall l s s', foldM body s l = Ok s' ->
    exists ys, out s' = out s ++ ys /\ Forall2 R l ys.
Proof.
  intros Hstep; induction l as [|x l IH]; intros s s' Hrun; simpl in Hrun.
  - exists []. split; [rewrite app_nil_r; congruence | constructor].
  - ok_inv Hrun. destruct (Hstep _ _ _ Ha) as (y & Hy & HR).
    destruct (IH _ _ Hrun) as (ys & Hys & HF).
    exists (y :: ys). split; [|now constructor].
    rewrite Hys, Hy, <- app_assoc. reflexivity.
Qed.

(** ** Python's list indexing *)

Lemma py_index_ok_range {A} (lst : list A) (i : Z) (x : A) :
  py_index lst i = Ok x ->
  - Z.of_nat (length lst) <= i < Z.of_nat (length lst).
Proof.
  unfold py_index. destruct (Z.ltb_spec i 0);
  repeat match goal with
         | |- context [Z.leb ?a ?b] => destruct (Z.leb_spec a b); simpl
         | |- context [Z.ltb ?a ?b] => destruct (Z.ltb_spec a b); simpl
         end; try discriminate; lia.
Qed.

Lemma py_index_out_of_range {A} (lst : list A) (i : Z) :
  i < - Z.of_nat (length lst) \/ Z.of_nat (length lst) <= i ->
  py_index lst i = Err IndexError.
Proof.
  intros Hi. destruct (py_index lst i) as [x|e] eqn:E.
  - apply py_index_ok_range in E. lia.
  - unfold py_index in E.
    repeat match type of E with
           | context [if ?b then _ else _] => destruct b
           | context [match ?o with Some _ => _ | None => _ end] => destruct o
           end; congruence.
Qed.

Lemma py_index_last {A} (lst : list A) (x : A) :
  py_index (lst ++ [x]) (-1) = Ok x.
Proof.
  unfold py_index. rewrite length_app, Nat2Z.inj_add. simpl length.
  change (-1 <? 0) with true. cbv iota.
  replace (-1 + (Z.of_nat (length lst) + Z.of_nat 1))
    with (Z.of_nat (length lst)) by lia.
  destruct (Z.leb_spec 0 (Z.of_nat (length lst))); [|lia].
  destruct (Z.ltb_spec (Z.of_nat (length lst))
              (Z.of_nat (length lst) + Z.of_nat 1)); [|lia].
  simpl. rewrite Nat2Z.id, nth_error_app2, Nat.sub_diag by lia. reflexivity.
Qed.

Lemma py_index_nil {A} (i : Z) : py_index (@nil A) i = Err IndexError.
Proof. apply py_index_out_of_range. simpl. lia. Qed.

(** ** The file system *)

Lemma same_kind_refl n : same_kind n n.
Proof. destruct n; exact I. Qed.

Lemma same_kind_trans n1 n2 n3 :
  same_kind n1 n2 -> same_kind n2 n3 -> same_kind n1 n3.
Proof. destruct n1, n2, n3; simpl; tauto. Qed.

Lemma grows_refl fs : grows fs fs.
Proof. intros l n H. exists n. split; [exact H | apply same_kind_refl]. Qed.

Lemma grows_trans fs1 fs2 fs3 : grows fs1 fs2 -> grows fs2 fs3 -> grows fs1 fs3.
Proof.
  intros H12 H23 l n H. destruct (H12 l n H) as (n2 & H2 & K2).
  destruct (H23 l n2 H2) as (n3 & H3 & K3).
  exists n3. split; [exact H3 | eapply same_kind_trans; eauto].
Qed.

Lemma grows_dir fs fs' l :
  grows fs fs' -> node_at fs l = Some Dir -> node_at fs' l = Some Dir.
Proof.
  intros Hg. destruct l as [|c l]; simpl; [auto|]. intros H.
  destruct (Hg _ _ H) as (n' & Hn' & K). destruct n'; [exact Hn' | destruct K].
Qed.

Lemma walk_grows fs fs' : grows fs fs' ->
  forall rest done, walk fs done rest = Ok tt -> walk fs' done rest = Ok tt.
Proof.
  intros Hg. induction rest as [|c rest IH]; intros done H; simpl in *; [exact H|].
  destruct (node_at fs done) as [[|d]|] eqn:E; try discriminate.
  rewrite (grows_dir _ _ _ Hg E). apply IH. exact H.
Qed.

Lemma walk_ok_unit fs done rest u : walk fs done rest = Ok u -> walk fs done rest = Ok tt.
Proof. destruct u. auto. Qed.

Lemma stat_ok fs l n :
  stat fs l = Ok n <-> walk fs [] l = Ok tt /\ node_at fs l = Some n.
Proof.
  unfold stat. split.
  - intros H. ok_inv H. destruct a. split; [exact Ha|].
    destruct (node_at fs l); [congruence | discriminate].
  - intros [Hw Hn]. rewrite Hw, Hn. reflexivity.
Qed.

Lemma stat_grows fs fs' l n :
  grows fs fs' -> stat fs l = Ok n ->
  exists n', stat fs' l = Ok n' /\ same_kind n n'.
Proof.
  intros Hg H. apply stat_ok in H. destruct H as [Hw Hn].
  destruct l as [|c l].
  - exists Dir. simpl in Hn. injection Hn as <-. split; [reflexivity | exact I].
  - simpl in Hn. destruct (Hg _ _ Hn) as (n' & Hn' & K). exists n'.
    split; [|exact K]. apply stat_ok. split; [|exact Hn'].
    eapply walk_grows; eauto.
Qed.

Lemma exists_at_grows fs fs' l :
  grows fs fs' -> exists_at fs l = true -> exists_at fs' l = true.
Proof.
  unfold exists_at. intros Hg H. apply is_ok_true in H. destruct H as [n H].
  destruct (stat_grows _ _ _ _ Hg H) as (n' & -> & _). reflexivity.
Qed.

Lemma is_file_at_grows fs fs' l :
  grows fs fs' -> is_file_at fs l = true -> is_file_at fs' l = true.
Proof.
  unfold is_file_at. intros Hg H.
  destruct (stat fs l) as [[|d]|] eqn:E; try discriminate.
  destruct (stat_grows _ _ _ _ Hg E) as (n' & -> & K).
  destruct n'; [destruct K | reflexivity].
Qed.

Lemma read_at_ok fs l data :
  read_at fs l = Ok data <->
  walk fs [] l = Ok tt /\ node_at fs l = Some (File data).
Proof.
  unfold read_at. split.
  - intros H. ok_inv H. apply stat_ok in Ha. destruct Ha as [Hw Hn].
    destruct a; [discriminate|]. injection H as ->. auto.
  - intros [Hw Hn].
    assert (stat fs l = Ok (File data)) as ->; [|reflexivity].
    apply stat_ok. auto.
Qed.

Lemma node_at_insert fs l n l' :
  l <> [] ->
  node_at (<[l := n]> fs) l'
  = if decide (l = l') then Some n else node_at fs l'.
Proof.
  intros Hl. destruct l' as [|c l']; simpl.
  - destruct (decide (l = [])); [contradiction | reflexivity].
  - apply lookup_insert.
Qed.

Lemma node_at_file fs l data :
  node_at fs l = Some (File data) -> l <> [] /\ fs !! l = Some (File data).
Proof.
  destruct l; simpl; [discriminate|]. intros H.
  split; [discriminate | exact H].
Qed.

(** *** [mkdir] *)

Lemma mkdirs_spec : forall rest fs done fs',
  mkdirs fs done rest = Ok fs' ->
  grows fs fs' /\
  (forall l n, fs !! l = Some n -> fs' !! l = Some n) /\
  (forall l data, fs' !! l = Some (File data) -> fs !! l = Some (File data)).
Proof.
  induction rest as [|c rest IH]; intros fs done fs' H; simpl in H.
  - injection H as <-. split; [apply grows_refl | auto].
  - destruct (node_at fs (done ++ [c])) as [[|d]|] eqn:E.
    + apply IH in H. exact H.
    + discriminate.
    + apply IH in H. destruct H as (Hg & Hk & Hf).
      assert (fs !! (done ++ [c]) = None) as Hnone.
      { destruct (done ++ [c]) eqn:Ed; [discriminate | exact E]. }
      split; [|split].
      * intros l n Hl. destruct (Hg l n) as (n' & Hn' & K).
        { rewrite lookup_insert_ne; [exact Hl | congruence]. }
        eauto.
      * intros l n Hl. apply Hk.
        rewrite lookup_insert_ne; [exact Hl | congruence].
      * intros l data Hl. apply Hf in Hl.
        rewrite lookup_insert in Hl. destruct (decide (done ++ [c] = l));
          [discriminate | exact Hl].
Qed.

Lemma mkdir_at_grows fs l fs' : mkdir_at fs l = Ok fs' -> grows fs fs'.
Proof. intros H. apply mkdirs_spec in H. tauto. Qed.

(** *** Writing a file *)

Lemma write_at_ok fs l data fs' :
  write_at fs l data = Ok fs' <->
  walk fs [] l = Ok tt /\ node_at fs l <> Some Dir /\
  fs' = <[l := File data]> fs.
Proof.
  unfold write_at. split.
  - intros H. ok_inv H. destruct a. split; [exact Ha|].
    destruct (node_at fs l) as [[|d]|]; try discriminate;
      injection H as <-; split; congruence.
  - intros (Hw & Hn & ->). rewrite Hw. simpl.
    destruct (node_at fs l) as [[|d]|]; congruence.
Qed.

Lemma write_at_grows fs l data fs' :
  write_at fs l data = Ok fs' -> grows fs fs'.
Proof.
  intros H. apply write_at_ok in H. destruct H as (_ & Hn & ->).
  intros l' n Hl. rewrite lookup_insert. destruct (decide (l = l')) as [<-|].
  - exists (File data). split; [reflexivity|].
    destruct l as [|c l]; [simpl in Hn; congruence|]. simpl in Hn.
    rewrite Hl in Hn. destruct n; [congruence | exact I].
  - exists n. split; [exact Hl | apply same_kind_refl].
Qed.

Lemma write_at_nonroot fs l data fs' : write_at fs l data = Ok fs' -> l <> [].
Proof.
  intros H. apply write_at_ok in H. destruct H as (_ & Hn & _).
  intros ->. simpl in Hn. congruence.
Qed.

Lemma write_at_read fs l data fs' :
  write_at fs l data = Ok fs' -> read_at fs' l = Ok data.
Proof.
  intros H. pose proof (write_at_grows _ _ _ _ H) as Hg.
  pose proof (write_at_nonroot _ _ _ _ H) as Hl.
  apply write_at_ok in H. destruct H as (Hw & _ & ->).
  apply read_at_ok. split; [eapply walk_grows; eauto|].
  rewrite node_at_insert by exact Hl. destruct (decide (l = l)); congruence.
Qed.



Lemma read_at_grows_other fs fs' l data :
  grows fs fs' ->
  (forall d, fs !! l = Some (File d) -> fs' !! l = Some (File d)) ->
  read_at fs l = Ok data -> read_at fs' l = Ok data.
Proof.
  intros Hg Hsame H. apply read_at_ok in H. destruct H as [Hw Hn].
  apply read_at_ok. split; [eapply walk_grows; eauto|].
  apply node_at_file in Hn. destruct Hn as [Hl Hn].
  destruct l; [congruence|]. simpl. auto.
Qed.

(** *** [shutil.copyfile] *)

Lemma copyfile_at_ok fs src dst fs' :
  copyfile_at fs src dst = Ok fs' ->
  exists data, read_at fs src = Ok data /\ write_at fs dst data = Ok fs'.
Proof.
  unfold copyfile_at. destruct (_ && _); [discriminate|].
  intros H. ok_inv H. eauto.
Qed.

Lemma copyfile_at_grows fs src dst fs' :
  copyfile_at fs src dst = Ok fs' -> grows fs fs'.
Proof.
  intros H. apply copyfile_at_ok in H. destruct H as (data & _ & H).
  eapply write_at_grows; eauto.
Qed.

Lemma copyfile_at_is_file fs src dst fs' :
  copyfile_at fs src dst = Ok fs' -> is_file_at fs' dst = true.
Proof.
  intros H. apply copyfile_at_ok in H. destruct H as (data & _ & H).
  apply write_at_read in H. unfold is_file_at, read_at in *.
  destruct (stat fs' dst) as [[|d]|]; simpl in H; congruence.
Qed.

Lemma is_file_exists fs l : is_file_at fs l = true -> exists_at fs l = true.
Proof.
  unfold is_file_at, exists_at.
  destruct (stat fs l) as [[|d]|]; simpl; congruence.
Qed.

(** *** Directories *)


Lemma keeps_dirs_node fs fs' l :
  keeps_dirs fs fs' -> node_at fs l = Some Dir -> node_at fs' l = Some Dir.
Proof. intros Hk. destruct l; simpl; auto. Qed.

Lemma walk_keeps_dirs fs fs' : keeps_dirs fs fs' ->
  forall rest done, walk fs done rest = Ok tt -> walk fs' done rest = Ok tt.
Proof.
  intros Hk. induction rest as [|c rest IH]; intros done H; simpl in *;
    [exact H|].
  destruct (node_at fs done) as [[|d]|] eqn:E; try discriminate.
  rewrite (keeps_dirs_node _ _ _ Hk E). apply IH. exact H.
Qed.

Lemma exists_at_ok fs l :
  exists_at fs l = true <->
  walk fs [] l = Ok tt /\ is_Some (node_at fs l).
Proof.
  unfold exists_at. rewrite is_ok_true. split.
  - intros [n H]. apply stat_ok in H. destruct H as [Hw Hn]. eauto.
  - intros [Hw [n Hn]]. exists n. apply stat_ok. auto.
Qed.

(** *** [Path.rename] *)

Lemma rename_at_ok fs src dst fs' :
  rename_at fs src dst = Ok fs' ->
  exists data,
    read_at fs src = Ok data /\ src <> [] /\
    walk fs [] dst = Ok tt /\ node_at fs dst <> Some Dir /\
    fs' = <[dst := File data]> (delete src fs).
Proof.
  unfold rename_at. intros H. ok_inv H. destruct a as [|data]; [discriminate|].
  ok_inv H. destruct a. exists data.
  split; [unfold read_at; rewrite Ha; reflexivity|].
  split.
  { apply stat_ok in Ha. destruct Ha as [_ Hn]. intros ->. discriminate. }
  split; [exact Ha0|].
  destruct (node_at fs dst) as [[|d]|]; try discriminate;
    injection H as <-; split; congruence.
Qed.

Lemma rename_at_keeps_dirs fs src dst fs' :
  rename_at fs src dst = Ok fs' -> keeps_dirs fs fs'.
Proof.
  intros H. apply rename_at_ok in H.
  destruct H as (data & Hr & Hsrc & Hw & Hn & ->).
  apply read_at_ok in Hr. destruct Hr as [_ Hr]. apply node_at_file in Hr.
  destruct Hr as [_ Hr]. intros l Hl.
  assert (l <> dst) as Hne.
  { intros ->. destruct dst; simpl in Hn; congruence. }
  rewrite lookup_insert_ne by congruence.
  rewrite lookup_delete_ne by congruence. exact Hl.
Qed.

Lemma rename_at_lookup fs src dst fs' l :
  rename_at fs src dst = Ok fs' -> l <> src -> l <> dst ->
  fs' !! l = fs !! l.
Proof.
  intros H Hs Hd. apply rename_at_ok in H.
  destruct H as (data & _ & _ & _ & _ & ->).
  rewrite lookup_insert_ne by congruence.
  rewrite lookup_delete_ne by congruence. reflexivity.
Qed.

Lemma rename_at_target fs src dst fs' :
  rename_at fs src dst = Ok fs' ->
  exists data,
    read_at fs src = Ok data /\ read_at fs' dst = Ok data /\
    fs' !! dst = Some (File data) /\ dst <> [].
Proof.
  intros H. pose proof (rename_at_keeps_dirs _ _ _ _ H) as Hk.
  apply rename_at_ok in H. destruct H as (data & Hr & _ & Hw & Hn & ->).
  assert (dst <> []) as Hd by (intros ->; simpl in Hn; congruence).
  exists data. split; [exact Hr|]. split; [|split; [|exact Hd]].
  - apply read_at_ok. split; [eapply walk_keeps_dirs; eauto|].
    destruct dst; [congruence|]. simpl. apply lookup_insert_eq.
  - apply lookup_insert_eq.
Qed.

Lemma rename_at_exists fs src dst fs' l :
  rename_at fs src dst = Ok fs' -> l <> src ->
  exists_at fs l = true -> exists_at fs' l = true.
Proof.
  intros H Hs He. pose proof (rename_at_keeps_dirs _ _ _ _ H) as Hk.
  apply exists_at_ok in He. destruct He as [Hw Hn].
  apply exists_at_ok. split; [eapply walk_keeps_dirs; eauto|].
  destruct l as [|c l]; [simpl; eauto|].
  destruct (decide (c :: l = dst)) as [<-|Hd].
  - apply rename_at_target in H. destruct H as (data & _ & _ & Hl & _).
    simpl. rewrite Hl. eauto.
  - simpl. rewrite (rename_at_lookup _ _ _ _ _ H Hs Hd). exact Hn.
Qed.

(** *** [shutil.rmtree] *)

Lemma rmtree_at_ok fs d fs' :
  rmtree_at fs d = Ok fs' ->
  fs' = filter (fun kv => ~ under d (fst kv)) fs.
Proof.
  unfold rmtree_at. intros H. ok_inv H.
  destruct a; [congruence | discriminate].
Qed.

Lemma rmtree_at_lookup fs d fs' l :
  rmtree_at fs d = Ok fs' -> ~ under d l -> fs' !! l = fs !! l.
Proof.
  intros H Hl. apply rmtree_at_ok in H. subst fs'.
  destruct (fs !! l) as [n|] eqn:E.
  - apply map_lookup_filter_Some. split; [exact E | exact Hl].
  - apply map_lookup_filter_None. left. exact E.
Qed.

Lemma rmtree_at_lookup_Some fs d fs' l n :
  rmtree_at fs d = Ok fs' -> fs' !! l = Some n -> fs !! l = Some n.
Proof.
  intros H Hl. apply rmtree_at_ok in H. subst fs'.
  apply map_lookup_filter_Some in Hl. tauto.
Qed.

Lemma under_app d done rest : under d done -> under d (done ++ rest).
Proof. intros H. unfold under in *. apply prefix_app_r. exact H. Qed.

Lemma rmtree_at_walk fs d fs' :
  rmtree_at fs d = Ok fs' ->
  forall rest done,
    ~ under d (done ++ rest) ->
    walk fs done rest = Ok tt -> walk fs' done rest = Ok tt.
Proof.
  intros H. induction rest as [|c rest IH]; intros done Hl Hw; simpl in *;
    [exact Hw|].
  destruct (node_at fs done) as [[|x]|] eqn:E; try discriminate.
  assert (node_at fs' done = Some Dir) as ->.
  { destruct done as [|c0 done]; [reflexivity|]. simpl in *.
    rewrite (rmtree_at_lookup _ _ _ _ H); [exact E|].
    intros Hu. apply Hl. apply (under_app _ _ (c :: rest)) in Hu. exact Hu. }
  apply IH; [|exact Hw]. rewrite <- app_assoc. exact Hl.
Qed.

Lemma rmtree_at_exists fs d fs' l :
  rmtree_at fs d = Ok fs' -> ~ under d l ->
  exists_at fs l = true -> exists_at fs' l = true.
Proof.
  intros H Hl He. apply exists_at_ok in He. destruct He as [Hw Hn].
  apply exists_at_ok. split.
  - eapply rmtree_at_walk; eauto.
  - destruct l; [simpl; eauto|]. simpl.
    rewrite (rmtree_at_lookup _ _ _ _ H Hl). exact Hn.
Qed.

(** A file can be put into a directory. *)
Lemma walk_into_dir fs rest : forall done c,
  walk fs done rest = Ok tt -> node_at fs (done ++ rest) = Some Dir ->
  walk fs done (rest ++ [c]) = Ok tt.
Proof.
  induction rest as [|x rest IH]; intros done c Hw Hn; simpl in *.
  - rewrite app_nil_r in Hn. rewrite Hn. reflexivity.
  - destruct (node_at fs done) as [[|d]|]; try discriminate.
    apply IH; [exact Hw|]. rewrite <- app_assoc. exact Hn.
Qed.

(** *** What a rename leaves alone *)

Lemma rename_at_keeps_dirs_back fs src dst fs' :
  rename_at fs src dst = Ok fs' -> keeps_dirs fs' fs.
Proof.
  intros H. apply rename_at_ok in H.
  destruct H as (data & _ & _ & _ & _ & ->). intros l Hl.
  rewrite lookup_insert in Hl.
  destruct (decide (dst = l)) as [<-|Hne]; [discriminate|].
  apply lookup_delete_Some in Hl. tauto.
Qed.

Lemma rename_at_read_other fs src dst fs' l :
  rename_at fs src dst = Ok fs' -> l <> src -> l <> dst ->
  forall data, read_at fs' l = Ok data <-> read_at fs l = Ok data.
Proof.
  intros H Hs Hd data.
  pose proof (rename_at_keeps_dirs _ _ _ _ H) as Hk.
  pose proof (rename_at_keeps_dirs_back _ _ _ _ H) as Hk'.
  pose proof (rename_at_lookup _ _ _ _ l H Hs Hd) as Hl.
  rewrite !read_at_ok. destruct l as [|c l]; [tauto|]. simpl. rewrite Hl.
  split; intros [Hw Hn]; (split; [|exact Hn]);
    eapply walk_keeps_dirs; eauto.
Qed.

Lemma rename_at_exists_back fs src dst fs' l :
  rename_at fs src dst = Ok fs' -> l <> dst ->
  exists_at fs' l = true -> exists_at fs l = true.
Proof.
  intros H Hd He.
  pose proof (rename_at_keeps_dirs_back _ _ _ _ H) as Hk'.
  apply rename_at_ok in H. destruct H as (data & _ & _ & _ & _ & ->).
  apply exists_at_ok in He. destruct He as [Hw Hn].
  apply exists_at_ok. split; [eapply walk_keeps_dirs; eauto|].
  destruct l as [|c l]; [simpl; eauto|]. simpl in *.
  rewrite lookup_insert_ne in Hn by congruence.
  destruct Hn as [n Hn]. apply lookup_delete_Some in Hn.
  destruct Hn as [_ Hn]. eauto.
Qed.

Lemma read_at_is_file fs l data :
  read_at fs l = Ok data -> is_file_at fs l = true.
Proof.
  unfold read_at, is_file_at.
  destruct (stat fs l) as [[|d]|]; simpl; congruence.
Qed.

(** ** Strings and paths *)

Lemma length_append (a b : string) :
  String.length (a +:+ b) = (String.length a + String.length b)%nat.
Proof. induction a as [|c a IH]; simpl; [|rewrite IH]; reflexivity. Qed.

Lemma no_slash_app (a b : string) :
  no_slash (a +:+ b) = no_slash a && no_slash b.
Proof.
  induction a as [|c a IH]; simpl; [reflexivity|].
  rewrite IH, andb_assoc. reflexivity.
Qed.

Lemma split_slash_no_slash (s : string) :
  no_slash s = true -> split_slash s = [s].
Proof.
  induction s as [|c s IH]; simpl; [reflexivity|].
  destruct (Ascii.eqb c "/"); simpl; [discriminate|].
  intros H. rewrite (IH H). reflexivity.
Qed.

Lemma leading_slashes_no_slash (s : string) :
  no_slash s = true -> leading_slashes s = O.
Proof.
  destruct s as [|c s]; simpl; [reflexivity|].
  destruct (Ascii.eqb c "/"); simpl; [discriminate | reflexivity].
Qed.

(** A file name is a path of one component. *)
Lemma parse_path_name (s : string) :
  no_slash s = true -> s <> "" -> s <> "." ->
  parse_path s = {| anchor := ""; parts := [s] |}.
Proof.
  intros Hs He Hd. unfold parse_path.
  rewrite leading_slashes_no_slash, split_slash_no_slash by exact Hs.
  simpl. unfold is_component.
  destruct (String.eqb_spec s ""); [contradiction|].
  destruct (String.eqb_spec s "."); [contradiction|]. reflexivity.
Qed.

Lemma joinpath_name (p : Path) (s : string) :
  no_slash s = true -> s <> "" -> s <> "." ->
  p </> s = {| anchor := anchor p; parts := parts p ++ [s] |}.
Proof.
  intros Hs He Hd. unfold joinpath. rewrite parse_path_name by assumption.
  reflexivity.
Qed.

Lemma name_joinpath (p : Path) (s : string) :
  no_slash s = true -> s <> "" -> s <> "." -> name (p </> s) = s.
Proof.
  intros Hs He Hd. rewrite joinpath_name by assumption.
  unfold name. simpl. apply last_last.
Qed.

(** *** Suffixes *)

Lemma rfind_dot_split (s : string) (i : nat) :
  rfind_dot s = Some i ->
  exists a rest,
    s = a +:+ String "." rest /\ String.length a = i /\
    rfind_dot rest = None.
Proof.
  revert i. induction s as [|c s IH]; intros i; simpl; [discriminate|].
  destruct (rfind_dot s) as [j|] eqn:E.
  - intros [= <-]. destruct (IH j eq_refl) as (a & rest & -> & <- & Hr).
    exists (String c a), rest. auto.
  - destruct (Ascii.eqb_spec c "."); [|discriminate].
    intros [= <-]. subst c. exists "", s. auto.
Qed.

Lemma rfind_dot_app_dot (a rest : string) :
  rfind_dot rest = None ->
  rfind_dot (a +:+ String "." rest) = Some (String.length a).
Proof.
  intros Hr. induction a as [|c a IH]; simpl.
  - rewrite Hr. reflexivity.
  - rewrite IH. reflexivity.
Qed.

Lemma rfind_dot_app_none (a b : string) :
  rfind_dot a = None -> rfind_dot b = None -> rfind_dot (a +:+ b) = None.
Proof.
  intros Ha Hb. induction a as [|c a IH]; simpl in *; [exact Hb|].
  destruct (rfind_dot a); [discriminate|].
  rewrite IH by reflexivity. exact Ha.
Qed.

Lemma substring_all (b : string) : substring 0 (String.length b) b = b.
Proof. induction b as [|c b IH]; simpl; [|rewrite IH]; reflexivity. Qed.

Lemma substring_app_right (a b : string) :
  substring (String.length a) (String.length b) (a +:+ b) = b.
Proof.
  induction a as [|c a IH]; simpl; [apply substring_all | exact IH].
Qed.

(** A suffix is empty, or a dot and at least one character without dot. *)
Lemma suffix_of_name_shape (nm : string) :
  suffix_of_name nm = "" \/
  exists a rest,
    nm = a +:+ suffix_of_name nm /\
    suffix_of_name nm = String "." rest /\ rest <> "" /\
    rfind_dot rest = None.
Proof.
  unfold suffix_of_name. destruct (rfind_dot nm) as [i|] eqn:E; [|now left].
  destruct (rfind_dot_split _ _ E) as (a & rest & Hnm & Hi & Hr).
  destruct ((0 <? i)%nat && (i <? String.length nm - 1)%nat) eqn:Hc;
    [|now left].
  right. exists a, rest.
  assert (substring i (String.length nm - i) nm = String "." rest) as Hsub.
  { rewrite Hnm, <- Hi.
    rewrite length_append, Nat.add_comm, Nat.add_sub.
    apply substring_app_right. }
  rewrite Hsub. split; [exact Hnm|]. split; [reflexivity|].
  split; [|exact Hr].
  intros ->. apply andb_true_iff in Hc. destruct Hc as [_ Hc].
  apply Nat.ltb_lt in Hc. rewrite Hnm, length_append in Hc. simpl in Hc. lia.
Qed.

Lemma suffix_of_name_app (h nm : string) :
  rfind_dot h = None -> h <> "" ->
  suffix_of_name (h +:+ suffix_of_name nm) = suffix_of_name nm.
Proof.
  intros Hh Hne.
  destruct (suffix_of_name_shape nm) as [->|(a & rest & _ & -> & Hrest & Hr)].
  - unfold suffix_of_name. rewrite rfind_dot_app_none; auto.
  - unfold suffix_of_name at 1. rewrite rfind_dot_app_dot by exact Hr.
    rewrite length_append. simpl String.length.
    assert (0 < String.length h)%nat as Hlen.
    { destruct h; [contradiction | simpl; lia]. }
    assert (0 < String.length rest)%nat as Hlen'.
    { destruct rest; [contradiction | simpl; lia]. }
    destruct (Nat.ltb_spec 0 (String.length h)); [|lia].
    destruct (Nat.ltb_spec (String.length h)
                (String.length h + S (String.length rest) - 1)); [|lia].
    simpl andb. cbv iota.
    replace (String.length h + S (String.length rest) - String.length h)%nat
      with (String.length (String "." rest)) by (simpl; lia).
    apply substring_app_right.
Qed.

Lemma no_slash_suffix_of_name (nm : string) :
  no_slash nm = true -> no_slash (suffix_of_name nm) = true.
Proof.
  intros H.
  destruct (suffix_of_name_shape nm) as [->|(a & rest & Hnm & _)];
    [reflexivity|].
  rewrite Hnm, no_slash_app in H. apply andb_true_iff in H. tauto.
Qed.

(** *** Digests *)

Lemma is_hex_app (a b : string) : is_hex (a +:+ b) = is_hex a && is_hex b.
Proof.
  induction a as [|c a IH]; [reflexivity|].
  change (String c a +:+ b) with (String c (a +:+ b)). cbn [is_hex].
  rewrite IH, andb_assoc. reflexivity.
Qed.

Lemma is_hex_no_slash (s : string) : is_hex s = true -> no_slash s = true.
Proof.
  induction s as [|c s IH]; cbn [is_hex no_slash]; [reflexivity|].
  intros H. apply andb_true_iff in H. destruct H as [Hc Hs].
  rewrite (IH Hs), andb_true_r.
  destruct (Ascii.eqb_spec c "/") as [->|]; [|reflexivity].
  vm_compute in Hc. discriminate.
Qed.

Lemma is_hex_no_dot (s : string) : is_hex s = true -> rfind_dot s = None.
Proof.
  induction s as [|c s IH]; cbn [is_hex rfind_dot]; [reflexivity|].
  intros H. apply andb_true_iff in H. destruct H as [Hc Hs].
  rewrite (IH Hs).
  destruct (Ascii.eqb_spec c ".") as [->|]; [|reflexivity].
  vm_compute in Hc. discriminate.
Qed.

Lemma hex_digit_is_hex (x : Z) : is_hex_digit (SHA1.hex_digit x) = true.
Proof.
  unfold SHA1.hex_digit.
  assert (Z.to_nat (x mod 16) < 16)%nat as Hn.
  { pose proof (Z.mod_pos_bound x 16). lia. }
  destruct (Z.to_nat (x mod 16)) as [|n]; [reflexivity|].
  do 15 (destruct n as [|n]; [reflexivity|]). lia.
Qed.

Lemma is_hex_of_list (l : list ascii) :
  Forall (fun c => is_hex_digit c = true) l ->
  is_hex (string_of_list_ascii l) = true.
Proof.
  induction 1 as [|c l Hc _ IH]; cbn [is_hex string_of_list_ascii];
    [reflexivity|].
  rewrite Hc, IH. reflexivity.
Qed.

Lemma length_string_of_list_ascii (l : list ascii) :
  String.length (string_of_list_ascii l) = length l.
Proof. induction l as [|c l IH]; simpl; [|rewrite IH]; reflexivity. Qed.

Lemma hex8_spec (x : Z) :
  is_hex (SHA1.hex8 x) = true /\ String.length (SHA1.hex8 x) = 8%nat.
Proof.
  unfold SHA1.hex8. split.
  - apply is_hex_of_list. apply Forall_map. apply Forall_forall.
    intros i _. apply hex_digit_is_hex.
  - rewrite length_string_of_list_ascii. reflexivity.
Qed.

(** A digest is 160 bits: 40 hexadecimal digits. *)
Lemma hexdigest_spec (data : list byte) :
  is_hex (SHA1.hexdigest data) = true /\
  String.length (SHA1.hexdigest data) = 40%nat.
Proof.
  unfold SHA1.hexdigest.
  destruct (SHA1.digest data) as [[[[h0 h1] h2] h3] h4].
  rewrite !is_hex_app, !length_append.
  destruct (hex8_spec h0) as [-> ->], (hex8_spec h1) as [-> ->],
    (hex8_spec h2) as [-> ->], (hex8_spec h3) as [-> ->],
    (hex8_spec h4) as [-> ->].
  split; reflexivity.
Qed.

Lemma hexdigest_nonempty (data : list byte) : SHA1.hexdigest data <> "".
Proof.
  intros H. pose proof (hexdigest_spec data) as [_ Hl].
  rewrite H in Hl. discriminate.
Qed.

(** *** Stored names *)

Lemma stored_name_suffix (nm : string) (data : list byte) :
  suffix_of_name (stored_name nm data) = suffix_of_name nm.
Proof.
  unfold stored_name. apply suffix_of_name_app.
  - apply is_hex_no_dot, hexdigest_spec.
  - apply hexdigest_nonempty.
Qed.

Lemma stored_name_is_name (nm : string) (data : list byte) :
  no_slash nm = true ->
  no_slash (stored_name nm data) = true /\
  stored_name nm data <> "" /\ stored_name nm data <> ".".
Proof.
  intros H. unfold stored_name. pose proof (hexdigest_spec data) as [Hh Hl].
  split; [|split].
  - rewrite no_slash_app, (is_hex_no_slash _ Hh), no_slash_suffix_of_name;
      auto.
  - intros He. apply (f_equal String.length) in He.
    rewrite length_append, Hl in He. discriminate.
  - intros He. apply (f_equal String.length) in He.
    rewrite length_append, Hl in He. discriminate.
Qed.

(** ** The chart of one difficulty *)

Lemma replace_space_strips (s : string) :
  replace_char " " "" s = strip_spaces s.
Proof.
  unfold strip_spaces. induction s as [|c s IH]; simpl; [reflexivity|].
  destruct (Ascii.eqb c " "); simpl; rewrite IH; reflexivity.
Qed.

Lemma replace_hyphen_spreads (s : string) :
  replace_char "-" " - " s = spread_hyphens s.
Proof.
  unfold spread_hyphens. induction s as [|c s IH]; simpl; [reflexivity|].
  destruct (Ascii.eqb c "-"); simpl; rewrite IH; reflexivity.
Qed.

Lemma float_of_ok (x : jnum) (f : pyfloat) :
  float_of x = Ok f <-> converts x /\ f = FloatOf x.
Proof.
  unfold float_of, converts. destruct x as [n|r].
  - destruct (Z.leb_spec float_limit (Z.abs n)) as [Hn|Hn]; split.
    + discriminate.
    + intros [Hc _]. lia.
    + intros [= <-]. split; [lia | reflexivity].
    + intros [_ ->]. reflexivity.
  - split; [intros [= <-]; auto | intros [_ ->]; reflexivity].
Qed.

Lemma float_of_raises (x : jnum) :
  ~ converts x -> float_of x = Err OverflowError.
Proof.
  unfold float_of, converts. destruct x as [n|r]; [|tauto].
  intros Hc. destruct (Z.leb_spec float_limit (Z.abs n)) as [Hn|Hn];
    [reflexivity | lia].
Qed.

Lemma converts_dec (x : jnum) : converts x \/ ~ converts x.
Proof. destruct x as [n|r]; simpl; [lia | auto]. Qed.

Lemma make_chart_ok (song : Song) (diff : Difficulty) (chart : Chart) :
  make_chart song diff = Ok chart ->
  exists difficulty_name difficulty_color,
    py_index DIFFICULTY_NAMES (ratingClass diff) = Ok difficulty_name /\
    py_index DIFFICULTY_COLORS (ratingClass diff) = Ok difficulty_color /\
    DifficultyText chart = difficulty_name +:+ " " +:+ str_num (rating diff) /\
    DifficultyColor chart = difficulty_color /\
    ChartPath chart = name (chart_path song diff) /\
    BackgroundPath chart = name (background_path song diff).
Proof.
  unfold make_chart. intros H. do 4 ok_inv H.
  injection H as <-. simpl. eauto 10.
Qed.

Lemma make_chart_floats (song : Song) (diff : Difficulty) (chart : Chart) :
  make_chart song diff = Ok chart ->
  converts (song_bpm_base song) /\ converts (rating diff) /\
  BaseBpm chart = FloatOf (song_bpm_base song) /\
  ChartConstant chart = FloatOf (rating diff).
Proof.
  unfold make_chart. intros H. do 4 ok_inv H.
  injection H as <-. simpl.
  apply float_of_ok in Ha, Ha1. tauto.
Qed.

Lemma rating_class_cases (rc : Z) :
  -4 <= rc <= 3 ->
  rc = -4 \/ rc = -3 \/ rc = -2 \/ rc = -1 \/
  rc = 0 \/ rc = 1 \/ rc = 2 \/ rc = 3.
Proof. lia. Qed.

Lemma make_chart_range (song : Song) (diff : Difficulty) :
  is_ok (make_chart song diff) = true <->
  -4 <= ratingClass diff <= 3 /\
  converts (song_bpm_base song) /\ converts (rating diff).
Proof.
  split.
  - intros H. apply is_ok_true in H. destruct H as [chart H].
    pose proof (make_chart_floats _ _ _ H) as (Hb & Hr & _).
    apply make_chart_ok in H. destruct H as (dn & dc & E & _).
    apply py_index_ok_range in E. simpl in E. split; [lia | auto].
  - intros (H & Hb & Hr). unfold make_chart.
    rewrite (proj2 (float_of_ok _ _) (conj Hb eq_refl)),
      (proj2 (float_of_ok _ _) (conj Hr eq_refl)).
    apply rating_class_cases in H.
    repeat destruct H as [-> | H]; try rewrite H; reflexivity.
Qed.

Section Songs.

Variable cwd : loc.

Lemma convert_diff_ok song charts bgs fs diff charts' bgs' fs' :
  convert_diff cwd song (charts, bgs, fs) diff = Ok (charts', bgs', fs') ->
  exists chart fs1,
    copyfile cwd (chart_path song diff)
      (song_root_path song </> name (chart_path song diff)) fs = Ok fs1 /\
    make_chart song diff = Ok chart /\
    charts' = charts ++ [chart] /\
    let bg := background_path song diff in
    ((path_exists cwd (song_root_path song </> name bg) fs1 = true /\
      bgs' = bgs /\ fs' = fs1) \/
     (path_exists cwd (song_root_path song </> name bg) fs1 = false /\
      copyfile cwd bg (song_root_path song </> name bg) fs1 = Ok fs' /\
      bgs' = bgs ++ [bg])).
Proof.
  unfold convert_diff. intros H. ok_inv H. ok_inv H.
  exists a0, a. repeat split; try assumption.
  - destruct (path_exists _ _ a); [congruence|].
    ok_inv H. congruence.
  - simpl. destruct (path_exists _ _ a) eqn:E.
    + left. injection H as <- <- <-. auto.
    + right. ok_inv H. injection H as <- <- <-. auto.
Qed.

Lemma convert_diffs_charts song diffs st st' :
  foldM (convert_diff cwd song) st diffs = Ok st' ->
  exists charts,
    fst (fst st') = fst (fst st) ++ charts /\
    Forall2 (fun diff chart => make_chart song diff = Ok chart) diffs charts.
Proof.
  apply (foldM_snoc_Forall2
           (fun diff chart => make_chart song diff = Ok chart)
           (fun st : list Chart * list Path * filesys => fst (fst st))).
  intros [[charts bgs] fs] diff [[charts' bgs'] fs'] H.
  apply convert_diff_ok in H. destruct H as (chart & fs1 & _ & Hc & -> & _).
  exists chart. auto.
Qed.

Lemma convert_song_ok i song fs lv fs' :
  convert_song cwd i song fs = Ok (lv, fs') ->
  exists fs0 charts bgs last_chart,
    foldM (convert_diff cwd song) ([], [], fs0) (song_difficulties song)
      = Ok (charts, bgs, fs') /\
    py_index charts (-1) = Ok last_chart /\
    level_id lv = i /\
    level_Identifier lv = new_id song /\
    level_Charts lv = charts /\
    level_LastOpenedChartPath lv = ChartPath last_chart /\
    level_FileReferences lv =
      ["base.ogg"; "base.jpg"] ++ map name bgs ++ map ChartPath charts.
Proof.
  unfold convert_song. intros H. do 4 ok_inv H.
  destruct a2 as [[charts bgs] fs2]. ok_inv H. injection H as <- <-.
  exists a1, charts, bgs, a2. simpl. auto 10.
Qed.

Lemma convert_song_charts i song fs lv fs' :
  convert_song cwd i song fs = Ok (lv, fs') ->
  Forall2 (fun diff chart => make_chart song diff = Ok chart)
    (song_difficulties song) (level_Charts lv).
Proof.
  intros H. apply convert_song_ok in H.
  destruct H as (fs0 & charts & bgs & lc & Hrun & _ & _ & _ & -> & _).
  apply convert_diffs_charts in Hrun. destruct Hrun as (cs & Hcs & HF).
  simpl in Hcs. subst. exact HF.
Qed.

(** C9.  Every chart of a converted song follows the BPM display rule:
    when the song's [bpm] string equals [str(bpm_base)] the chart has
    [SyncBaseBpm] true and no [BpmText]; otherwise [SyncBaseBpm] is false
    and [BpmText] is the [bpm] string with its spaces stripped and each
    hyphen turned into [" - "].  There is one chart per difficulty. *)
Theorem bpm_display_rule i song fs lv fs' :
  convert_song cwd i song fs = Ok (lv, fs') ->
  length (level_Charts lv) = length (song_difficulties song) /\
  Forall (fun chart =>
            (song_bpm song = str_num (song_bpm_base song) ->
             SyncBaseBpm chart = true /\ BpmText chart = None) /\
            (song_bpm song <> str_num (song_bpm_base song) ->
             SyncBaseBpm chart = false /\
             BpmText chart
             = Some (spread_hyphens (strip_spaces (song_bpm song)))))
         (level_Charts lv).
Proof.
  intros H. apply convert_song_charts in H. split.
  - symmetry. eapply Forall2_length; eauto.
  - induction H as [|diff chart diffs charts Hc _ IH]; constructor; auto.
    unfold make_chart in Hc. do 4 ok_inv Hc. injection Hc as <-. simpl.
    rewrite replace_hyphen_spreads, replace_space_strips.
    destruct (String.eqb_spec (song_bpm song) (str_num (song_bpm_base song)));
      split; intros; auto; contradiction.
Qed.

Lemma convert_diff_raises song diff :
  is_err (make_chart song diff) = true ->
  forall st, is_err (convert_diff cwd song st diff) = true.
Proof.
  intros Hc [[charts bgs] fs]. unfold convert_diff.
  destruct (copyfile _ _ _ fs) as [fs1|e]; simpl; [|reflexivity].
  destruct (make_chart song diff); [discriminate | reflexivity].
Qed.

(** C10.  A song without difficulties is not converted: the run raises,
    and the exception is the [IndexError] of [charts[-1]] as soon as the
    working directory, the audio and the jacket could be set up.  Hence
    every Level record the song loop builds has at least one chart. *)
Theorem empty_difficulties_raise :
  (forall i song fs,
     song_difficulties song = [] ->
     is_err (convert_song cwd i song fs) = true /\
     (forall fs1 fs2 fs3,
        mkdir cwd (song_root_path song) fs = Ok fs1 ->
        copyfile cwd (audio_root_path </> original_id song </> "base.ogg")
          (song_root_path song </> "base.ogg") fs1 = Ok fs2 ->
        copyfile cwd (jacket_root_path </> original_id song </> "base.jpg")
          (song_root_path song </> "base.jpg") fs2 = Ok fs3 ->
        convert_song cwd i song fs = Err IndexError)) /\
  (forall level_count songs fs sl,
     convert_songs cwd level_count songs fs = Ok sl ->
     Forall (fun lv => level_Charts lv <> []) (converted_songs sl)).
Proof.
  split.
  - intros i song fs Hd. unfold convert_song. rewrite Hd. simpl. split.
    + destruct (mkdir _ _ fs) as [fs1|]; simpl; [|reflexivity].
      destruct (copyfile _ _ _ fs1) as [fs2|]; simpl; [|reflexivity].
      destruct (copyfile _ _ _ fs2) as [fs3|]; simpl; reflexivity.
    + intros fs1 fs2 fs3 -> . simpl. intros ->. simpl. intros ->. reflexivity.
  - intros level_count songs fs sl H. unfold convert_songs in H.
    revert H.
    apply (foldM_invariant
             (fun st => Forall (fun lv => level_Charts lv <> [])
                          (converted_songs st))).
    + intros st song st' _ Hst Hstep. unfold song_step in Hstep.
      ok_inv Hstep. destruct a as [lv fs']. injection Hstep as <-. simpl.
      apply Forall_app. split; [exact Hst|]. constructor; [|constructor].
      apply convert_song_ok in Ha.
      destruct Ha as (fs0 & charts & bgs & lc & _ & Hlast & _ & _ & -> & _).
      intros ->. rewrite py_index_nil in Hlast. discriminate.
    + constructor.
Qed.

(** C7, as the code has it.  A rating class below -4 or above 3 makes the
    conversion of its song raise: the chart dictionary raises the
    [IndexError] of the table, once its chart file is copied and [float]
    has taken the base BPM, and [OverflowError] when [float] does not.  A
    rating class from -4 to 3 is looked up without an exception, a
    negative one counting from the end of the table ([-1] is the entry of
    [3]): the chart is then built whenever [float] takes the base BPM and
    the rating, and the dictionary raises [OverflowError] when it does
    not.  The side is compared, never used as an index: whatever its
    value the chart is built, without a skin when the side is neither 0
    nor 1. *)
Theorem rating_class_lookup :
  (forall i song fs diff,
     In diff (song_difficulties song) ->
     (ratingClass diff < -4 \/ 3 < ratingClass diff) ->
     is_err (convert_song cwd i song fs) = true /\
     (converts (song_bpm_base song) ->
      make_chart song diff = Err IndexError /\
      forall charts bgs fs0 fs1,
        copyfile cwd (chart_path song diff)
          (song_root_path song </> name (chart_path song diff)) fs0
          = Ok fs1 ->
        convert_diff cwd song (charts, bgs, fs0) diff = Err IndexError) /\
     (~ converts (song_bpm_base song) ->
      make_chart song diff = Err OverflowError)) /\
  (forall song diff,
     -4 <= ratingClass diff <= 3 ->
     (converts (song_bpm_base song) -> converts (rating diff) ->
      exists chart difficulty_name,
        make_chart song diff = Ok chart /\
        nth_error DIFFICULTY_NAMES (Z.to_nat (ratingClass diff mod 4))
          = Some difficulty_name /\
        DifficultyText chart
          = difficulty_name +:+ " " +:+ str_num (rating diff) /\
        nth_error DIFFICULTY_COLORS (Z.to_nat (ratingClass diff mod 4))
          = Some (DifficultyColor chart) /\
        (song_side song <> 0 -> song_side song <> 1 -> Skin chart = None)) /\
     (~ (converts (song_bpm_base song) /\ converts (rating diff)) ->
      make_chart song diff = Err OverflowError)).
Proof.
  split.
  - intros i song fs diff Hin Hrc. split.
    + unfold convert_song.
      destruct (mkdir _ _ fs) as [fs1|]; simpl; [|reflexivity].
      destruct (copyfile _ _ _ fs1) as [fs2|]; simpl; [|reflexivity].
      destruct (copyfile _ _ _ fs2) as [fs3|]; simpl; [|reflexivity].
      assert (is_err (foldM (convert_diff cwd song) ([], [], fs3)
                        (song_difficulties song)) = true) as Hf.
      { apply foldM_raises with diff; [exact Hin|]. intros st.
        apply convert_diff_raises. unfold is_err.
        destruct (is_ok (make_chart song diff)) eqn:Hm; [|reflexivity].
        apply make_chart_range in Hm. lia. }
      destruct (foldM _ _ _); [discriminate Hf | reflexivity].
    + split.
      * intros Hb.
        assert (make_chart song diff = Err IndexError) as Hm.
        { unfold make_chart.
          rewrite (proj2 (float_of_ok _ _) (conj Hb eq_refl)). simpl.
          rewrite py_index_out_of_range; [reflexivity|]. simpl. lia. }
        split; [exact Hm|]. intros charts bgs fs0 fs1 Hcp.
        unfold convert_diff. rewrite Hcp. simpl. rewrite Hm. reflexivity.
      * intros Hb. unfold make_chart.
        rewrite (float_of_raises _ Hb). reflexivity.
  - intros song diff Hrc. split.
    + intros Hb Hr. unfold make_chart.
      rewrite (proj2 (float_of_ok _ _) (conj Hb eq_refl)),
        (proj2 (float_of_ok _ _) (conj Hr eq_refl)).
      apply rating_class_cases in Hrc.
      repeat destruct Hrc as [Hc | Hrc]; try rename Hrc into Hc;
        rewrite Hc; simpl; eexists; eexists;
        (split; [reflexivity|]); simpl;
        (split; [reflexivity|]); (split; [reflexivity|]);
        (split; [reflexivity|]);
        intros H0 H1;
        apply Z.eqb_neq in H0; apply Z.eqb_neq in H1;
        rewrite H0, H1; reflexivity.
    + intros Hno. unfold make_chart.
      destruct (converts_dec (song_bpm_base song)) as [Hb|Hb].
      * rewrite (proj2 (float_of_ok _ _) (conj Hb eq_refl)).
        assert (~ converts (rating diff)) as Hr by tauto.
        rewrite (float_of_raises _ Hr).
        apply rating_class_cases in Hrc.
        repeat destruct Hrc as [-> | Hrc]; try rewrite Hrc; reflexivity.
      * rewrite (float_of_raises _ Hb). reflexivity.
Qed.

(** *** Backgrounds *)

Lemma default_background_name song diff :
  song_bg song = "" ->
  name (background_path song diff)
  = (if ratingClass diff =? 3 then "byd_" else "base_")
      +:+ (if song_side song =? 0 then "light" else "conflict") +:+ ".jpg".
Proof.
  intros Hbg. unfold background_path. rewrite Hbg. simpl.
  destruct (ratingClass diff =? 3), (song_side song =? 0); reflexivity.
Qed.

Lemma copyfile_grows src dst fs fs' :
  copyfile cwd src dst fs = Ok fs' -> grows fs fs'.
Proof. apply copyfile_at_grows. Qed.

Lemma copyfile_exists src dst fs fs' :
  copyfile cwd src dst fs = Ok fs' -> path_exists cwd dst fs' = true.
Proof.
  intros H. apply is_file_exists. eapply copyfile_at_is_file. exact H.
Qed.

Lemma convert_diff_grows song st diff st' :
  convert_diff cwd song st diff = Ok st' -> grows (snd st) (snd st').
Proof.
  destruct st as [[charts bgs] fs], st' as [[charts' bgs'] fs']. intros H.
  apply convert_diff_ok in H.
  destruct H as (chart & fs1 & Hc & _ & _ & [(_ & _ & ->)|(_ & Hb & _)]);
    simpl.
  - eapply copyfile_grows; eauto.
  - eapply grows_trans; eapply copyfile_grows; eauto.
Qed.

(** What the difficulty loop keeps true of [background_paths]. *)
Lemma convert_diffs_backgrounds song diffs : forall st st',
  foldM (convert_diff cwd song) st diffs = Ok st' ->
  let copied (st : list Chart * list Path * filesys) :=
    NoDup (map name (snd (fst st))) /\
    Forall (fun bg => path_exists cwd (song_root_path song </> name bg)
                        (snd st) = true)
      (snd (fst st)) in
  copied st -> copied st'.
Proof.
  intros st st' H copied Hst.
  apply (foldM_invariant copied (convert_diff cwd song) diffs)
    with (s := st); [| exact Hst | exact H].
  clear. subst copied.
  intros [[charts bgs] fs] diff [[charts' bgs'] fs'] _ [Hnd Hex] Hstep.
  pose proof (convert_diff_grows _ _ _ _ Hstep) as Hg. simpl in Hg.
  apply convert_diff_ok in Hstep.
  destruct Hstep as (chart & fs1 & Hc & _ & _ & Hbg). simpl in *.
  assert (Forall (fun bg => path_exists cwd (song_root_path song </> name bg)
                              fs1 = true) bgs) as Hex1.
  { eapply Forall_impl; [exact Hex|]. intros bg Hb.
    eapply exists_at_grows; [eapply copyfile_grows; exact Hc | exact Hb]. }
  destruct Hbg as [(_ & -> & ->)|(Hno & Hcopy & ->)]; split; simpl.
  - exact Hnd.
  - exact Hex1.
  - rewrite map_app. simpl. apply NoDup_app. split; [exact Hnd|]. split.
    + intros nm Hin Hin'. apply list_elem_of_singleton in Hin'. subst nm.
      apply list_elem_of_fmap in Hin. destruct Hin as (bg & Heq & Hin).
      rewrite Forall_forall in Hex1. specialize (Hex1 bg Hin).
      rewrite <- Heq in Hex1. congruence.
    + apply NoDup_singleton.
  - apply Forall_app. split.
    + eapply Forall_impl; [exact Hex1|]. intros bg Hb.
      eapply exists_at_grows; [eapply copyfile_grows; exact Hcopy | exact Hb].
    + constructor; [|constructor]. eapply copyfile_exists; eauto.
Qed.

Lemma convert_diffs_grows song diffs st st' :
  foldM (convert_diff cwd song) st diffs = Ok st' -> grows (snd st) (snd st').
Proof.
  intros H.
  apply (foldM_invariant (fun s => grows (snd st) (snd s))
           (convert_diff cwd song) diffs) with (s := st);
    [| apply grows_refl | exact H].
  intros s diff s' _ Hs Hstep.
  eapply grows_trans; [exact Hs | eapply convert_diff_grows; eauto].
Qed.

Lemma convert_diff_background_exists song st diff st' :
  convert_diff cwd song st diff = Ok st' ->
  path_exists cwd (song_root_path song </> name (background_path song diff))
    (snd st') = true.
Proof.
  destruct st as [[charts bgs] fs], st' as [[charts' bgs'] fs']. intros H.
  apply convert_diff_ok in H.
  destruct H as (chart & fs1 & _ & _ & _ & [(He & _ & ->)|(_ & Hb & _)]);
    simpl in *.
  - exact He.
  - eapply copyfile_exists; eauto.
Qed.

Lemma convert_diffs_backgrounds_exist song diffs : forall st st',
  foldM (convert_diff cwd song) st diffs = Ok st' ->
  Forall (fun diff =>
            path_exists cwd
              (song_root_path song </> name (background_path song diff))
              (snd st') = true) diffs.
Proof.
  induction diffs as [|diff diffs IH]; intros st st' H; simpl in H.
  - constructor.
  - ok_inv H. constructor; [|eapply IH; eauto].
    eapply exists_at_grows; [eapply convert_diffs_grows; exact H|].
    eapply convert_diff_background_exists; eauto.
Qed.

(** C8.  The background of a difficulty is [<bg>.jpg] under the background
    root when the song names a background, the same for every difficulty;
    otherwise its name is [byd_] for rating class 3 and [base_] for any
    other, followed by [light] for side 0 and [conflict] for any other
    side, and [.jpg].  One step of the difficulty loop copies the
    background only when no file of its name is in the working directory
    yet, and so the backgrounds a song had copied have pairwise different
    names; every chart records the name of its background, copied or
    not. *)
Theorem background_selection :
  (forall song diff,
     (song_bg song <> "" ->
      background_path song diff
        = background_root_path </> (song_bg song +:+ ".jpg")) /\
     (song_bg song = "" ->
      name (background_path song diff)
        = (if ratingClass diff =? 3 then "byd_" else "base_")
            +:+ (if song_side song =? 0 then "light" else "conflict")
            +:+ ".jpg")) /\
  (forall song charts bgs fs diff charts' bgs' fs',
     convert_diff cwd song (charts, bgs, fs) diff = Ok (charts', bgs', fs') ->
     exists fs1,
       copyfile cwd (chart_path song diff)
         (song_root_path song </> name (chart_path song diff)) fs = Ok fs1 /\
       let target := song_root_path song </> name (background_path song diff) in
       (path_exists cwd target fs1 = true -> bgs' = bgs /\ fs' = fs1) /\
       (path_exists cwd target fs1 = false ->
        bgs' = bgs ++ [background_path song diff] /\
        copyfile cwd (background_path song diff) target fs1 = Ok fs')) /\
  (forall i song fs lv fs',
     convert_song cwd i song fs = Ok (lv, fs') ->
     Forall2 (fun diff chart =>
                BackgroundPath chart = name (background_path song diff) /\
                path_exists cwd
                  (song_root_path song </> BackgroundPath chart) fs' = true)
       (song_difficulties song) (level_Charts lv) /\
     exists bgs,
       level_FileReferences lv
         = ["base.ogg"; "base.jpg"] ++ map name bgs
             ++ map ChartPath (level_Charts lv) /\
       NoDup (map name bgs)).
Proof.
  split; [|split].
  - intros song diff. split.
    + intros Hbg. unfold background_path.
      destruct (String.eqb_spec (song_bg song) ""); [contradiction|].
      reflexivity.
    + apply default_background_name.
  - intros song charts bgs fs diff charts' bgs' fs' H.
    apply convert_diff_ok in H.
    destruct H as (chart & fs1 & Hc & _ & _ & Hbg). exists fs1.
    split; [exact Hc|]. simpl in *.
    destruct Hbg as [(He & -> & ->)|(He & Hcopy & ->)]; split; intros He';
      try congruence; auto.
  - intros i song fs lv fs' H. pose proof (convert_song_charts _ _ _ _ _ H) as HF.
    apply convert_song_ok in H.
    destruct H as (fs0 & charts & bgs & lc & Hrun & _ & _ & _ & Hcs & _ & Hrefs).
    split.
    + apply convert_diffs_backgrounds_exist in Hrun as Hex. simpl in Hex.
      rewrite Hcs in HF |- *. clear Hrun Hrefs Hcs. revert Hex.
      induction HF as [|diff chart diffs cs Hc _ IH]; intros Hex;
        constructor.
      * apply make_chart_ok in Hc.
        destruct Hc as (? & ? & _ & _ & _ & _ & _ & Hb). rewrite Hb.
        inversion Hex; subst. auto.
      * apply IH. inversion Hex; subst. assumption.
    + exists bgs. rewrite Hcs. split; [exact Hrefs|].
      apply (convert_diffs_backgrounds _ _ _ _ Hrun). simpl.
      split; constructor.
Qed.

End Songs.

(** ** Identifiers of levels and packs *)

Section Ids.

Variable cwd : loc.
Variable clock : nat -> Z.

Lemma song_step_ok st song st' :
  song_step cwd st song = Ok st' ->
  exists lv,
    level_id lv = sl_i st /\
    level_Identifier lv = new_id song /\
    sl_i st' = sl_i st + 1 /\
    converted_songs st' = converted_songs st ++ [lv] /\
    level_identifiers st'
    = <[song_set song :=
          default [] (level_identifiers st !! song_set song) ++ [new_id song]]>
        (level_identifiers st).
Proof.
  unfold song_step. intros H. ok_inv H. destruct a as [lv fs'].
  injection H as <-. simpl. exists lv.
  apply convert_song_ok in Ha.
  destruct Ha as (? & ? & ? & ? & _ & _ & Hid & Hident & _). auto.
Qed.

Lemma song_loop_ids songs : forall st st',
  foldM (song_step cwd) st songs = Ok st' ->
  sl_i st' = sl_i st + Z.of_nat (length songs) /\
  map level_id (converted_songs st')
  = map level_id (converted_songs st)
      ++ seqZ (sl_i st) (Z.of_nat (length songs)) /\
  map level_Identifier (converted_songs st')
  = map level_Identifier (converted_songs st) ++ map new_id songs.
Proof.
  induction songs as [|song songs IH]; intros st st' H; simpl in H.
  - injection H as <-. simpl. rewrite !app_nil_r. split; [lia | auto].
  - ok_inv H. apply song_step_ok in Ha.
    destruct Ha as (lv & Hid & Hident & Hi & Hcs & _).
    destruct (IH _ _ H) as (Hi' & Hids & Hidents).
    rewrite Hi', Hids, Hidents, Hi, Hcs, !map_app. cbn [map length].
    rewrite Hid, Hident, <- !app_assoc. cbn [app].
    split; [lia|]. split; [|reflexivity].
    f_equal. rewrite (seqZ_cons (sl_i st)) by lia. f_equal. f_equal; lia.
Qed.

Lemma pack_step_ok ids st pack st' :
  pack_step cwd clock ids st pack = Ok st' ->
  exists cp,
    cpack_id cp = pl_i st /\
    dict_get ids (pack_id pack) = Ok (cpack_LevelIdentifiers cp) /\
    cpack_Identifier cp = pack_new_id pack /\
    pl_i st' = pl_i st + 1 /\
    converted_packs st' = converted_packs st ++ [cp].
Proof.
  unfold pack_step. intros H. ok_inv H. destruct a as [cp fs'].
  injection H as <-. unfold convert_pack in Ha.
  ok_inv Ha. ok_inv Ha. destruct a0 as [cover fs1]. ok_inv Ha.
  injection Ha as <- <-. simpl. eexists. repeat split; simpl; auto.
Qed.

Lemma pack_loop_ids ids packs : forall st st',
  foldM (pack_step cwd clock ids) st packs = Ok st' ->
  pl_i st' = pl_i st + Z.of_nat (length packs) /\
  map cpack_id (converted_packs st')
  = map cpack_id (converted_packs st)
      ++ seqZ (pl_i st) (Z.of_nat (length packs)).
Proof.
  induction packs as [|pack packs IH]; intros st st' H; simpl in H.
  - injection H as <-. simpl. rewrite !app_nil_r. split; [lia | auto].
  - ok_inv H. apply pack_step_ok in Ha.
    destruct Ha as (cp & Hid & _ & _ & Hi & Hcs).
    destruct (IH _ _ H) as (Hi' & Hids).
    rewrite Hi', Hids, Hi, Hcs, !map_app. cbn [map length].
    rewrite Hid, <- !app_assoc. cbn [app].
    split; [lia|].
    f_equal. rewrite (seqZ_cons (pl_i st)) by lia. f_equal. f_equal; lia.
Qed.

(** C4.  The song loop gives the Level records the ids [level_count + 1],
    [level_count + 2], ... in the order of the song list, one record per
    song, and the pack loop gives the Pack records the ids [pack_count + 1],
    [pack_count + 2], ... in the order of the pack list; the counts are
    arguments of the loops, read before them.  So the Level ids of a run
    are pairwise distinct, and so are its Pack ids. *)
Theorem ids_count_up :
  (forall level_count songs fs sl,
     convert_songs cwd level_count songs fs = Ok sl ->
     map level_id (converted_songs sl)
       = seqZ (level_count + 1) (Z.of_nat (length songs)) /\
     NoDup (map level_id (converted_songs sl))) /\
  (forall ids pack_count packs fs pl,
     convert_packs cwd clock ids pack_count packs fs = Ok pl ->
     map cpack_id (converted_packs pl)
       = seqZ (pack_count + 1) (Z.of_nat (length packs)) /\
     NoDup (map cpack_id (converted_packs pl))).
Proof.
  split.
  - intros level_count songs fs sl H. apply song_loop_ids in H.
    destruct H as (_ & H & _). simpl in H. rewrite H.
    split; [reflexivity | apply NoDup_seqZ].
  - intros ids pack_count packs fs pl H. apply pack_loop_ids in H.
    destruct H as (_ & H). simpl in H. rewrite H.
    split; [reflexivity | apply NoDup_seqZ].
Qed.

Lemma song_loop_level_identifiers songs : forall st st',
  foldM (song_step cwd) st songs = Ok st' ->
  forall k,
    level_identifiers st' !! k
    = match levels_of_set songs k with
      | [] => level_identifiers st !! k
      | ids => Some (default [] (level_identifiers st !! k) ++ ids)
      end.
Proof.
  induction songs as [|song songs IH]; intros st st' H k; simpl in H.
  - injection H as <-. reflexivity.
  - ok_inv H. apply song_step_ok in Ha.
    destruct Ha as (lv & _ & _ & _ & _ & Hm).
    rewrite (IH _ _ H k), Hm. unfold levels_of_set. simpl.
    destruct (String.eqb_spec (song_set song) k) as [->|Hne]; simpl.
    + rewrite lookup_insert_eq. simpl.
      destruct (map new_id _) as [|x xs]; [reflexivity|].
      rewrite <- app_assoc. reflexivity.
    + rewrite lookup_insert_ne by exact Hne. reflexivity.
Qed.

Lemma convert_songs_level_identifiers level_count songs fs sl k :
  convert_songs cwd level_count songs fs = Ok sl ->
  level_identifiers sl !! k
  = match levels_of_set songs k with
    | [] => None
    | ids => Some ids
    end.
Proof.
  intros H. unfold convert_songs in H.
  rewrite (song_loop_level_identifiers _ _ _ H k). simpl.
  rewrite lookup_empty. reflexivity.
Qed.

Lemma pack_step_raises ids pack :
  ids !! pack_id pack = None ->
  forall st, is_err (pack_step cwd clock ids st pack) = true.
Proof.
  intros Hk st. unfold pack_step, convert_pack.
  destruct (mkdir _ _ _) as [fs1|]; simpl; [|reflexivity].
  destruct (String.eqb (pack_new_id pack) "single"); simpl.
  - unfold dict_get. rewrite Hk. reflexivity.
  - destruct (copyfile _ _ _ fs1) as [fs2|]; simpl; [|reflexivity].
    unfold dict_get. rewrite Hk. reflexivity.
Qed.

(** C5.  The [LevelIdentifiers] of every Pack record are the
    ["<set>.<id>"] strings of the songs whose [set] is the pack's own
    [id], in the order of the song list; the lookup uses [pack['id']] also
    when the pack has a parent.  When no song has a pack's [id] as its
    [set], the pack loop raises. *)
Theorem pack_level_identifiers level_count pack_count songs packs fs fs2 sl :
  convert_songs cwd level_count songs fs = Ok sl ->
  (forall pl,
     convert_packs cwd clock (level_identifiers sl) pack_count packs fs2
       = Ok pl ->
     Forall2 (fun pack cp =>
                cpack_LevelIdentifiers cp
                  = levels_of_set songs (pack_id pack) /\
                cpack_LevelIdentifiers cp <> [])
       packs (converted_packs pl)) /\
  (forall pack,
     In pack packs ->
     levels_of_set songs (pack_id pack) = [] ->
     is_err (convert_packs cwd clock (level_identifiers sl) pack_count
               packs fs2) = true).
Proof.
  intros Hs. split.
  - intros pl Hp. unfold convert_packs in Hp.
    apply (foldM_snoc_Forall2
             (fun pack cp =>
                cpack_LevelIdentifiers cp
                  = levels_of_set songs (pack_id pack) /\
                cpack_LevelIdentifiers cp <> [])
             converted_packs) in Hp.
    + destruct Hp as (cps & -> & HF). exact HF.
    + intros st pack st' Hstep. apply pack_step_ok in Hstep.
      destruct Hstep as (cp & _ & Hget & _ & _ & Hcs).
      exists cp. split; [exact Hcs|].
      unfold dict_get in Hget.
      rewrite (convert_songs_level_identifiers _ _ _ _ _ Hs) in Hget.
      destruct (levels_of_set songs (pack_id pack)) as [|x xs];
        [discriminate|].
      injection Hget as <-. split; [reflexivity | discriminate].
  - intros pack Hin Hnone. unfold convert_packs.
    apply foldM_raises with pack; [exact Hin|].
    apply pack_step_raises.
    rewrite (convert_songs_level_identifiers _ _ _ _ _ Hs), Hnone.
    reflexivity.
Qed.

End Ids.

(** ** Extraction *)


Lemma evolves_grows fs ws fs' : evolves fs ws fs' -> grows fs fs'.
Proof.
  induction 1 as [fs | fs l fs1 ws fs' Hm _ IH | fs l d fs1 ws fs' Hw _ IH].
  - apply grows_refl.
  - eapply grows_trans; [eapply mkdir_at_grows; eauto | exact IH].
  - eapply grows_trans; [eapply write_at_grows; eauto | exact IH].
Qed.






(** *** [pack_list.sort()] *)

Lemma insert_sorted_perm p l : Permutation (insert_sorted p l) (p :: l).
Proof.
  induction l as [|q l IH]; simpl; [reflexivity|].
  destruct (packs_leb p q); [reflexivity|].
  rewrite IH. apply perm_swap.
Qed.

Lemma sort_packs_perm l : Permutation (sort_packs l) l.
Proof.
  induction l as [|p l IH]; simpl; [reflexivity|].
  rewrite insert_sorted_perm. now constructor.
Qed.

Lemma insert_sorted_sorted p l :
  Sorted names_ascend l -> Sorted names_ascend (insert_sorted p l).
Proof.
  induction l as [|q l IH]; intros Hs; simpl.
  - repeat constructor.
  - destruct (packs_leb p q) eqn:E.
    + constructor; [exact Hs|]. constructor. exact E.
    + inversion Hs as [|? ? Hs' Hhd]; subst.
      constructor; [apply IH; exact Hs'|].
      assert (names_ascend q p) as Hqp.
      { unfold names_ascend. unfold packs_leb in E.
        destruct (String.leb_total (pack_name p) (pack_name q)); congruence. }
      destruct l as [|r l]; simpl.
      * constructor. exact Hqp.
      * destruct (packs_leb p r); constructor; [exact Hqp|].
        inversion Hhd; assumption.
Qed.

Lemma sort_packs_sorted l : Sorted names_ascend (sort_packs l).
Proof.
  induction l as [|p l IH]; simpl; [constructor|].
  apply insert_sorted_sorted. exact IH.
Qed.




Section Extract.

Variable cwd : loc.
Variable max_offset : Z.
Variable max_length : Z.

Lemma seek_ok off u : seek max_offset off = Ok u -> 0 <= off <= max_offset.
Proof.
  unfold seek. destruct (Z.ltb_spec off 0); [discriminate|].
  destruct (Z.ltb_spec max_offset off); [discriminate|]. lia.
Qed.

Lemma read_ok data off len bytes :
  read max_length data off len = Ok bytes ->
  -1 <= len <= max_length /\
  bytes = entry_bytes data {| OriginalFilename := ""; Offset := off;
                              Length := len |}.
Proof.
  unfold read, entry_bytes. simpl.
  destruct (Z.ltb_spec len (-1)); [discriminate|].
  destruct (Z.ltb_spec max_length len); [discriminate|].
  destruct (len =? -1); intros [= <-]; split; auto; lia.
Qed.








End Extract.

(** ** The content store *)

Lemma last_app_nonempty {A} (l rel : list A) (d : A) :
  rel <> [] -> List.last (l ++ rel) d = List.last rel d.
Proof.
  intros Hr. induction l as [|x l IH]; simpl; [reflexivity|].
  destruct (l ++ rel) eqn:E; [|exact IH].
  apply app_eq_nil in E. destruct E as [_ E]. contradiction.
Qed.

Section Store.

Variable cwd : loc.

Lemma locate_storage (n : string) :
  no_slash n = true -> n <> "" -> n <> "." ->
  locate cwd (storage_root_path </> n) = store_loc cwd n /\
  name (storage_root_path </> n) = n.
Proof.
  intros Hs He Hd. split; [|apply name_joinpath; assumption].
  rewrite joinpath_name by assumption. reflexivity.
Qed.

Lemma locate_glob_file type_name rel :
  is_type_name type_name ->
  locate cwd (glob_file type_name rel) = cwd ++ ["final"; type_name] ++ rel.
Proof. intros [-> | ->]; reflexivity. Qed.

Lemma name_glob_file type_name rel :
  is_type_name type_name -> rel_named rel = true ->
  no_slash (name (glob_file type_name rel)) = true.
Proof.
  intros Ht Hr. unfold name.
  assert (parts (glob_file type_name rel) = ["final"; type_name] ++ rel) as ->.
  { destruct Ht as [-> | ->]; reflexivity. }
  destruct rel as [|c rel].
  - destruct Ht as [-> | ->]; reflexivity.
  - rewrite last_app_nonempty by discriminate. exact Hr.
Qed.

Lemma store_loc_inj n n' : store_loc cwd n = store_loc cwd n' -> n = n'.
Proof.
  unfold store_loc. intros H. apply app_inv_head in H. congruence.
Qed.

Lemma store_loc_not_under type_name n :
  is_type_name type_name ->
  ~ under (cwd ++ ["final"; type_name]) (store_loc cwd n).
Proof.
  unfold under, store_loc. intros Ht H. apply prefix_app_inv in H.
  destruct H as [k H]. simpl in H. destruct Ht as [-> | ->]; discriminate.
Qed.

Lemma store_loc_not_glob type_name rel n :
  is_type_name type_name ->
  store_loc cwd n <> cwd ++ ["final"; type_name] ++ rel.
Proof.
  unfold store_loc. intros Ht H. apply app_inv_head in H.
  destruct Ht as [-> | ->]; discriminate.
Qed.

(** One round of the glob loop. *)
Lemma move_file_ok type_name rel cf fs cf' fs' :
  is_type_name type_name -> rel_named rel = true ->
  move_file cwd type_name (cf, fs) rel = Ok (cf', fs') ->
  let file := glob_file type_name rel in
  let src := cwd ++ ["final"; type_name] ++ rel in
  (is_file cwd file fs = false /\ cf' = cf /\ fs' = fs) \/
  exists data,
    read_at fs src = Ok data /\
    let n := stored_name (name file) data in
    no_slash (name file) = true /\
    cf' = cf ++ [{| file_id := as_posix (relative_to file final_path);
                    RealPath := n; CorrectHashPath := n |}] /\
    ((exists_at fs (store_loc cwd n) = true /\ fs' = fs) \/
     (exists_at fs (store_loc cwd n) = false /\
      rename_at fs src (store_loc cwd n) = Ok fs')).
Proof.
  intros Ht Hr H. simpl. unfold move_file in H.
  pose proof (name_glob_file _ _ Ht Hr) as Hnm.
  destruct (is_file cwd (glob_file type_name rel) fs) eqn:Hf.
  - right. rewrite (locate_glob_file _ _ Ht) in H. ok_inv H. exists a.
    split; [exact Ha|]. simpl.
    destruct (stored_name_is_name _ a Hnm) as (Hs & He & Hd).
    destruct (locate_storage _ Hs He Hd) as [Hloc Hname].
    unfold path_exists in H. rewrite Hloc, Hname in H.
    split; [exact Hnm|].
    destruct (exists_at fs (store_loc cwd _)) eqn:Hex; simpl in H.
    + injection H as <- <-. split; [reflexivity|]. left. auto.
    + ok_inv H. injection H as <- <-. split; [reflexivity|]. right. auto.
  - left. injection H as <- <-. auto.
Qed.

(** What one round does to the store. *)
Lemma move_file_store type_name rel cf fs cf' fs' :
  is_type_name type_name -> rel_named rel = true ->
  move_file cwd type_name (cf, fs) rel = Ok (cf', fs') ->
  (forall n data, in_store cwd fs n data -> in_store cwd fs' n data) /\
  (forall n data, in_store cwd fs' n data ->
     in_store cwd fs n data \/ exists nm, n = stored_name nm data) /\
  (forall n, exists_at fs (store_loc cwd n) = true ->
     exists_at fs' (store_loc cwd n) = true) /\
  (cf' = cf \/
   exists nm data,
     no_slash nm = true /\
     exists_at fs' (store_loc cwd (stored_name nm data)) = true /\
     exists f, cf' = cf ++ [f] /\ RealPath f = stored_name nm data).
Proof.
  intros Ht Hr H. apply move_file_ok in H; [|assumption..]. simpl in H.
  destruct H as [(_ & -> & ->)|(data & Hread & Hnm & -> & Hmove)];
    [repeat split; auto|].
  set (n0 := stored_name (name (glob_file type_name rel)) data) in *.
  destruct Hmove as [(Hex & ->)|(Hex & Hren)].
  - repeat split; auto. right. exists (name (glob_file type_name rel)), data. eauto 6.
  - assert (forall n, store_loc cwd n <> cwd ++ ["final"; type_name] ++ rel)
      as Hsrc by (intros n; apply store_loc_not_glob; exact Ht).
    pose proof (rename_at_target _ _ _ _ Hren)
      as (data' & Hread' & Hread2 & Hdst & _).
    assert (data' = data) as -> by congruence.
    split; [|split; [|split]].
    + intros n d Hn. unfold in_store in *.
      destruct (decide (store_loc cwd n = store_loc cwd n0)) as [E|E].
      * exfalso. rewrite E in Hn.
        apply rename_at_ok in Hren.
        destruct Hren as (? & _ & _ & Hw & _ & _).
        assert (exists_at fs (store_loc cwd n0) = true) as Hex'.
        { apply exists_at_ok. split; [exact Hw|].
          unfold store_loc in *. destruct cwd; simpl in *; rewrite Hn; eauto. }
        congruence.
      * rewrite (rename_at_lookup _ _ _ _ _ Hren); [exact Hn | apply Hsrc | exact E].
    + intros n d Hn. unfold in_store in *.
      destruct (decide (store_loc cwd n = store_loc cwd n0)) as [E|E].
      * right. apply store_loc_inj in E. subst n. rewrite Hdst in Hn.
        injection Hn as <-. eauto.
      * left. rewrite (rename_at_lookup _ _ _ _ _ Hren) in Hn;
          [exact Hn | apply Hsrc | exact E].
    + intros n Hn. eapply rename_at_exists; eauto.
    + right. exists (name (glob_file type_name rel)), data.
      split; [exact Hnm|]. split; [|eauto].
      apply exists_at_ok. apply read_at_ok in Hread2.
      destruct Hread2 as [Hw Hnode]. split; [exact Hw|].
      eexists; exact Hnode.
Qed.

Lemma move_loop_store type_name rels :
  is_type_name type_name ->
  Forall (fun rel => rel_named rel = true) rels ->
  forall cf fs cf' fs',
    foldM (move_file cwd type_name) (cf, fs) rels = Ok (cf', fs') ->
    (forall n data, in_store cwd fs n data -> in_store cwd fs' n data) /\
    (forall n data, in_store cwd fs' n data ->
       in_store cwd fs n data \/ exists nm, n = stored_name nm data) /\
    (forall n, exists_at fs (store_loc cwd n) = true ->
       exists_at fs' (store_loc cwd n) = true) /\
    exists new, cf' = cf ++ new /\ Forall (recorded cwd fs') new.
Proof.
  intros Ht. induction 1 as [|rel rels Hrel _ IH]; intros cf fs cf' fs' H;
    simpl in H.
  - injection H as <- <-. repeat split; auto.
    exists []. rewrite app_nil_r. split; [reflexivity | constructor].
  - ok_inv H. destruct a as [cf1 fs1].
    apply move_file_store in Ha; [|assumption..].
    destruct Ha as (Ha & Hb & Hc & Hd).
    destruct (IH _ _ _ _ H) as (Ha' & Hb' & Hc' & new & -> & Hnew).
    split; [auto|]. split; [|split; [auto|]].
    + intros n d Hn. destruct (Hb' _ _ Hn) as [Hn1|Hn1]; [|auto]. auto.
    + destruct Hd as [->|(nm & data & Hnm & Hex & f & -> & Hf)].
      * eauto.
      * exists (f :: new). rewrite <- app_assoc. split; [reflexivity|].
        constructor; [|exact Hnew]. split.
        -- rewrite Hf. apply Hc'. exact Hex.
        -- eauto.
Qed.

Lemma locate_type_dir type_name :
  is_type_name type_name ->
  locate cwd (final_path </> type_name) = cwd ++ ["final"; type_name].
Proof. intros [-> | ->]; reflexivity. Qed.

Lemma move_tree_store type_name rels cf fs cf' fs' :
  is_type_name type_name ->
  Forall (fun rel => rel_named rel = true) rels ->
  move_tree cwd type_name rels (cf, fs) = Ok (cf', fs') ->
  (forall n data, in_store cwd fs n data -> in_store cwd fs' n data) /\
  (forall n data, in_store cwd fs' n data ->
     in_store cwd fs n data \/ exists nm, n = stored_name nm data) /\
  (forall n, exists_at fs (store_loc cwd n) = true ->
     exists_at fs' (store_loc cwd n) = true) /\
  exists new, cf' = cf ++ new /\ Forall (recorded cwd fs') new.
Proof.
  intros Ht Hrels H. unfold move_tree in H. ok_inv H.
  destruct a as [cf1 fs1]. ok_inv H. injection H as <- <-.
  rewrite (locate_type_dir _ Ht) in Ha0.
  apply (move_loop_store _ _ Ht Hrels) in Ha.
  destruct Ha as (Ha & Hb & Hc & new & -> & Hnew).
  pose proof (fun n => store_loc_not_under type_name n Ht) as Hnu.
  split; [|split; [|split]].
  - intros n d Hn. unfold in_store.
    rewrite (rmtree_at_lookup _ _ _ _ Ha0 (Hnu n)). apply Ha. exact Hn.
  - intros n d Hn. apply Hb. unfold in_store in *.
    eapply rmtree_at_lookup_Some; eauto.
  - intros n Hn. eapply rmtree_at_exists; eauto.
  - exists new. split; [reflexivity|].
    eapply Forall_impl; [exact Hnew|]. intros f [Hex Hnm]. split; [|exact Hnm].
    eapply rmtree_at_exists; eauto.
Qed.

Lemma content_addressed_step fs fs' :
  (forall n data, in_store cwd fs' n data ->
     in_store cwd fs n data \/ exists nm, n = stored_name nm data) ->
  content_addressed cwd fs -> content_addressed cwd fs'.
Proof.
  intros Hb Hca n d Hn. destruct (Hb _ _ Hn) as [Hn'|Hn']; auto.
Qed.

Lemma glob_file_inj type_name rel rel' :
  cwd ++ ["final"; type_name] ++ rel = cwd ++ ["final"; type_name] ++ rel' ->
  rel = rel'.
Proof.
  intros H. apply app_inv_head in H. simpl in H. congruence.
Qed.

(** The round of a regular file whose stored name is free. *)
Lemma move_file_moves type_name rel cf fs data :
  is_type_name type_name -> rel_named rel = true ->
  let file := glob_file type_name rel in
  let n := stored_name (name file) data in
  read_at fs (locate cwd file) = Ok data ->
  path_exists cwd (storage_root_path </> n) fs = false ->
  stat fs (locate cwd storage_root_path) = Ok Dir ->
  exists f fs',
    move_file cwd type_name (cf, fs) rel = Ok (cf ++ [f], fs') /\
    RealPath f = n /\
    rename_at fs (locate cwd file) (store_loc cwd n) = Ok fs'.
Proof.
  intros Ht Hr file n Hread Hfree Hdir.
  pose proof (name_glob_file _ _ Ht Hr) as Hnm.
  destruct (stored_name_is_name _ data Hnm) as (Hs & He & Hd).
  destruct (locate_storage _ Hs He Hd) as [Hloc Hname].
  fold file in Hloc, Hname. fold n in Hloc, Hname.
  assert (exists fs', rename_at fs (locate cwd file) (store_loc cwd n)
                      = Ok fs') as [fs' Hren].
  { unfold rename_at. apply read_at_ok in Hread as Hread'.
    assert (stat fs (locate cwd file) = Ok (File data)) as ->
      by (apply stat_ok; exact Hread').
    simpl. apply stat_ok in Hdir. destruct Hdir as [Hw Hn].
    assert (walk fs [] (store_loc cwd n) = Ok tt) as Hw'.
    { change (store_loc cwd n)
        with (cwd ++ ["final"; "storage"; n]).
      replace (cwd ++ ["final"; "storage"; n])
        with ((cwd ++ ["final"; "storage"]) ++ [n])
        by (rewrite <- app_assoc; reflexivity).
      apply walk_into_dir; [exact Hw | exact Hn]. }
    rewrite Hw'. simpl.
    unfold path_exists in Hfree. rewrite Hloc in Hfree.
    destruct (node_at fs (store_loc cwd n)) as [nd|] eqn:E; [|eauto].
    exfalso. assert (exists_at fs (store_loc cwd n) = true) as Hex.
    { apply exists_at_ok. split; [exact Hw' | eauto]. }
    congruence. }
  unfold move_file. fold file.
  unfold is_file. rewrite (read_at_is_file _ _ _ Hread).
  rewrite Hread. simpl. fold n. rewrite Hfree, Hloc, Hren. simpl.
  eexists. exists fs'. split; [reflexivity|]. split; [exact Hname|].
  reflexivity.
Qed.

(** Every regular file of the loop gets its record, and its stored name
    is a name of the store afterwards. *)
Lemma move_loop_stores type_name rels :
  is_type_name type_name ->
  Forall (fun rel => rel_named rel = true) rels ->
  forall cf fs cf' fs' rel data,
    foldM (move_file cwd type_name) (cf, fs) rels = Ok (cf', fs') ->
    In rel rels ->
    read_at fs (locate cwd (glob_file type_name rel)) = Ok data ->
    let n := stored_name (name (glob_file type_name rel)) data in
    exists_at fs' (store_loc cwd n) = true /\
    exists f, In f cf' /\ RealPath f = n.
Proof.
  intros Ht. induction 1 as [|r0 rels Hr0 Hrels IH];
    intros cf fs cf' fs' rel data H Hin Hread; simpl in H; [destruct Hin|].
  apply rbind_ok in H. destruct H as ([cf1 fs1] & Hstep & H).
  rewrite (locate_glob_file _ _ Ht) in Hread.
  destruct (decide (rel = r0)) as [->|Hne].
  - pose proof (move_loop_store _ _ Ht Hrels _ _ _ _ H)
      as (_ & _ & Hkeep & new & -> & _).
    apply move_file_ok in Hstep; [|assumption..]. simpl in Hstep.
    destruct Hstep as [(Hf & _ & _)|(d & Hd & _ & -> & Hmove)].
    { unfold is_file in Hf. rewrite (locate_glob_file _ _ Ht) in Hf.
      rewrite (read_at_is_file _ _ _ Hread) in Hf. discriminate. }
    assert (d = data) as -> by (simpl in Hread; congruence). simpl. split.
    + apply Hkeep. destruct Hmove as [(Hex & ->)|(_ & Hren)]; [exact Hex|].
      apply rename_at_target in Hren.
      destruct Hren as (d' & _ & Hrd & _ & _).
      apply exists_at_ok. apply read_at_ok in Hrd.
      destruct Hrd as [Hw Hn]. split; [exact Hw | eauto].
    + eexists. split.
      * apply in_or_app. left. apply in_or_app. right. left. reflexivity.
      * reflexivity.
  - destruct Hin as [->|Hin]; [contradiction|].
    apply (IH cf1 fs1 cf' fs' rel data H Hin).
    rewrite (locate_glob_file _ _ Ht).
    apply move_file_ok in Hstep; [|assumption..]. simpl in Hstep.
    destruct Hstep as [(_ & _ & ->)|(d & _ & _ & _ & [(_ & ->)|(_ & Hren)])];
      try exact Hread.
    apply (rename_at_read_other _ _ _ _ _ Hren); [| |exact Hread].
    + intros E. apply glob_file_inj in E. contradiction.
    + intros E. symmetry in E. revert E. apply store_loc_not_glob. exact Ht.
Qed.

(** It holds the bytes of the file when the name was free and no file of
    other bytes claims it. *)
Lemma move_loop_places type_name rels :
  is_type_name type_name ->
  Forall (fun rel => rel_named rel = true) rels ->
  forall cf fs cf' fs' rel data,
    foldM (move_file cwd type_name) (cf, fs) rels = Ok (cf', fs') ->
    In rel rels ->
    read_at fs (locate cwd (glob_file type_name rel)) = Ok data ->
    let n := stored_name (name (glob_file type_name rel)) data in
    exists_at fs (store_loc cwd n) = false ->
    (forall rel' data',
       In rel' rels ->
       read_at fs (locate cwd (glob_file type_name rel')) = Ok data' ->
       stored_name (name (glob_file type_name rel')) data' = n ->
       data' = data) ->
    in_store cwd fs' n data.
Proof.
  intros Ht. induction 1 as [|r0 rels Hr0 Hrels IH];
    intros cf fs cf' fs' rel data H Hin Hread n Hfree Hsame; simpl in H;
    [destruct Hin|].
  apply rbind_ok in H. destruct H as ([cf1 fs1] & Hstep & H).
  pose proof (move_loop_store _ _ Ht Hrels _ _ _ _ H) as (Hkeep & _).
  apply move_file_ok in Hstep as Hstep'; [|assumption..]. simpl in Hstep'.
  destruct Hstep' as [(Hf & _ & ->)|(d & Hd & _ & _ & Hmove)].
  - (* [r0] is no regular file *)
    destruct Hin as [<-|Hin].
    { unfold is_file in Hf.
      rewrite (read_at_is_file _ _ _ Hread) in Hf. discriminate. }
    apply (IH cf1 fs cf' fs' rel data H Hin Hread Hfree).
    intros rel' data' Hin'. apply Hsame. right. exact Hin'.
  - change (cwd ++ "final" :: type_name :: r0)
      with (cwd ++ ["final"; type_name] ++ r0) in Hd, Hmove.
    rewrite <- (locate_glob_file _ _ Ht) in Hd, Hmove.
    destruct (decide (stored_name (name (glob_file type_name r0)) d = n))
      as [En|En].
    + (* [r0] takes the name *)
      assert (d = data) as -> by (apply (Hsame r0); [left|..]; auto).
      apply Hkeep. rewrite En in Hmove.
      destruct Hmove as [(Hex & _)|(_ & Hren)]; [congruence|].
      apply rename_at_target in Hren.
      destruct Hren as (d' & Hrd & _ & Hl & _).
      assert (d' = data) as -> by congruence. exact Hl.
    + destruct Hin as [<-|Hin].
      { exfalso. apply En. assert (d = data) as -> by congruence.
        reflexivity. }
      destruct Hmove as [(_ & ->)|(_ & Hren)].
      { apply (IH cf1 fs cf' fs' rel data H Hin Hread Hfree).
        intros rel' data' Hin'. apply Hsame. right. exact Hin'. }
      assert (forall r d0,
                read_at fs1 (locate cwd (glob_file type_name r)) = Ok d0 ->
                read_at fs (locate cwd (glob_file type_name r)) = Ok d0)
        as Hback.
      { rewrite (locate_glob_file _ _ Ht) in Hren.
        intros r d0 Hr. rewrite (locate_glob_file _ _ Ht) in Hr |- *.
        destruct (decide (r = r0)) as [->|Hr0'].
        - exfalso. apply rename_at_ok in Hren.
          destruct Hren as (? & _ & Hsrc & _ & _ & ->).
          apply read_at_ok in Hr. destruct Hr as [_ Hr].
          apply node_at_file in Hr. destruct Hr as [_ Hr].
          rewrite lookup_insert_ne in Hr.
          + rewrite lookup_delete_eq in Hr. discriminate.
          + apply store_loc_not_glob. exact Ht.
        - apply (rename_at_read_other _ _ _ _ _ Hren); [| |exact Hr].
          + intros E. apply glob_file_inj in E. contradiction.
          + intros E. symmetry in E. revert E.
            apply store_loc_not_glob. exact Ht. }
      rewrite (locate_glob_file _ _ Ht) in Hren.
      apply (IH cf1 fs1 cf' fs' rel data H Hin).
      * rewrite (locate_glob_file _ _ Ht) in Hread |- *.
        apply (rename_at_read_other _ _ _ _ _ Hren); [| |exact Hread].
        -- intros E. apply glob_file_inj in E. subst rel.
           apply En. rewrite (locate_glob_file _ _ Ht) in Hd.
           assert (d = data) as -> by congruence. reflexivity.
        -- intros E. symmetry in E. revert E.
           apply store_loc_not_glob. exact Ht.
      * fold n. destruct (exists_at fs1 (store_loc cwd n)) eqn:Hex;
          [|reflexivity].
        apply (rename_at_exists_back _ _ _ _ _ Hren) in Hex; [congruence|].
        intros E. apply store_loc_inj in E. auto.
      * intros rel' data' Hin' Hr'. apply Hsame; [right; exact Hin'|].
        apply Hback. exact Hr'.
Qed.

(** C6, as the code has it.  The name a file gets in the store is the 40
    hexadecimal digits of the SHA-1 digest of its bytes followed by the
    suffix of its name: two files of the same bytes get the same stored
    name when their suffixes are the same, whatever they are called, and
    different stored names when their suffixes differ.  A round of the
    glob loop at a regular file adds its record; when the stored name is
    taken already it leaves the file system as it was, and when the name
    is free and the store is a directory it renames the file to that name
    of the store, which then holds its bytes.  After a round of the type
    loop every regular file the glob yielded has its record and its
    stored name is a name of the store, holding the bytes of the file when
    the name was free before the round and no file of the round with
    other bytes has the same stored name.  The round keeps every file the
    store had, and keeps the store content-addressed: then no two files
    of the store with the same suffix hold the same bytes. *)
Theorem content_store_law :
  (forall nm data,
     String.length (SHA1.hexdigest data) = 40%nat /\
     stored_name nm data = SHA1.hexdigest data +:+ suffix_of_name nm /\
     suffix_of_name (stored_name nm data) = suffix_of_name nm) /\
  (forall nm nm' data,
     (suffix_of_name nm = suffix_of_name nm' ->
      stored_name nm data = stored_name nm' data) /\
     (suffix_of_name nm <> suffix_of_name nm' ->
      stored_name nm data <> stored_name nm' data)) /\
  (forall type_name rel cf fs data,
     is_type_name type_name -> rel_named rel = true ->
     let file := glob_file type_name rel in
     let n := stored_name (name file) data in
     read_at fs (locate cwd file) = Ok data ->
     (path_exists cwd (storage_root_path </> n) fs = true ->
      exists f,
        move_file cwd type_name (cf, fs) rel = Ok (cf ++ [f], fs) /\
        RealPath f = n) /\
     (path_exists cwd (storage_root_path </> n) fs = false ->
      stat fs (locate cwd storage_root_path) = Ok Dir ->
      exists f fs',
        move_file cwd type_name (cf, fs) rel = Ok (cf ++ [f], fs') /\
        RealPath f = n /\
        in_store cwd fs' n data /\
        read_at fs' (locate cwd (storage_root_path </> n)) = Ok data /\
        fs' !! locate cwd file = None /\
        forall l,
          l <> locate cwd file -> l <> store_loc cwd n ->
          fs' !! l = fs !! l)) /\
  (forall type_name rels cf fs cf' fs',
     is_type_name type_name -> forallb rel_named rels = true ->
     move_tree cwd type_name rels (cf, fs) = Ok (cf', fs') ->
     (forall rel data,
        In rel rels ->
        read_at fs (locate cwd (glob_file type_name rel)) = Ok data ->
        let n := stored_name (name (glob_file type_name rel)) data in
        path_exists cwd (storage_root_path </> n) fs' = true /\
        (exists f, In f cf' /\ RealPath f = n) /\
        (path_exists cwd (storage_root_path </> n) fs = false ->
         (forall rel' data',
            In rel' rels ->
            read_at fs (locate cwd (glob_file type_name rel')) = Ok data' ->
            stored_name (name (glob_file type_name rel')) data' = n ->
            data' = data) ->
         in_store cwd fs' n data)) /\
     (forall n data, in_store cwd fs n data -> in_store cwd fs' n data) /\
     (content_addressed cwd fs ->
      content_addressed cwd fs' /\
      forall n1 n2 data,
        in_store cwd fs' n1 data -> in_store cwd fs' n2 data ->
        suffix_of_name n1 = suffix_of_name n2 -> n1 = n2)).
Proof.
  split; [|split; [|split]].
  - intros nm data. split; [apply hexdigest_spec|].
    split; [reflexivity | apply stored_name_suffix].
  - intros nm nm' data. split.
    + intros H. unfold stored_name. rewrite H. reflexivity.
    + intros H E. apply H.
      rewrite <- (stored_name_suffix nm data), E. apply stored_name_suffix.
  - intros type_name rel cf fs data Ht Hr file n Hread.
    pose proof (name_glob_file _ _ Ht Hr) as Hnm.
    destruct (stored_name_is_name _ data Hnm) as (Hs & He & Hd).
    destruct (locate_storage _ Hs He Hd) as [Hloc Hname].
    fold file in Hloc, Hname. fold n in Hloc, Hname.
    split.
    + intros Hex. unfold move_file. fold file. unfold is_file.
      rewrite (read_at_is_file _ _ _ Hread), Hread. simpl. fold n.
      rewrite Hex. simpl. eexists. split; [reflexivity | exact Hname].
    + intros Hfree Hdir.
      destruct (move_file_moves type_name rel cf fs data Ht Hr Hread
                  Hfree Hdir) as (f & fs' & Hmove & Hf & Hren).
      exists f, fs'. split; [exact Hmove|]. split; [exact Hf|].
      fold file in Hren. fold n in Hren.
      pose proof (rename_at_target _ _ _ _ Hren)
        as (d & Hrd & Hrd' & Hl & _).
      assert (d = data) as -> by congruence.
      split; [exact Hl|]. split; [rewrite Hloc; exact Hrd'|].
      split.
      * apply rename_at_ok in Hren.
        destruct Hren as (? & _ & _ & _ & _ & ->).
        rewrite lookup_insert_ne.
        -- apply lookup_delete_eq.
        -- unfold file. rewrite (locate_glob_file _ _ Ht).
           apply store_loc_not_glob. exact Ht.
      * intros l Hl1 Hl2. eapply rename_at_lookup; eauto.
  - intros type_name rels cf fs cf' fs' Ht Hrels H.
    assert (Forall (fun rel => rel_named rel = true) rels) as Hrels'.
    { apply Forall_forall. intros rel Hin.
      rewrite forallb_forall in Hrels. apply Hrels.
      apply list_elem_of_In. exact Hin. }
    pose proof (fun n => store_loc_not_under type_name n Ht) as Hnu.
    split.
    { intros rel data Hin Hread n.
      pose proof (name_glob_file _ _ Ht (proj1 (Forall_forall _ _) Hrels'
                    rel (proj2 (list_elem_of_In _ _) Hin))) as Hnm.
      destruct (stored_name_is_name _ data Hnm) as (Hs & He & Hd).
      destruct (locate_storage _ Hs He Hd) as [Hloc _]. fold n in Hloc.
      unfold path_exists. rewrite Hloc.
      unfold move_tree in H. apply rbind_ok in H.
      destruct H as ([cf1 fs1] & Hloop & H).
      apply rbind_ok in H. destruct H as (fs2 & Hrm & H).
      injection H as <- <-.
      rewrite (locate_type_dir _ Ht) in Hrm.
      destruct (move_loop_stores _ _ Ht Hrels' _ _ _ _ _ _ Hloop Hin Hread)
        as [Hex Hrec].
      split; [eapply rmtree_at_exists; eauto|]. split; [exact Hrec|].
      intros Hfree Hsame. unfold in_store.
      rewrite (rmtree_at_lookup _ _ _ _ Hrm (Hnu n)).
      eapply move_loop_places; eauto. }
    apply (move_tree_store _ _ _ _ _ _ Ht Hrels') in H.
    destruct H as (Ha & Hb & _ & _). split; [exact Ha|].
    intros Hca. pose proof (content_addressed_step _ _ Hb Hca) as Hca'.
    split; [exact Hca'|].
    intros n1 n2 data H1 H2 Hsuf.
    destruct (Hca' _ _ H1) as [nm1 ->], (Hca' _ _ H2) as [nm2 ->].
    rewrite !stored_name_suffix in Hsuf.
    unfold stored_name. rewrite Hsuf. reflexivity.
Qed.

End Store.

(** ** The catalog writer *)

Section Catalog.

Variable cwd : loc.
Variable clock : nat -> Z.
Variable glob : filesys -> loc -> list (list string).

Lemma glob_named (rels : list (list string)) :
  forallb rel_named rels = true ->
  Forall (fun rel => rel_named rel = true) rels.
Proof.
  intros H. apply Forall_forall. intros rel Hin.
  rewrite forallb_forall in H. apply H. apply list_elem_of_In. exact Hin.
Qed.






End Catalog.

(** * Further properties of the script *)

(** ** Level records *)

Lemma no_slash_digits (d : Decimal.uint) :
  no_slash (NilEmpty.string_of_uint d) = true.
Proof.
  induction d; cbn [NilEmpty.string_of_uint no_slash]; rewrite ?IHd;
    reflexivity.
Qed.

Lemma no_slash_string_of_uint (d : Decimal.uint) :
  no_slash (NilZero.string_of_uint d) = true.
Proof.
  destruct d; try reflexivity; unfold NilZero.string_of_uint;
    apply no_slash_digits.
Qed.

Lemma no_slash_str_int (n : Z) : no_slash (str_int n) = true.
Proof.
  unfold str_int, NilZero.string_of_int.
  destruct (Z.to_int n); simpl; apply no_slash_string_of_uint.
Qed.

Lemma aff_name_is_name (s : string) :
  no_slash s = true ->
  no_slash (s +:+ ".aff") = true /\ s +:+ ".aff" <> "" /\ s +:+ ".aff" <> ".".
Proof.
  intros H. split; [|split].
  - rewrite no_slash_app, H. reflexivity.
  - intros E. apply (f_equal String.length) in E.
    rewrite length_append in E. simpl in E. lia.
  - intros E. apply (f_equal String.length) in E.
    rewrite length_append in E. simpl in E. lia.
Qed.

Lemma chart_path_name (song : Song) (diff : Difficulty) :
  name (chart_path song diff) = str_int (ratingClass diff) +:+ ".aff".
Proof.
  unfold chart_path.
  destruct (aff_name_is_name _ (no_slash_str_int (ratingClass diff)))
    as (Hs & He & Hd).
  apply name_joinpath; assumption.
Qed.

Lemma py_index_minus_one {A} (l : list A) (x : A) :
  py_index l (-1) = Ok x -> last l = Some x.
Proof.
  destruct l as [|y l] using rev_ind.
  - rewrite py_index_nil. discriminate.
  - rewrite py_index_last. intros [= <-]. apply last_snoc.
Qed.

Section MoreSongs.

Variable cwd : loc.

Lemma convert_song_fields i song fs lv fs' :
  convert_song cwd i song fs = Ok (lv, fs') ->
  level_id lv = i /\
  level_Type lv = "Level" /\
  level_Identifier lv = song_set song +:+ "." +:+ song_id song /\
  level_IsDefaultAsset lv = true /\
  level_AddedDate lv = "d" +:+ str_int (song_date song) /\
  level_Version lv = 0.
Proof.
  unfold convert_song. intros H. do 4 ok_inv H.
  destruct a2 as [[charts bgs] fs2]. ok_inv H. injection H as <- <-.
  simpl. auto 10.
Qed.

(** X1.  The song loop builds one Level record per song, in the order of
    the song list; the record of a song has the identifier
    ["<set>.<id>"], whether or not the song is flagged [remote_dl], the
    type ["Level"], the version 0, the default-asset flag and the added
    date ["d<date>"]. *)
Theorem level_records_follow_songs level_count songs fs sl :
  convert_songs cwd level_count songs fs = Ok sl ->
  Forall2 (fun song lv =>
             level_Identifier lv = song_set song +:+ "." +:+ song_id song /\
             level_Type lv = "Level" /\
             level_Version lv = 0 /\
             level_IsDefaultAsset lv = true /\
             level_AddedDate lv = "d" +:+ str_int (song_date song))
    songs (converted_songs sl).
Proof.
  intros H. unfold convert_songs in H.
  apply (foldM_snoc_Forall2
           (fun song lv =>
              level_Identifier lv = song_set song +:+ "." +:+ song_id song /\
              level_Type lv = "Level" /\
              level_Version lv = 0 /\
              level_IsDefaultAsset lv = true /\
              level_AddedDate lv = "d" +:+ str_int (song_date song))
           converted_songs) in H.
  - destruct H as (lvs & -> & HF). exact HF.
  - intros st song st' Hstep. unfold song_step in Hstep. ok_inv Hstep.
    destruct a as [lv fs1]. injection Hstep as <-. simpl.
    exists lv. split; [reflexivity|].
    apply convert_song_fields in Ha. tauto.
Qed.

(** X2.  The charts of a Level are named after the rating classes of the
    difficulties, [<ratingClass>.aff] in the order of the difficulties,
    with [base.ogg] as audio and [base.jpg] as jacket, and the chart last
    opened is the chart of the last difficulty. *)
Theorem charts_follow_difficulties i song fs lv fs' :
  convert_song cwd i song fs = Ok (lv, fs') ->
  Forall2 (fun diff chart =>
             ChartPath chart = str_int (ratingClass diff) +:+ ".aff" /\
             AudioPath chart = "base.ogg" /\
             JacketPath chart = "base.jpg")
    (song_difficulties song) (level_Charts lv) /\
  exists diff,
    last (song_difficulties song) = Some diff /\
    level_LastOpenedChartPath lv = str_int (ratingClass diff) +:+ ".aff".
Proof.
  intros H. pose proof (convert_song_charts _ _ _ _ _ _ H) as HF.
  apply convert_song_ok in H.
  destruct H as (fs0 & charts & bgs & lc & _ & Hlast & _ & _ & Hcs & Hlo & _).
  rewrite Hcs in HF |- *. rewrite Hlo. clear Hcs Hlo.
  assert (Forall2 (fun diff chart =>
                     ChartPath chart = str_int (ratingClass diff) +:+ ".aff" /\
                     AudioPath chart = "base.ogg" /\
                     JacketPath chart = "base.jpg")
            (song_difficulties song) charts) as HF'.
  { eapply Forall2_impl; [exact HF|]. intros diff chart Hc.
    unfold make_chart in Hc. do 4 ok_inv Hc. injection Hc as <-. simpl.
    split; [apply chart_path_name | auto]. }
  split; [exact HF'|].
  apply py_index_minus_one in Hlast.
  apply last_Some in Hlast. destruct Hlast as [cs ->].
  apply Forall2_app_inv_r in HF'.
  destruct HF' as (ds & dl & _ & Hl & ->).
  inversion Hl as [|diff c ? ? [Hp _] Hnil]; subst.
  inversion Hnil; subst.
  exists diff. split; [apply last_snoc | exact Hp].
Qed.

(** X3.  Every chart carries the song's English title as title, its artist
    as composer, the difficulty's chart designer as charter and its jacket
    designer as illustrator; its skin side is [light] for side 0,
    [conflict] for side 1 and absent for any other side. *)
Theorem charts_carry_metadata i song fs lv fs' :
  convert_song cwd i song fs = Ok (lv, fs') ->
  Forall2 (fun diff chart =>
             Title chart = song_title_en song /\
             Composer chart = song_artist song /\
             Charter chart = chartDesigner diff /\
             Illustrator chart = jacketDesigner diff /\
             BaseBpm chart = FloatOf (song_bpm_base song) /\
             ChartConstant chart = FloatOf (rating diff) /\
             (song_side song = 0 -> Skin chart = Some "light") /\
             (song_side song = 1 -> Skin chart = Some "conflict") /\
             (song_side song <> 0 -> song_side song <> 1 ->
              Skin chart = None))
    (song_difficulties song) (level_Charts lv).
Proof.
  intros H. apply convert_song_charts in H.
  eapply Forall2_impl; [exact H|]. intros diff chart Hc.
  pose proof (make_chart_floats _ _ _ Hc) as (_ & _ & Hbpm & Hcc).
  unfold make_chart in Hc. do 4 ok_inv Hc. injection Hc as Hc.
  rewrite <- Hc in Hbpm, Hcc |- *. simpl in *.
  repeat split; try reflexivity; try assumption.
  - intros ->. reflexivity.
  - intros ->. reflexivity.
  - intros H0 H1. apply Z.eqb_neq in H0. apply Z.eqb_neq in H1.
    rewrite H0, H1. reflexivity.
Qed.

Lemma convert_song_run i song fs lv fs' :
  convert_song cwd i song fs = Ok (lv, fs') ->
  exists fs1 fs2 fs3 charts bgs,
    mkdir cwd (song_root_path song) fs = Ok fs1 /\
    copyfile cwd (audio_root_path </> original_id song </> "base.ogg")
      (song_root_path song </> "base.ogg") fs1 = Ok fs2 /\
    copyfile cwd (jacket_root_path </> original_id song </> "base.jpg")
      (song_root_path song </> "base.jpg") fs2 = Ok fs3 /\
    foldM (convert_diff cwd song) ([], [], fs3) (song_difficulties song)
      = Ok (charts, bgs, fs') /\
    level_Charts lv = charts /\
    level_FileReferences lv =
      ["base.ogg"; "base.jpg"] ++ map name bgs ++ map ChartPath charts.
Proof.
  unfold convert_song. intros H. do 4 ok_inv H.
  destruct a2 as [[charts bgs] fs4]. ok_inv H. injection H as <- <-.
  exists a, a0, a1, charts, bgs. simpl. auto 10.
Qed.

(** What the difficulty loop keeps true of [charts]: the chart file of
    every chart built so far is in the song's working directory. *)
Lemma convert_diffs_charts_exist song diffs st st' :
  foldM (convert_diff cwd song) st diffs = Ok st' ->
  let copied (st : list Chart * list Path * filesys) :=
    Forall (fun c => path_exists cwd (song_root_path song </> ChartPath c)
                       (snd st) = true)
      (fst (fst st)) in
  copied st -> copied st'.
Proof.
  intros H copied Hst.
  apply (foldM_invariant copied (convert_diff cwd song) diffs)
    with (s := st); [| exact Hst | exact H].
  clear. subst copied.
  intros [[charts bgs] fs] diff [[charts' bgs'] fs'] _ Hex Hstep.
  pose proof (convert_diff_grows _ _ _ _ _ Hstep) as Hg. simpl in Hg.
  apply convert_diff_ok in Hstep.
  destruct Hstep as (chart & fs1 & Hc & Hm & -> & Hbg). simpl in *.
  apply Forall_app. split.
  - eapply Forall_impl; [exact Hex|]. intros c Hb.
    eapply exists_at_grows; [exact Hg | exact Hb].
  - constructor; [|constructor].
    apply make_chart_ok in Hm.
    destruct Hm as (dn & dc & _ & _ & _ & _ & -> & _).
    assert (grows fs1 fs') as Hg1.
    { destruct Hbg as [(_ & _ & ->)|(_ & Hcopy & _)];
        [apply grows_refl | eapply copyfile_grows; eauto]. }
    eapply exists_at_grows; [exact Hg1|].
    eapply copyfile_exists; eauto.
Qed.

(** X4.  Every file reference of a converted Level names something that
    is in the Level's working directory [final/Level/<set>.<id>] when the
    song has been converted: the audio, the jacket, each background that
    was copied and the chart of each difficulty. *)
Theorem file_references_are_in_place i song fs lv fs' :
  convert_song cwd i song fs = Ok (lv, fs') ->
  Forall (fun r => path_exists cwd (song_root_path song </> r) fs' = true)
    (level_FileReferences lv).
Proof.
  intros H. apply convert_song_run in H.
  destruct H as (fs1 & fs2 & fs3 & charts & bgs
                 & _ & Ha & Hj & Hrun & _ & ->).
  pose proof (convert_diffs_grows _ _ _ _ _ Hrun) as Hg. simpl in Hg.
  pose proof (copyfile_grows _ _ _ _ _ Hj) as Hg2.
  apply copyfile_exists in Ha. apply copyfile_exists in Hj.
  pose proof (convert_diffs_backgrounds _ _ _ _ _ Hrun) as Hb.
  pose proof (convert_diffs_charts_exist _ _ _ _ Hrun) as Hc.
  simpl in Hb, Hc.
  destruct Hb as [_ Hb]; [split; constructor|].
  specialize (Hc (Forall_nil_2 _)).
  cbn [app]. constructor; [|constructor].
  - eapply exists_at_grows; [exact Hg|].
    eapply exists_at_grows; [exact Hg2 | exact Ha].
  - eapply exists_at_grows; [exact Hg | exact Hj].
  - apply Forall_app. split.
    + rewrite Forall_fmap. exact Hb.
    + rewrite Forall_fmap. exact Hc.
Qed.

End MoreSongs.

(** ** Pack records *)

Lemma select_name_is_name (s : string) :
  no_slash s = true ->
  no_slash ("select_" +:+ s +:+ ".png") = true /\
  "select_" +:+ s +:+ ".png" <> "" /\ "select_" +:+ s +:+ ".png" <> ".".
Proof.
  intros H. split; [|split].
  - rewrite !no_slash_app, H. reflexivity.
  - intros E. apply (f_equal String.length) in E.
    rewrite !length_append in E. simpl in E. lia.
  - intros E. apply (f_equal String.length) in E.
    rewrite !length_append in E. simpl in E. lia.
Qed.

Section MorePacks.

Variable cwd : loc.
Variable clock : nat -> Z.

Lemma convert_pack_run ids i now pack fs cp fs' :
  convert_pack cwd ids i now pack fs = Ok (cp, fs') ->
  let new_id := pack_new_id pack in
  let pack_root_path := final_path </> "Pack" </> new_id in
  let pack_cover_path :=
    pack_cover_root_path </> ("select_" +:+ new_id +:+ ".png") in
  exists fs1 cover,
    mkdir cwd pack_root_path fs = Ok fs1 /\
    ((new_id = "single" /\ cover = singles_cover_path /\ fs' = fs1) \/
     (new_id <> "single" /\ cover = pack_cover_path /\
      copyfile cwd pack_cover_path (pack_root_path </> name pack_cover_path)
        fs1 = Ok fs')) /\
    cpack_id cp = i /\
    cpack_Type cp = "Pack" /\
    cpack_PackName cp = pack_name_en pack /\
    cpack_ImagePath cp = name cover /\
    cpack_Identifier cp = new_id /\
    cpack_Version cp = 0 /\
    cpack_FileReferences cp = [name cover] /\
    cpack_AddedDate cp = "d" +:+ str_int now /\
    cpack_IsDefaultAsset cp = true.
Proof.
  unfold convert_pack. intros H. ok_inv H. ok_inv H.
  destruct a0 as [cover fs2]. ok_inv H. injection H as <- <-.
  exists a, cover. split; [exact Ha|]. split; [|simpl; auto 10].
  destruct (String.eqb_spec (pack_new_id pack) "single") as [E|E].
  - left. injection Ha0 as <- <-. auto.
  - right. ok_inv Ha0. injection Ha0 as <- <-. auto.
Qed.

Lemma pack_step_record ids st pack st' :
  pack_step cwd clock ids st pack = Ok st' ->
  exists cp,
    converted_packs st' = converted_packs st ++ [cp] /\
    pack_record clock (length (converted_packs st)) pack cp.
Proof.
  unfold pack_step. intros H. ok_inv H. destruct a as [cp fs'].
  injection H as <-. simpl. exists cp. split; [reflexivity|].
  apply convert_pack_run in Ha. cbv zeta in Ha.
  destruct Ha as (fs1 & cover & _ & Hcover & _ & Ht & Hn & Him & Hid & Hv
                  & Hf & Hd & Hda).
  unfold pack_record. rewrite Hid, Him, Hf.
  assert (pack_new_id pack = default (pack_id pack) (pack_parent pack)) as Hnew.
  { unfold pack_new_id. destruct (pack_parent pack); reflexivity. }
  repeat split; try assumption.
  - intros Hs. destruct Hcover as [(_ & -> & _)|(Hne & _)];
      [reflexivity | contradiction].
  - intros Hne Hns. destruct Hcover as [(Hs & _)|(_ & -> & _)];
      [contradiction|].
    destruct (select_name_is_name _ Hns) as (H1 & H2 & H3).
    apply name_joinpath; assumption.
Qed.

Lemma pack_loop_records ids packs : forall st st',
  foldM (pack_step cwd clock ids) st packs = Ok st' ->
  exists cps,
    converted_packs st' = converted_packs st ++ cps /\
    length cps = length packs /\
    forall k pack cp,
      packs !! k = Some pack -> cps !! k = Some cp ->
      pack_record clock (length (converted_packs st) + k) pack cp.
Proof.
  induction packs as [|pack packs IH]; intros st st' H; simpl in H.
  - injection H as <-. exists []. rewrite app_nil_r.
    split; [reflexivity|]. split; [reflexivity|]. intros k ? ? Hk.
    rewrite lookup_nil in Hk. discriminate.
  - ok_inv H. apply pack_step_record in Ha. destruct Ha as (cp & Hcs & Hrec).
    destruct (IH _ _ H) as (cps & Hcps & Hlen & Hall).
    exists (cp :: cps). rewrite Hcps, Hcs, <- app_assoc.
    split; [reflexivity|]. split; [simpl; congruence|].
    intros [|k] pk c Hp Hc; simpl in Hp, Hc.
    + injection Hp as <-. injection Hc as <-.
      rewrite Nat.add_0_r. exact Hrec.
    + specialize (Hall k pk c Hp Hc). rewrite Hcs, length_app in Hall.
      simpl in Hall.
      replace (length (converted_packs st) + S k)%nat
        with (length (converted_packs st) + 1 + k)%nat by lia.
      exact Hall.
Qed.

(** X5.  The pack loop builds one Pack record per pack, in the order of
    the pack list.  The record of the pack at position [k] has the pack's
    parent as identifier when the pack names one and the pack's own id
    otherwise, the type ["Pack"], the English pack name, the version 0,
    the default-asset flag, the added date ["d<time>"] of the time read
    at that pack, and its image as only file reference: the image is
    [folder_singles.png] for the identifier ["single"] and
    [select_<identifier>.png] for any other identifier. *)
Theorem pack_records_follow_packs ids pack_count packs fs pl :
  convert_packs cwd clock ids pack_count packs fs = Ok pl ->
  length (converted_packs pl) = length packs /\
  forall k pack cp,
    packs !! k = Some pack -> converted_packs pl !! k = Some cp ->
    pack_record clock k pack cp.
Proof.
  intros H. apply pack_loop_records in H.
  destruct H as (cps & Hcps & Hlen & Hall). simpl in Hcps, Hall.
  rewrite Hcps. split; [exact Hlen | exact Hall].
Qed.

(** X6.  Converting a pack whose identifier is ["single"] only makes the
    directory [final/Pack/single]: no file is copied, every file on the
    disk afterwards was there before with the same bytes, and the record
    still lists [folder_singles.png] as its file reference. *)
Theorem single_pack_copies_nothing ids i now pack fs cp fs' :
  pack_new_id pack = "single" ->
  convert_pack cwd ids i now pack fs = Ok (cp, fs') ->
  mkdir cwd (final_path </> "Pack" </> "single") fs = Ok fs' /\
  (forall l data, fs' !! l = Some (File data) -> fs !! l = Some (File data)) /\
  cpack_FileReferences cp = ["folder_singles.png"].
Proof.
  intros Hs H. apply convert_pack_run in H. cbv zeta in H.
  destruct H as (fs1 & cover & Hm & Hcover & _ & _ & _ & _ & _ & _ & Hf & _).
  rewrite Hs in Hm, Hcover.
  destruct Hcover as [(_ & -> & ->)|(Hne & _)]; [|contradiction].
  split; [exact Hm|]. split; [|exact Hf].
  apply mkdirs_spec in Hm. tauto.
Qed.

(** X7.  Converting a pack with any other identifier copies the cover
    [select_<identifier>.png] from the cover directory of the staging
    area into [final/Pack/<identifier>] under the same name: the copy
    holds the bytes the cover had before the conversion. *)
Theorem pack_cover_is_copied ids i now pack fs cp fs' :
  pack_new_id pack <> "single" ->
  no_slash (pack_new_id pack) = true ->
  convert_pack cwd ids i now pack fs = Ok (cp, fs') ->
  let cover := "select_" +:+ pack_new_id pack +:+ ".png" in
  exists data,
    fs !! locate cwd (pack_cover_root_path </> cover) = Some (File data) /\
    read_at fs'
      (locate cwd (final_path </> "Pack" </> pack_new_id pack </> cover))
    = Ok data /\
    cpack_ImagePath cp = cover.
Proof.
  intros Hne Hns H cover. apply convert_pack_run in H. cbv zeta in H.
  destruct H as (fs1 & cv & Hm & Hcover & _ & _ & _ & Him & _).
  destruct Hcover as [(Hs & _)|(_ & -> & Hc)]; [contradiction|].
  destruct (select_name_is_name _ Hns) as (H1 & H2 & H3).
  rewrite (name_joinpath _ _ H1 H2 H3) in Hc, Him.
  apply copyfile_at_ok in Hc. destruct Hc as (data & Hr & Hw).
  exists data. split; [|split; [|exact Him]].
  - apply read_at_ok in Hr. destruct Hr as [_ Hr].
    apply node_at_file in Hr. destruct Hr as [_ Hr].
    apply mkdirs_spec in Hm. destruct Hm as (_ & _ & Hf). apply Hf. exact Hr.
  - eapply write_at_read. exact Hw.
Qed.

End MorePacks.

(** ** File records and the working trees *)

Lemma split_slash_app_slash (x s : string) :
  no_slash x = true ->
  split_slash (x +:+ "/" +:+ s) = x :: split_slash s.
Proof.
  induction x as [|c x IH]; intros H.
  - reflexivity.
  - simpl in H. apply andb_true_iff in H. destruct H as [Hc Hx].
    change (String c x +:+ "/" +:+ s) with (String c (x +:+ "/" +:+ s)).
    cbn [split_slash]. rewrite (IH Hx).
    destruct (Ascii.eqb c "/"); [discriminate | reflexivity].
Qed.

(** Joining components by [/] loses nothing when no component holds
    a [/]. *)
Lemma split_slash_concat (l : list string) :
  l <> [] -> Forall (fun c => no_slash c = true) l ->
  split_slash (String.concat "/" l) = l.
Proof.
  induction l as [|x l IH]; intros Hne HF; [contradiction|].
  apply Forall_cons in HF. destruct HF as [Hx HF].
  destruct l as [|y l].
  - simpl. apply split_slash_no_slash. exact Hx.
  - change (String.concat "/" (x :: y :: l))
      with (x +:+ "/" +:+ String.concat "/" (y :: l)).
    rewrite (split_slash_app_slash _ _ Hx), IH; [reflexivity | discriminate
                                                | exact HF].
Qed.

Lemma as_posix_glob_file type_name rel :
  is_type_name type_name ->
  as_posix (relative_to (glob_file type_name rel) final_path)
  = String.concat "/" (type_name :: rel).
Proof. intros [-> | ->]; reflexivity. Qed.

Section MoreStore.

Variable cwd : loc.

Lemma move_file_record type_name rel cf fs cf' fs' :
  move_file cwd type_name (cf, fs) rel = Ok (cf', fs') ->
  (is_file cwd (glob_file type_name rel) fs = false /\ cf' = cf) \/
  (is_file cwd (glob_file type_name rel) fs = true /\
   exists f,
     cf' = cf ++ [f] /\
     file_id f = as_posix (relative_to (glob_file type_name rel) final_path) /\
     RealPath f = CorrectHashPath f).
Proof.
  unfold move_file. intros H.
  destruct (is_file cwd (glob_file type_name rel) fs).
  - right. split; [reflexivity|]. do 2 ok_inv H. injection H as <- <-.
    eexists. split; [reflexivity|]. simpl. auto.
  - left. injection H as <- <-. auto.
Qed.

Lemma move_loop_records type_name rels : forall cf fs cf' fs',
  is_type_name type_name ->
  foldM (move_file cwd type_name) (cf, fs) rels = Ok (cf', fs') ->
  exists new,
    cf' = cf ++ new /\
    map file_id new
      `sublist_of` map (fun rel => String.concat "/" (type_name :: rel)) rels /\
    Forall (fun f => RealPath f = CorrectHashPath f) new.
Proof.
  induction rels as [|rel rels IH]; intros cf fs cf' fs' Ht H; simpl in H.
  - injection H as <- <-. exists []. rewrite app_nil_r.
    split; [reflexivity|]. split; constructor.
  - ok_inv H. destruct a as [cf1 fs1].
    destruct (IH _ _ _ _ Ht H) as (new & -> & Hsub & Heq).
    apply move_file_record in Ha.
    destruct Ha as [(_ & ->)|(_ & f & -> & Hid & Hf)].
    + exists new. split; [reflexivity|]. split; [|exact Heq].
      simpl. apply sublist_cons. exact Hsub.
    + exists (f :: new). rewrite <- app_assoc. split; [reflexivity|].
      split; [|constructor; assumption].
      simpl. rewrite Hid, (as_posix_glob_file _ _ Ht).
      apply sublist_skip. exact Hsub.
Qed.

(** X8.  The File records a round of the type loop adds are named after
    the files the glob yielded, in its order: the [_id] of a record is
    [<type>/<path below the tree>] with [/] between the components, and
    its [RealPath] and [CorrectHashPath] are the same name.  When the
    glob yields no path twice and no component holds a [/], the [_id]s of
    the round are pairwise different. *)
Theorem file_records_are_named_after_files type_name rels cf fs cf' fs' :
  is_type_name type_name ->
  move_tree cwd type_name rels (cf, fs) = Ok (cf', fs') ->
  exists new,
    cf' = cf ++ new /\
    map file_id new
      `sublist_of` map (fun rel => String.concat "/" (type_name :: rel)) rels /\
    Forall (fun f => RealPath f = CorrectHashPath f) new /\
    (NoDup rels ->
     Forall (Forall (fun c => no_slash c = true)) rels ->
     NoDup (map file_id new)).
Proof.
  intros Ht H. unfold move_tree in H. ok_inv H. destruct a as [cf1 fs1].
  ok_inv H. injection H as <- <-.
  apply move_loop_records in Ha; [|exact Ht].
  destruct Ha as (new & -> & Hsub & Heq).
  exists new. split; [reflexivity|]. split; [exact Hsub|].
  split; [exact Heq|]. intros Hnd Hcomp.
  assert (no_slash type_name = true) as Hts
    by (destruct Ht as [-> | ->]; reflexivity).
  eapply sublist_NoDup; [|exact Hsub].
  apply NoDup_fmap_2_strong; [|exact Hnd].
  intros r1 r2 H1 H2 E.
  rewrite Forall_forall in Hcomp.
  apply (f_equal split_slash) in E.
  rewrite !split_slash_concat in E; try discriminate.
  - congruence.
  - constructor; [exact Hts | apply Hcomp; exact H2].
  - constructor; [exact Hts | apply Hcomp; exact H1].
Qed.

Lemma move_file_lookup type_name rel cf fs cf' fs' l n :
  is_type_name type_name -> rel_named rel = true ->
  move_file cwd type_name (cf, fs) rel = Ok (cf', fs') ->
  fs' !! l = Some n ->
  fs !! l = Some n \/ exists nm, l = store_loc cwd nm.
Proof.
  intros Ht Hr H Hl. apply move_file_ok in H; [|assumption..]. simpl in H.
  destruct H as [(_ & _ & ->)|(data & _ & _ & _ & [(_ & ->)|(_ & Hren)])];
    [auto | auto |].
  apply rename_at_ok in Hren. destruct Hren as (d & _ & _ & _ & _ & ->).
  rewrite lookup_insert in Hl.
  destruct (decide (store_loc cwd _ = l)) as [<-|Hne]; [eauto|].
  left. apply lookup_delete_Some in Hl. tauto.
Qed.

Lemma move_loop_lookup type_name rels :
  is_type_name type_name ->
  Forall (fun rel => rel_named rel = true) rels ->
  forall cf fs cf' fs' l n,
    foldM (move_file cwd type_name) (cf, fs) rels = Ok (cf', fs') ->
    fs' !! l = Some n ->
    fs !! l = Some n \/ exists nm, l = store_loc cwd nm.
Proof.
  intros Ht. induction 1 as [|rel rels Hrel _ IH];
    intros cf fs cf' fs' l n H Hl; simpl in H.
  - injection H as <- <-. auto.
  - ok_inv H. destruct a as [cf1 fs1].
    destruct (IH _ _ _ _ _ _ H Hl) as [Hl1|Hl1]; [|auto].
    eapply move_file_lookup; eauto.
Qed.

Lemma move_tree_lookup type_name rels cf fs cf' fs' l :
  is_type_name type_name ->
  Forall (fun rel => rel_named rel = true) rels ->
  move_tree cwd type_name rels (cf, fs) = Ok (cf', fs') ->
  (under (cwd ++ ["final"; type_name]) l -> fs' !! l = None) /\
  (forall n, fs' !! l = Some n ->
     fs !! l = Some n \/ exists nm, l = store_loc cwd nm).
Proof.
  intros Ht Hrels H. unfold move_tree in H. ok_inv H.
  destruct a as [cf1 fs1]. ok_inv H. injection H as <- <-.
  rewrite (locate_type_dir _ _ Ht) in Ha0. split.
  - intros Hu. apply rmtree_at_ok in Ha0. subst a.
    apply map_lookup_filter_None. right. intros n _ Hn. apply Hn. exact Hu.
  - intros n Hl. apply (rmtree_at_lookup_Some _ _ _ _ _ Ha0) in Hl.
    eapply move_loop_lookup; eauto.
Qed.

Section Glob.

Variable glob : filesys -> loc -> list (list string).

(** X9.  When the files have been moved the two working trees are gone:
    nothing is left at or below [final/Level] and [final/Pack].  Every
    file on the disk then was there before with the same bytes, or is a
    file of the store. *)
Theorem working_trees_are_removed fs files fs' :
  (forall fs0 d, forallb rel_named (glob fs0 d) = true) ->
  move_files cwd glob fs = Ok (files, fs') ->
  (forall l,
     under (cwd ++ ["final"; "Level"]) l \/
     under (cwd ++ ["final"; "Pack"]) l ->
     fs' !! l = None) /\
  path_exists cwd (final_path </> "Level") fs' = false /\
  path_exists cwd (final_path </> "Pack") fs' = false /\
  (forall l data,
     fs' !! l = Some (File data) ->
     fs !! l = Some (File data) \/ exists nm, l = store_loc cwd nm).
Proof.
  intros Hglob H. unfold move_files in H. ok_inv H. ok_inv H.
  destruct a0 as [cf1 fs1]. simpl in H.
  assert (forall l,
            under (cwd ++ ["final"; "Level"]) l \/
            under (cwd ++ ["final"; "Pack"]) l ->
            fs' !! l = None) as Hgone.
  { intros l [Hu|Hu].
    - destruct (fs' !! l) as [n|] eqn:E; [|reflexivity].
      destruct (move_tree_lookup _ _ _ _ _ _ l (or_intror eq_refl)
                  (glob_named _ (Hglob _ _)) H) as [_ Hb].
      destruct (Hb _ E) as [Hl|[nm ->]].
      + destruct (move_tree_lookup _ _ _ _ _ _ l (or_introl eq_refl)
                    (glob_named _ (Hglob _ _)) Ha0) as [Hn _].
        rewrite (Hn Hu) in Hl. discriminate.
      + exfalso. eapply store_loc_not_under; [|exact Hu]. left. reflexivity.
    - destruct (move_tree_lookup _ _ _ _ _ _ l (or_intror eq_refl)
                  (glob_named _ (Hglob _ _)) H) as [Hn _].
      exact (Hn Hu). }
  assert (forall t, is_type_name t ->
            path_exists cwd (final_path </> t) fs' = false) as Hno.
  { intros t Ht. unfold path_exists. rewrite (locate_type_dir _ _ Ht).
    destruct (exists_at fs' _) eqn:E; [|reflexivity].
    apply exists_at_ok in E. destruct E as [_ [n Hn]].
    assert (fs' !! (cwd ++ ["final"; t]) = Some n) as Hl.
    { destruct cwd; exact Hn. }
    rewrite Hgone in Hl; [discriminate|].
    unfold under. destruct Ht as [-> | ->]; [left | right]; reflexivity. }
  split; [exact Hgone|].
  split; [apply Hno; left; reflexivity|].
  split; [apply Hno; right; reflexivity|].
  intros l data Hl.
  destruct (move_tree_lookup _ _ _ _ _ _ l (or_intror eq_refl)
              (glob_named _ (Hglob _ _)) H) as [_ Hb].
  destruct (Hb _ Hl) as [Hl1|Hl1]; [|auto].
  destruct (move_tree_lookup _ _ _ _ _ _ l (or_introl eq_refl)
              (glob_named _ (Hglob _ _)) Ha0) as [_ Hb0].
  destruct (Hb0 _ Hl1) as [Hl0|Hl0]; [|auto].
  left. apply mkdirs_spec in Ha. destruct Ha as (_ & _ & Hf). auto.
Qed.

End Glob.

End MoreStore.

(** ** Extraction, once more *)

Lemma apply_ops_app fs ops1 ops2 :
  apply_ops fs (ops1 ++ ops2)
  = (fs1 <- apply_ops fs ops1 ;; apply_ops fs1 ops2).
Proof. apply foldM_app. Qed.

(** A loop whose body does the operations [ops x] when it takes [x]. *)
Lemma foldM_ops {A} (body : filesys -> A -> result filesys)
    (ok : A -> Prop) (ops : A -> list fs_op) :
  (forall fs x fs',
     body fs x = Ok fs' <-> ok x /\ apply_ops fs (ops x) = Ok fs') ->
  forall l fs fs',
    foldM body fs l = Ok fs' <->
    Forall ok l /\ apply_ops fs (flat_map ops l) = Ok fs'.
Proof.
  intros Hbody. induction l as [|x l IH]; intros fs fs'; simpl.
  - split; [intros H; split; [constructor | exact H] | tauto].
  - rewrite apply_ops_app. split.
    + intros H. ok_inv H. apply Hbody in Ha. destruct Ha as [Hx Ha].
      apply IH in H. destruct H as [Hl H].
      split; [constructor; assumption|]. rewrite Ha. exact H.
    + intros [HF H]. apply Forall_cons in HF. destruct HF as [Hx Hl].
      ok_inv H.
      assert (body fs x = Ok a) as -> by (apply Hbody; auto).
      simpl. apply IH. auto.
Qed.

Lemma apply_op_grows fs o fs' : apply_op fs o = Ok fs' -> grows fs fs'.
Proof.
  destruct o; simpl; [apply mkdir_at_grows | apply write_at_grows].
Qed.

Lemma apply_ops_grows ops : forall fs fs',
  apply_ops fs ops = Ok fs' -> grows fs fs'.
Proof.
  induction ops as [|o ops IH]; intros fs fs' H; simpl in H.
  - injection H as <-. apply grows_refl.
  - ok_inv H. eapply grows_trans; [eapply apply_op_grows; eauto|].
    apply IH. exact H.
Qed.







Section MoreExtract.

Variable cwd : loc.
Variable max_offset : Z.
Variable max_length : Z.

Lemma seek_accepts off :
  0 <= off <= max_offset -> seek max_offset off = Ok tt.
Proof.
  intros H. unfold seek.
  destruct (Z.ltb_spec off 0); [lia|].
  destruct (Z.ltb_spec max_offset off); [lia | reflexivity].
Qed.

Lemma read_accepts data e :
  -1 <= Length e <= max_length ->
  read max_length data (Offset e) (Length e) = Ok (entry_bytes data e).
Proof.
  intros H. unfold read, entry_bytes.
  destruct (Z.ltb_spec (Length e) (-1)); [lia|].
  destruct (Z.ltb_spec max_length (Length e)); [lia|].
  destruct (Length e =? -1); reflexivity.
Qed.

Lemma extract_entry_ops pack group_path fs e fs' :
  extract_entry cwd max_offset max_length pack group_path fs e = Ok fs' <->
  entry_accepted max_offset max_length e /\
  apply_ops fs (entry_ops cwd pack group_path e) = Ok fs'.
Proof.
  unfold extract_entry, entry_ops, apply_ops, entry_accepted. simpl.
  unfold mkdir. split.
  - intros H. do 4 ok_inv H. apply seek_ok in Ha0.
    apply read_ok in Ha2. destruct Ha2 as [Hlen Hb].
    split; [split; assumption|].
    assert (a2 = entry_bytes pack e) as -> by exact Hb.
    rewrite Ha. simpl. rewrite Ha1. simpl. rewrite H. reflexivity.
  - intros [[Hoff Hlen] H]. do 3 ok_inv H. injection H as <-.
    rewrite Ha. simpl. rewrite (seek_accepts _ Hoff). simpl.
    rewrite Ha0. simpl. rewrite (read_accepts _ _ Hlen). simpl. exact Ha1.
Qed.

Lemma extract_group_ops pack fs group fs' :
  extract_group cwd max_offset max_length pack fs group = Ok fs' <->
  Forall (entry_accepted max_offset max_length) (OrderedEntries group) /\
  apply_ops fs (group_ops cwd pack group) = Ok fs'.
Proof.
  unfold extract_group, group_ops. cbv zeta.
  change (apply_ops fs (MkDir ?l :: ?ops))
    with (s1 <- mkdir_at fs l ;; apply_ops s1 ops).
  unfold mkdir. split.
  - intros H. ok_inv H. rewrite Ha. simpl.
    apply (foldM_ops _ _ _ (extract_entry_ops pack _)) in H. exact H.
  - intros [HF H]. ok_inv H. rewrite Ha. simpl.
    apply (foldM_ops _ _ _ (extract_entry_ops pack _)). auto.
Qed.

Lemma extract_pack_ops fs pack fs' :
  extract_pack cwd max_offset max_length fs pack = Ok fs' <->
  pack_accepted max_offset max_length pack /\
  apply_ops fs (pack_ops cwd pack) = Ok fs'.
Proof.
  unfold extract_pack, pack_accepted, pack_ops.
  destruct (pack_index pack) as [groups|]; simpl.
  - rewrite (foldM_ops _ _ _ (extract_group_ops (pack_data pack))).
    split; [intros [HF H]; eauto | tauto].
  - split; [discriminate | intros [[[x Hx] _] _]; discriminate].
Qed.

Lemma extract_romfs_ops packs fs fs' :
  extract_romfs cwd max_offset max_length packs fs = Ok fs' <->
  Forall (pack_accepted max_offset max_length) (sort_packs packs) /\
  apply_ops fs (romfs_ops cwd packs) = Ok fs'.
Proof.
  unfold extract_romfs, romfs_ops. apply foldM_ops.
  intros fs0 pack fs1. apply extract_pack_ops.
Qed.




End MoreExtract.

Section Growth.

Variable cwd : loc.
Variable clock : nat -> Z.

Lemma convert_song_grows i song fs lv fs' :
  convert_song cwd i song fs = Ok (lv, fs') -> grows fs fs'.
Proof.
  intros H. apply convert_song_run in H.
  destruct H as (fs1 & fs2 & fs3 & charts & bgs & Hm & Ha & Hj & Hrun & _).
  apply mkdir_at_grows in Hm. apply copyfile_grows in Ha, Hj.
  apply convert_diffs_grows in Hrun. simpl in Hrun.
  eauto using grows_trans.
Qed.

Lemma convert_pack_grows ids i now pack fs cp fs' :
  convert_pack cwd ids i now pack fs = Ok (cp, fs') -> grows fs fs'.
Proof.
  intros H. apply convert_pack_run in H. cbv zeta in H.
  destruct H as (fs1 & cover & Hm & Hcover & _).
  apply mkdir_at_grows in Hm.
  destruct Hcover as [(_ & _ & ->)|(_ & _ & Hc)]; [exact Hm|].
  apply copyfile_grows in Hc. eauto using grows_trans.
Qed.

(** X13.  Until the files are moved nothing is taken away: whatever is on
    the disk before the extraction, before the song loop or before the
    pack loop is still there after it, a directory as a directory and a
    file as a file. *)
Theorem nothing_is_lost_before_the_move :
  (forall max_offset max_length packs fs fs',
     extract_romfs cwd max_offset max_length packs fs = Ok fs' ->
     grows fs fs') /\
  (forall level_count songs fs sl,
     convert_songs cwd level_count songs fs = Ok sl ->
     grows fs (sl_fs sl)) /\
  (forall ids pack_count packs fs pl,
     convert_packs cwd clock ids pack_count packs fs = Ok pl ->
     grows fs (pl_fs pl)).
Proof.
  split; [|split].
  - intros mo ml packs fs fs' H. apply extract_romfs_ops in H.
    destruct H as [_ H]. eapply apply_ops_grows. exact H.
  - intros level_count songs fs sl H. unfold convert_songs in H.
    apply (foldM_invariant (fun st => grows fs (sl_fs st))) in H;
      [exact H | | apply grows_refl].
    intros st song st' _ Hst Hstep. unfold song_step in Hstep.
    ok_inv Hstep. destruct a as [lv fs1]. injection Hstep as <-. simpl.
    eapply grows_trans; [exact Hst | eapply convert_song_grows; eauto].
  - intros ids pack_count packs fs pl H. unfold convert_packs in H.
    apply (foldM_invariant (fun st => grows fs (pl_fs st))) in H;
      [exact H | | apply grows_refl].
    intros st pack st' _ Hst Hstep. unfold pack_step in Hstep.
    ok_inv Hstep. destruct a as [cp fs1]. injection Hstep as <-. simpl.
    eapply grows_trans; [exact Hst | eapply convert_pack_grows; eauto].
Qed.

End Growth.

(** ** Preparing *)

Lemma mkdirs_walk rest : forall fs done fs',
  mkdirs fs done rest = Ok fs' -> node_at fs done = Some Dir ->
  walk fs' done rest = Ok tt /\ node_at fs' (done ++ rest) = Some Dir.
Proof.
  induction rest as [|c rest IH]; intros fs done fs' H Hd; simpl in H.
  - injection H as <-. rewrite app_nil_r. auto.
  - assert (done ++ [c] <> []) as Hne by (destruct done; discriminate).
    assert (done ++ [c] <> done) as Hne'.
    { intros Heq. apply (f_equal length) in Heq.
      rewrite length_app in Heq. simpl in Heq. lia. }
    cbn [walk].
    destruct (node_at fs (done ++ [c])) as [[|d]|] eqn:E; try discriminate.
    + pose proof (mkdirs_spec _ _ _ _ H) as (Hg & _ & _).
      rewrite (grows_dir _ _ _ Hg Hd).
      destruct (IH _ _ _ H E) as [Hw Hn].
      rewrite <- app_assoc in Hn. auto.
    + pose proof (mkdirs_spec _ _ _ _ H) as (Hg & _ & _).
      assert (node_at (<[done ++ [c] := Dir]> fs) (done ++ [c]) = Some Dir)
        as E'.
      { rewrite node_at_insert by exact Hne.
        destruct (decide (done ++ [c] = done ++ [c])); congruence. }
      assert (node_at (<[done ++ [c] := Dir]> fs) done = Some Dir) as Hd'.
      { rewrite node_at_insert by exact Hne.
        destruct (decide (done ++ [c] = done)); [contradiction | exact Hd]. }
      rewrite (grows_dir _ _ _ Hg Hd').
      destruct (IH _ _ _ H E') as [Hw Hn].
      rewrite <- app_assoc in Hn. auto.
Qed.

Lemma mkdir_at_is_dir fs l fs' :
  mkdir_at fs l = Ok fs' -> is_dir_at fs' l = true.
Proof.
  intros H. apply mkdirs_walk in H; [|reflexivity]. destruct H as [Hw Hn].
  unfold is_dir_at, stat. rewrite Hw. simpl. simpl in Hn. rewrite Hn.
  reflexivity.
Qed.

Lemma is_dir_at_ok fs l :
  is_dir_at fs l = true <-> walk fs [] l = Ok tt /\ node_at fs l = Some Dir.
Proof.
  unfold is_dir_at. split.
  - destruct (stat fs l) as [[|d]|] eqn:E; try discriminate.
    intros _. apply stat_ok. exact E.
  - intros H. apply stat_ok in H. rewrite H. reflexivity.
Qed.

Lemma is_dir_at_grows fs fs' l :
  grows fs fs' -> is_dir_at fs l = true -> is_dir_at fs' l = true.
Proof.
  intros Hg H. apply is_dir_at_ok in H. destruct H as [Hw Hn].
  apply is_dir_at_ok. split; [eapply walk_grows; eauto|].
  eapply grows_dir; eauto.
Qed.

Lemma is_dir_at_exists fs l : is_dir_at fs l = true -> exists_at fs l = true.
Proof.
  unfold is_dir_at, exists_at. destruct (stat fs l) as [[|d]|]; auto.
Qed.

Section Prepare.

Variable cwd : loc.

Lemma catalog_step src fs2 fs3 :
  (if negb (path_exists cwd (final_path </> "arccreate.litedb") fs2)
   then shutil_copy cwd src (final_path </> "arccreate.litedb") fs2
   else Ok fs2) = Ok fs3 ->
  grows fs2 fs3 /\
  path_exists cwd (final_path </> "arccreate.litedb") fs3 = true /\
  (path_exists cwd (final_path </> "arccreate.litedb") fs2 = true ->
   fs3 = fs2).
Proof.
  destruct (path_exists cwd (final_path </> "arccreate.litedb") fs2) eqn:E;
    simpl.
  - intros [= <-]. split; [apply grows_refl | auto].
  - unfold shutil_copy.
    assert (is_dir_at fs2 (locate cwd (final_path </> "arccreate.litedb"))
            = false) as ->.
    { destruct (is_dir_at fs2 _) eqn:Ed; [|reflexivity].
      apply is_dir_at_exists in Ed. unfold path_exists in E. congruence. }
    intros H. split; [eapply copyfile_grows; eauto|].
    split; [eapply copyfile_exists; eauto | discriminate].
Qed.

(** The ways the preparation can go once [sys.argv] has its two
    arguments. *)
Lemma prepare_cases argv fs a1 a2 :
  py_index argv 1 = Ok a1 -> py_index argv 2 = Ok a2 ->
  let r := prepare cwd argv fs in
  let ask := Message.ask "Preparing ..." in
  (path_exists cwd litedb_path fs = false /\
   r = {| p_outcome := Exits 1; p_fs := fs;
          p_console :=
            [ask; Message.error "ArcUnpack.LiteDB not found!"] |}) \/
  (path_exists cwd litedb_path fs = true /\
   path_exists cwd (parse_path a1) fs = false /\
   path_exists cwd extracted_romfs_path fs = false /\
   r = {| p_outcome := Exits 1; p_fs := fs;
          p_console := [ask; Message.error "Input romfs not found!"] |}) \/
  (path_exists cwd litedb_path fs = true /\
   (path_exists cwd (parse_path a1) fs = true \/
    path_exists cwd extracted_romfs_path fs = true) /\
   let out :=
     ask :: (if path_exists cwd (parse_path a1) fs then []
             else [Message.warning
                     "Extracted romfs found, skipping extraction..."]) in
   ((exists e,
       mkdir cwd extracted_romfs_path fs = Err e /\
       r = {| p_outcome := Raises e; p_fs := fs; p_console := out |}) \/
    (exists fs1 e,
       mkdir cwd extracted_romfs_path fs = Ok fs1 /\
       mkdir cwd final_path fs1 = Err e /\
       r = {| p_outcome := Raises e; p_fs := fs1; p_console := out |}) \/
    (exists fs1 fs2 e,
       mkdir cwd extracted_romfs_path fs = Ok fs1 /\
       mkdir cwd final_path fs1 = Ok fs2 /\
       (if negb (path_exists cwd (final_path </> "arccreate.litedb") fs2)
        then shutil_copy cwd (parse_path a2)
               (final_path </> "arccreate.litedb") fs2
        else Ok fs2) = Err e /\
       r = {| p_outcome := Raises e; p_fs := fs2; p_console := out |}) \/
    (exists fs1 fs2 fs3,
       mkdir cwd extracted_romfs_path fs = Ok fs1 /\
       mkdir cwd final_path fs1 = Ok fs2 /\
       (if negb (path_exists cwd (final_path </> "arccreate.litedb") fs2)
        then shutil_copy cwd (parse_path a2)
               (final_path </> "arccreate.litedb") fs2
        else Ok fs2) = Ok fs3 /\
       r = {| p_outcome := Continues; p_fs := fs3; p_console := out |}))).
Proof.
  intros H1 H2 r ask. subst r. unfold prepare. rewrite H1. simpl.
  rewrite H2. simpl.
  destruct (path_exists cwd litedb_path fs) eqn:Hl; simpl; [|left; auto].
  right.
  destruct (path_exists cwd (parse_path a1) fs) eqn:Hi; simpl.
  - right. split; [reflexivity|]. split; [auto|].
    destruct (mkdir cwd extracted_romfs_path fs) as [fs1|e] eqn:E1;
      [|left; eauto].
    destruct (mkdir cwd final_path fs1) as [fs2|e] eqn:E2;
      [|right; left; eauto].
    destruct (if negb (path_exists cwd (final_path </> "arccreate.litedb")
                         fs2) then _ else _) as [fs3|e] eqn:E3;
      [|right; right; left; eauto 10].
    right; right; right. exists fs1, fs2, fs3.
    destruct (catalog_step _ _ _ E3) as (_ & Hex & _).
    unfold LiteDB_init. rewrite Hex. simpl. auto.
  - destruct (path_exists cwd extracted_romfs_path fs) eqn:He; simpl;
      [|left; auto].
    right. split; [reflexivity|]. split; [auto|].
    destruct (mkdir cwd extracted_romfs_path fs) as [fs1|e] eqn:E1;
      [|left; eauto].
    destruct (mkdir cwd final_path fs1) as [fs2|e] eqn:E2;
      [|right; left; eauto].
    destruct (if negb (path_exists cwd (final_path </> "arccreate.litedb")
                         fs2) then _ else _) as [fs3|e] eqn:E3;
      [|right; right; left; eauto 10].
    right; right; right. exists fs1, fs2, fs3.
    destruct (catalog_step _ _ _ E3) as (_ & Hex & _).
    unfold LiteDB_init. rewrite Hex. simpl. auto.
Qed.

(** X15.  With its two arguments the preparation exits exactly when the
    LiteDB tool is missing, or when the input directory and the staging
    directory are both missing.  It exits with code 1, having changed
    nothing on the disk, after one line on the standard output and one
    error line on the standard error. *)
Theorem preparation_exits_without_its_files argv fs a1 a2 :
  py_index argv 1 = Ok a1 -> py_index argv 2 = Ok a2 ->
  let r := prepare cwd argv fs in
  ((exists code, p_outcome r = Exits code) <->
   path_exists cwd litedb_path fs = false \/
   (path_exists cwd (parse_path a1) fs = false /\
    path_exists cwd extracted_romfs_path fs = false)) /\
  (forall code,
     p_outcome r = Exits code ->
     code = 1 /\ p_fs r = fs /\
     map fst (p_console r) = [Message.stdout; Message.stderr] /\
     exists m,
       p_console r = [Message.ask "Preparing ..."; Message.error m]).
Proof.
  intros H1 H2 r.
  destruct (prepare_cases argv fs a1 a2 H1 H2)
    as [(Hl & Hr)|[(Hl & Hi & He & Hr)|(Hl & Hie & Hr)]];
    fold r in Hr.
  - rewrite Hr. simpl. split.
    + split; [auto | eauto].
    + intros code [= <-]. eauto 10.
  - rewrite Hr. simpl. split.
    + split; [auto | eauto].
    + intros code [= <-]. eauto 10.
  - cbv zeta in Hr.
    assert (forall code, p_outcome r <> Exits code) as Hno.
    { intros code.
      destruct Hr as [(e & _ & ->)|[(fs1 & e & _ & _ & ->)|
                     [(fs1 & fs2 & e & _ & _ & _ & ->)|
                      (fs1 & fs2 & fs3 & _ & _ & _ & ->)]]];
        discriminate. }
    split.
    + split.
      * intros [code Hc]. destruct (Hno _ Hc).
      * intros [Hl'|[Hi He]]; [congruence|].
        destruct Hie; congruence.
    + intros code Hc. destruct (Hno _ Hc).
Qed.

(** X16.  When the preparation lets the script go on, the staging
    directory and [final] are directories, a catalog is at
    [final/arccreate.litedb], and nothing that was on the disk is gone.
    A catalog that was there before is left as it was: the input catalog
    is copied only when there is none. *)
Theorem prepared_catalog_is_in_place argv fs :
  let r := prepare cwd argv fs in
  let db := final_path </> "arccreate.litedb" in
  p_outcome r = Continues ->
  grows fs (p_fs r) /\
  is_dir_at (p_fs r) (locate cwd extracted_romfs_path) = true /\
  is_dir_at (p_fs r) (locate cwd final_path) = true /\
  path_exists cwd db (p_fs r) = true /\
  (forall data,
     read_at fs (locate cwd db) = Ok data ->
     read_at (p_fs r) (locate cwd db) = Ok data).
Proof.
  intros r db Hc.
  destruct (py_index argv 1) as [a1|e1] eqn:H1.
  2:{ subst r. unfold prepare in Hc. rewrite H1 in Hc. discriminate. }
  destruct (py_index argv 2) as [a2|e2] eqn:H2.
  2:{ subst r. unfold prepare in Hc. rewrite H1 in Hc. simpl in Hc.
      rewrite H2 in Hc. discriminate. }
  destruct (prepare_cases argv fs a1 a2 H1 H2)
    as [(_ & Hr)|[(_ & _ & _ & Hr)|(_ & _ & Hr)]];
    fold r in Hr; try (rewrite Hr in Hc; discriminate).
  cbv zeta in Hr.
  destruct Hr as [(e & _ & Hr)|[(fs1 & e & _ & _ & Hr)|
                 [(fs1 & fs2 & e & _ & _ & _ & Hr)|
                  (fs1 & fs2 & fs3 & Hm1 & Hm2 & Hcp & Hr)]]];
    try (rewrite Hr in Hc; discriminate).
  rewrite Hr. simpl. clear Hr Hc r.
  destruct (catalog_step _ _ _ Hcp) as (Hg3 & Hex & Hsame).
  pose proof (mkdir_at_grows _ _ _ Hm1) as Hg1.
  pose proof (mkdir_at_grows _ _ _ Hm2) as Hg2.
  split; [eauto using grows_trans|].
  split.
  { eapply is_dir_at_grows; [exact Hg3|].
    eapply is_dir_at_grows; [exact Hg2|].
    eapply mkdir_at_is_dir. exact Hm1. }
  split.
  { eapply is_dir_at_grows; [exact Hg3|].
    eapply mkdir_at_is_dir. exact Hm2. }
  split; [exact Hex|].
  intros data Hread.
  assert (read_at fs2 (locate cwd db) = Ok data) as Hread2.
  { eapply read_at_grows_other; [exact Hg2 | |].
    - intros d Hd. apply mkdirs_spec in Hm2. destruct Hm2 as (_ & Hk & _).
      auto.
    - eapply read_at_grows_other; [exact Hg1 | | exact Hread].
      intros d Hd. apply mkdirs_spec in Hm1. destruct Hm1 as (_ & Hk & _).
      auto. }
  rewrite Hsame; [exact Hread2|].
  apply exists_at_ok. apply read_at_ok in Hread2.
  destruct Hread2 as [Hw Hn]. split; [exact Hw | eauto].
Qed.

(** X17.  The preparation lets the script go on when the LiteDB tool is
    there, the input directory or the staging directory is there, the two
    directories can be made, and a catalog is in [final] already or the
    input catalog is a file: making the LiteDB handle raises nothing.
    The skipped extraction is announced by a warning, when the input
    directory is missing. *)
Theorem preparation_goes_on argv fs a1 a2 fs1 fs2 :
  py_index argv 1 = Ok a1 -> py_index argv 2 = Ok a2 ->
  path_exists cwd litedb_path fs = true ->
  path_exists cwd (parse_path a1) fs = true \/
  path_exists cwd extracted_romfs_path fs = true ->
  mkdir cwd extracted_romfs_path fs = Ok fs1 ->
  mkdir cwd final_path fs1 = Ok fs2 ->
  path_exists cwd (final_path </> "arccreate.litedb") fs2 = true \/
  is_file cwd (parse_path a2) fs2 = true ->
  let r := prepare cwd argv fs in
  p_outcome r = Continues /\
  p_console r
  = Message.ask "Preparing ..."
      :: (if path_exists cwd (parse_path a1) fs then []
          else [Message.warning
                  "Extracted romfs found, skipping extraction..."]).
Proof.
  intros H1 H2 Hl Hie Hm1 Hm2 Hdb r.
  assert (exists fs3,
            (if negb (path_exists cwd (final_path </> "arccreate.litedb")
                        fs2)
             then shutil_copy cwd (parse_path a2)
                    (final_path </> "arccreate.litedb") fs2
             else Ok fs2) = Ok fs3) as [fs3 Hcp].
  { destruct (path_exists cwd (final_path </> "arccreate.litedb") fs2)
      eqn:Hex; simpl; [eauto|].
    destruct Hdb as [Hdb|Hsrc]; [discriminate|].
    unfold shutil_copy.
    assert (is_dir_at fs2 (locate cwd (final_path </> "arccreate.litedb"))
            = false) as ->.
    { destruct (is_dir_at fs2 _) eqn:Ed; [|reflexivity].
      apply is_dir_at_exists in Ed. unfold path_exists in Hex. congruence. }
    unfold copyfile, copyfile_at.
    assert (locate cwd (parse_path a2)
            <> locate cwd (final_path </> "arccreate.litedb")) as Hne.
    { intros Heq. unfold is_file in Hsrc. rewrite Heq in Hsrc.
      apply is_file_exists in Hsrc. unfold path_exists in Hex. congruence. }
    rewrite bool_decide_eq_false_2 by exact Hne. simpl.
    unfold is_file, is_file_at in Hsrc. unfold read_at.
    destruct (stat fs2 (locate cwd (parse_path a2))) as [[|data]|];
      try discriminate.
    simpl. unfold write_at.
    pose proof (mkdir_at_is_dir _ _ _ Hm2) as Hd.
    apply is_dir_at_ok in Hd. destruct Hd as [Hw Hn].
    assert (locate cwd (final_path </> "arccreate.litedb")
            = locate cwd final_path ++ ["arccreate.litedb"]) as Hloc.
    { change (cwd ++ ["final"; "arccreate.litedb"]
              = (cwd ++ ["final"]) ++ ["arccreate.litedb"]).
      rewrite <- app_assoc. reflexivity. }
    unfold path_exists in Hex. rewrite Hloc in *.
    rewrite (walk_into_dir _ _ _ _ Hw Hn). simpl.
    unfold exists_at, stat in Hex.
    rewrite (walk_into_dir _ _ _ _ Hw Hn) in Hex. simpl in Hex.
    destruct (node_at fs2 (locate cwd final_path ++ ["arccreate.litedb"]));
      [discriminate | eauto]. }
  destruct (prepare_cases argv fs a1 a2 H1 H2)
    as [(Hl' & _)|[(_ & Hi & He & _)|(_ & _ & Hr)]];
    [congruence | destruct Hie; congruence |].
  fold r in Hr. cbv zeta in Hr.
  destruct Hr as [(e & He & _)|[(f1 & e & Hf1 & He & _)|
                 [(f1 & f2 & e & Hf1 & Hf2 & He & _)|
                  (f1 & f2 & f3 & _ & _ & _ & ->)]]].
  - congruence.
  - rewrite Hm1 in Hf1. injection Hf1 as <-. congruence.
  - rewrite Hm1 in Hf1. injection Hf1 as <-.
    rewrite Hm2 in Hf2. injection Hf2 as <-. congruence.
  - simpl. auto.
Qed.

End Prepare.

(** ** Dates in the JSON text *)

Lemma string_app_assoc (a b c : string) : (a +:+ b) +:+ c = a +:+ (b +:+ c).
Proof.
  induction a as [|x a IH]; [reflexivity|].
  change (String x ((a +:+ b) +:+ c) = String x (a +:+ (b +:+ c))).
  rewrite IH. reflexivity.
Qed.

Lemma unquote_from_skip (a b : string) :
  unquote_from (String.length a) (a +:+ b) = unquote_from 0 b.
Proof.
  induction a as [|x a IH]; [reflexivity|].
  change (String x a +:+ b) with (String x (a +:+ b)). simpl. exact IH.
Qed.

Lemma quote_is_no_digit : is_digit quote = false.
Proof. reflexivity. Qed.

Lemma digit_is_no_quote (c : ascii) :
  is_digit c = true -> Ascii.eqb c quote = false.
Proof.
  intros H. destruct (Ascii.eqb_spec c quote) as [->|]; [|reflexivity].
  discriminate.
Qed.

Lemma span_digits_spec (s ds rest : string) :
  span_digits s = (ds, rest) ->
  s = ds +:+ rest /\ all_digits ds = true /\ no_quote ds = true.
Proof.
  revert ds rest. induction s as [|c s IH]; intros ds rest H; simpl in H.
  - injection H as <- <-. auto.
  - destruct (is_digit c) eqn:Hc.
    + destruct (span_digits s) as [ds' rest'].
      injection H as <- <-. destruct (IH _ _ eq_refl) as (-> & Hd & Hq).
      split; [reflexivity|]. simpl.
      rewrite Hc, Hd, Hq, (digit_is_no_quote _ Hc). auto.
    + injection H as <- <-. auto.
Qed.


(** What a match looks like. *)
Lemma match_date_spec (s g : string) (n : nat) :
  match_date s = Some (g, n) ->
  exists ds rest,
    s = quoted (String "d" ds) +:+ rest /\
    g = String "d" ds /\ ds <> "" /\
    all_digits ds = true /\ no_quote g = true /\
    n = (String.length ds + 3)%nat.
Proof.
  unfold match_date. destruct s as [|q [|d s1]]; try discriminate.
  destruct (Ascii.eqb_spec q quote) as [->|]; [|discriminate].
  destruct (Ascii.eqb_spec d "d") as [->|]; [|discriminate]. simpl.
  destruct (span_digits s1) as [ds r] eqn:E.
  destruct ds as [|c ds]; [discriminate|].
  destruct r as [|q' rest]; [discriminate|].
  destruct (Ascii.eqb_spec q' quote) as [->|]; [|discriminate].
  intros [= <- <-]. apply span_digits_spec in E.
  destruct E as (-> & Hd & Hq).
  exists (String c ds), rest. unfold quoted.
  split.
  { change (String quote (String "d" (String c ds) +:+ String quote "")
              +:+ rest)
      with (String quote
              ((String "d" (String c ds) +:+ String quote "") +:+ rest)).
    rewrite string_app_assoc. reflexivity. }
  split; [reflexivity|]. split; [discriminate|]. split; [exact Hd|].
  split; [|reflexivity].
  change (no_quote (String "d" (String c ds)))
    with (negb (Ascii.eqb "d" quote) && no_quote (String c ds)).
  rewrite Hq. reflexivity.
Qed.


(** A match gives way to its group, and the scan goes on behind it. *)
Lemma unquote_dates_match (g rest : string) (n : nat) :
  match_date (quoted g +:+ rest) = Some (g, n) ->
  unquote_dates (quoted g +:+ rest) = g +:+ unquote_dates rest.
Proof.
  intros H. pose proof (match_date_spec _ _ _ H) as (ds & r & _ & Hg & _ & _
                                                     & _ & Hn).
  unfold unquote_dates. unfold quoted in *.
  change (String quote (g +:+ String quote "") +:+ rest)
    with (String quote ((g +:+ String quote "") +:+ rest)) in *.
  cbn [unquote_from]. rewrite H. f_equal.
  rewrite Hn, <- (unquote_from_skip (g +:+ String quote "") rest).
  f_equal. rewrite length_append, Hg. simpl. lia.
Qed.

Lemma unquote_dates_no_match (c : ascii) (s : string) :
  match_date (String c s) = None ->
  unquote_dates (String c s) = String c (unquote_dates s).
Proof.
  intros H. unfold unquote_dates. cbn [unquote_from]. rewrite H. reflexivity.
Qed.

Lemma drop_quotes_app (a b : string) :
  drop_quotes (a +:+ b) = drop_quotes a +:+ drop_quotes b.
Proof.
  induction a as [|c a IH]; [reflexivity|].
  change (String c a +:+ b) with (String c (a +:+ b)). simpl.
  rewrite IH. destruct (Ascii.eqb c quote); reflexivity.
Qed.

Lemma drop_quotes_no_quote (s : string) :
  no_quote s = true -> drop_quotes s = s.
Proof.
  induction s as [|c s IH]; [reflexivity|]. simpl. intros H.
  apply andb_true_iff in H. destruct H as [Hc Hs].
  destruct (Ascii.eqb c quote); [discriminate|]. rewrite (IH Hs).
  reflexivity.
Qed.

Lemma drop_quotes_quoted (g : string) :
  no_quote g = true -> drop_quotes (quoted g) = g.
Proof.
  intros H. unfold quoted.
  change (drop_quotes (String quote (g +:+ String quote "")))
    with (drop_quotes (g +:+ String quote "")).
  rewrite drop_quotes_app, (drop_quotes_no_quote _ H).
  change (drop_quotes (String quote "")) with "".
  clear. induction g as [|c g IH]; [reflexivity|].
  change (String c g +:+ "") with (String c (g +:+ "")). rewrite IH.
  reflexivity.
Qed.

Lemma unquote_dates_drop_quotes_upto (n : nat) : forall s,
  (String.length s <= n)%nat ->
  drop_quotes (unquote_dates s) = drop_quotes s.
Proof.
  induction n as [|n IH]; intros s Hlen.
  - destruct s; [reflexivity | simpl in Hlen; lia].
  - destruct s as [|c s]; [reflexivity|].
    destruct (match_date (String c s)) as [[g k]|] eqn:E.
    + pose proof (match_date_spec _ _ _ E)
        as (ds & rest & Hs & Hg & _ & _ & Hq & _).
      rewrite Hs, <- Hg in *.
      rewrite (unquote_dates_match _ _ _ E), !drop_quotes_app.
      rewrite (drop_quotes_quoted _ Hq), (drop_quotes_no_quote _ Hq).
      f_equal. apply IH.
      rewrite length_append in Hlen. unfold quoted in Hlen.
      simpl in Hlen. lia.
    + rewrite (unquote_dates_no_match _ _ E). simpl.
      rewrite IH by (simpl in Hlen; lia). reflexivity.
Qed.

(** X18.  Taking the quotes off the dates takes nothing but quote
    characters away: the text without its quotes is the same before and
    after, and text without a quote is left as it is. *)
Theorem unquoting_removes_only_quotes :
  (forall s, drop_quotes (unquote_dates s) = drop_quotes s) /\
  (forall s, no_quote s = true -> unquote_dates s = s).
Proof.
  split.
  - intros s. apply (unquote_dates_drop_quotes_upto (String.length s)). lia.
  - induction s as [|c s IH]; [reflexivity|]. simpl. intros H.
    apply andb_true_iff in H. destruct H as [Hc Hs].
    rewrite unquote_dates_no_match, (IH Hs); [reflexivity|].
    unfold match_date. destruct s; [reflexivity|].
    destruct (Ascii.eqb c quote); [discriminate | reflexivity].
Qed.


(** ** The order of the packs *)

Lemma string_leb_trans (a b c : string) :
  String.leb a b = true -> String.leb b c = true -> String.leb a c = true.
Proof.
  unfold String.leb. revert b c.
  induction a as [|x a IH]; intros [|y b] [|z c]; simpl; try congruence.
  destruct (Ascii.compare x y) eqn:Exy.
  - apply Ascii.compare_eq_iff in Exy. subst y.
    destruct (Ascii.compare x z); [apply IH | reflexivity | congruence].
  - intros _. destruct (Ascii.compare y z) eqn:Eyz.
    + apply Ascii.compare_eq_iff in Eyz. subst z. rewrite Exy. reflexivity.
    + unfold Ascii.compare in *. rewrite N.compare_lt_iff in Exy, Eyz.
      assert ((N_of_ascii x ?= N_of_ascii z)%N = Lt) as ->;
        [apply N.compare_lt_iff; lia | reflexivity].
    + congruence.
  - congruence.
Qed.

Lemma names_ascend_trans : Transitive names_ascend.
Proof. intros a b c. unfold names_ascend. apply string_leb_trans. Qed.

Lemma NoDup_map_inj {A B} (f : A -> B) (l : list A) (x y : A) :
  NoDup (map f l) -> x ∈ l -> y ∈ l -> f x = f y -> x = y.
Proof.
  induction l as [|a l IH]; intros Hnd Hx Hy Heq.
  - apply elem_of_nil in Hx. destruct Hx.
  - simpl in Hnd. apply NoDup_cons in Hnd. destruct Hnd as [Ha Hnd].
    apply elem_of_cons in Hx. apply elem_of_cons in Hy.
    destruct Hx as [->|Hx], Hy as [->|Hy].
    + reflexivity.
    + exfalso. apply Ha. rewrite Heq. apply list_elem_of_fmap. eauto.
    + exfalso. apply Ha. rewrite <- Heq. apply list_elem_of_fmap. eauto.
    + apply IH; assumption.
Qed.

Lemma sort_packs_unique (packs packs' : list PackFile) :
  Permutation packs packs' -> NoDup (map pack_name packs) ->
  sort_packs packs = sort_packs packs'.
Proof.
  intros Hp Hnd.
  apply (StronglySorted_unique_strong names_ascend).
  - intros x1 x2 H1 H2 H12 H21.
    apply (NoDup_map_inj pack_name packs); [exact Hnd | | |].
    + rewrite <- (sort_packs_perm packs). exact H1.
    + rewrite Hp, <- (sort_packs_perm packs'). exact H2.
    + apply String.leb_antisym; assumption.
  - apply (@Sorted_StronglySorted _ _ names_ascend_trans).
    apply sort_packs_sorted.
  - apply (@Sorted_StronglySorted _ _ names_ascend_trans).
    apply sort_packs_sorted.
  - rewrite !sort_packs_perm. exact Hp.
Qed.

(** X20.  The order in which the glob yields the pack files of the input
    directory does not matter: file names being different from one
    another, every order gives the same extraction. *)
Theorem glob_order_does_not_matter cwd max_offset max_length packs packs' fs :
  Permutation packs packs' -> NoDup (map pack_name packs) ->
  extract_romfs cwd max_offset max_length packs fs
  = extract_romfs cwd max_offset max_length packs' fs.
Proof.
  intros Hp Hnd. unfold extract_romfs.
  rewrite (sort_packs_unique _ _ Hp Hnd). reflexivity.
Qed.

(** ** The copies of a song *)

Lemma aff_name_not_base (s : string) :
  s +:+ ".aff" <> "base.ogg" /\ s +:+ ".aff" <> "base.jpg".
Proof.
  split; intros H;
    (assert (String.length s = 4%nat) as Hlen
       by (apply (f_equal String.length) in H; rewrite length_append in H;
           simpl in H; lia));
    destruct s as [|c1 [|c2 [|c3 [|c4 [|c5 s]]]]]; try discriminate;
    cbv in H; congruence.
Qed.

Section Copies.

Variable cwd : loc.

Lemma locate_join (p : Path) (s : string) :
  no_slash s = true -> s <> "" -> s <> "." ->
  locate cwd (p </> s) = locate cwd p ++ [s].
Proof.
  intros Hs He Hd. rewrite (joinpath_name _ _ Hs He Hd). unfold locate.
  simpl. destruct (String.eqb (anchor p) ""); [|reflexivity].
  apply app_assoc.
Qed.

Lemma copyfile_reads src dst fs fs' :
  copyfile cwd src dst fs = Ok fs' ->
  exists data,
    read_at fs (locate cwd src) = Ok data /\
    read_at fs' (locate cwd dst) = Ok data /\
    fs' = <[locate cwd dst := File data]> fs.
Proof.
  intros H. apply copyfile_at_ok in H. destruct H as (data & Hr & Hw).
  exists data. split; [exact Hr|]. split; [eapply write_at_read; eauto|].
  apply write_at_ok in Hw. tauto.
Qed.

(** A copy to another place leaves a file as it is. *)
Lemma copyfile_keeps src dst fs fs' l data :
  copyfile cwd src dst fs = Ok fs' -> locate cwd dst <> l ->
  read_at fs l = Ok data -> read_at fs' l = Ok data.
Proof.
  intros H Hne Hr. pose proof (copyfile_grows _ _ _ _ _ H) as Hg.
  apply copyfile_reads in H. destruct H as (d & _ & _ & ->).
  eapply read_at_grows_other; [exact Hg | | exact Hr].
  intros d0 Hd0. rewrite lookup_insert_ne by exact Hne. exact Hd0.
Qed.

Lemma read_at_exists fs l data : read_at fs l = Ok data -> exists_at fs l = true.
Proof.
  intros H. apply read_at_ok in H. destruct H as [Hw Hn].
  apply exists_at_ok. split; [exact Hw | eauto].
Qed.

(** The difficulty loop leaves [base.ogg] and [base.jpg] as they are. *)
Lemma convert_diffs_keep_base song (t : string) data diffs st st' :
  t = "base.ogg" \/ t = "base.jpg" ->
  foldM (convert_diff cwd song) st diffs = Ok st' ->
  read_at (snd st) (locate cwd (song_root_path song) ++ [t]) = Ok data ->
  read_at (snd st') (locate cwd (song_root_path song) ++ [t]) = Ok data.
Proof.
  intros Ht H Hst.
  apply (foldM_invariant
           (fun s => read_at (snd s) (locate cwd (song_root_path song) ++ [t])
                     = Ok data)
           (convert_diff cwd song) diffs) with (s := st);
    [| exact Hst | exact H].
  clear H Hst st st'.
  intros [[charts bgs] fs] diff [[charts' bgs'] fs'] _ Hs Hstep.
  simpl in Hs |- *. apply convert_diff_ok in Hstep.
  destruct Hstep as (chart & fs1 & Hc & _ & _ & Hbg).
  assert (read_at fs1 (locate cwd (song_root_path song) ++ [t]) = Ok data)
    as H1.
  { eapply copyfile_keeps; [exact Hc | | exact Hs].
    rewrite chart_path_name.
    destruct (aff_name_is_name _ (no_slash_str_int (ratingClass diff)))
      as (Hn1 & Hn2 & Hn3).
    rewrite (locate_join _ _ Hn1 Hn2 Hn3). intros Heq.
    apply app_inj_tail in Heq. destruct Heq as [_ Heq].
    destruct (aff_name_not_base (str_int (ratingClass diff))) as [Ho Hj].
    destruct Ht as [-> | ->]; contradiction. }
  simpl in Hbg. destruct Hbg as [(_ & _ & ->)|(Hno & Hcopy & _)];
    [exact H1|].
  eapply copyfile_keeps; [exact Hcopy | | exact H1].
  intros Heq. unfold path_exists in Hno. rewrite Heq in Hno.
  apply read_at_exists in H1. congruence.
Qed.

(** X21.  A converted song has its audio and its jacket in its working
    directory as they were staged: [base.ogg] and [base.jpg] hold the
    bytes of the files of those names under [Fallback/songs/<id>] and
    [jackets_large/songs/<id>] of the staging area, [<id>] being
    [dl_<id>] for a song flagged [remote_dl]. *)
Theorem audio_and_jacket_are_copied_verbatim i song fs lv fs' :
  convert_song cwd i song fs = Ok (lv, fs') ->
  exists audio jacket,
    fs !! locate cwd (audio_root_path </> original_id song </> "base.ogg")
      = Some (File audio) /\
    fs !! locate cwd (jacket_root_path </> original_id song </> "base.jpg")
      = Some (File jacket) /\
    read_at fs' (locate cwd (song_root_path song </> "base.ogg"))
      = Ok audio /\
    read_at fs' (locate cwd (song_root_path song </> "base.jpg"))
      = Ok jacket.
Proof.
  intros H. apply convert_song_run in H.
  destruct H as (fs1 & fs2 & fs3 & charts & bgs & Hm & Ha & Hj & Hrun & _).
  assert (forall p, locate cwd (p </> "base.ogg") = locate cwd p ++ ["base.ogg"])
    as Hogg by (intros p; apply locate_join; [reflexivity | discriminate..]).
  assert (forall p, locate cwd (p </> "base.jpg") = locate cwd p ++ ["base.jpg"])
    as Hjpg by (intros p; apply locate_join; [reflexivity | discriminate..]).
  pose proof (copyfile_reads _ _ _ _ Ha) as (audio & Hra & Hwa & Hfs2).
  pose proof (copyfile_reads _ _ _ _ Hj) as (jacket & Hrj & Hwj & Hfs3).
  exists audio, jacket.
  apply mkdirs_spec in Hm. destruct Hm as (_ & _ & Hfiles).
  split; [|split; [|split]].
  - apply Hfiles. apply read_at_ok in Hra. destruct Hra as [_ Hn].
    apply node_at_file in Hn. tauto.
  - apply Hfiles. apply read_at_ok in Hrj. destruct Hrj as [_ Hn].
    apply node_at_file in Hn. destruct Hn as [_ Hn].
    rewrite Hfs2, lookup_insert_ne in Hn; [exact Hn|].
    rewrite Hogg, Hjpg. intros Heq. apply app_inj_tail in Heq.
    destruct Heq as [_ Heq]. discriminate.
  - rewrite Hogg.
    apply (convert_diffs_keep_base song "base.ogg" audio _ _ _
             (or_introl eq_refl) Hrun).
    simpl. rewrite <- Hogg.
    eapply copyfile_keeps; [exact Hj | | exact Hwa].
    rewrite Hogg, Hjpg. intros Heq. apply app_inj_tail in Heq.
    destruct Heq as [_ Heq]. discriminate.
  - rewrite Hjpg.
    apply (convert_diffs_keep_base song "base.jpg" jacket _ _ _
             (or_intror eq_refl) Hrun).
    simpl. rewrite <- Hjpg. exact Hwj.
Qed.

End Copies.

(** ** An empty song list *)

(** [mkdir] makes directories on the way to its target, nothing else. *)
Lemma mkdirs_lookup rest : forall fs done fs' l n,
  mkdirs fs done rest = Ok fs' -> fs' !! l = Some n ->
  fs !! l = Some n \/ (n = Dir /\ l `prefix_of` done ++ rest).
Proof.
  induction rest as [|c rest IH]; intros fs done fs' l n H Hl; simpl in H.
  - injection H as <-. auto.
  - destruct (node_at fs (done ++ [c])) as [[|d]|]; try discriminate.
    + destruct (IH _ _ _ _ _ H Hl) as [E|[-> Hp]]; [auto|].
      right. split; [reflexivity|]. rewrite <- app_assoc in Hp. exact Hp.
    + destruct (IH _ _ _ _ _ H Hl) as [E|[-> Hp]].
      * rewrite lookup_insert in E.
        destruct (decide (done ++ [c] = l)) as [<-|Hne]; [|auto].
        injection E as <-. right. split; [reflexivity|].
        exists rest. rewrite <- app_assoc. reflexivity.
      * right. split; [reflexivity|]. rewrite <- app_assoc in Hp. exact Hp.
Qed.

(** Nothing is found below what is not there. *)
Lemma walk_through_nothing fs mid : forall done c rest,
  node_at fs (done ++ mid) = None ->
  is_err (walk fs done (mid ++ c :: rest)) = true.
Proof.
  induction mid as [|m mid IH]; intros done c rest H; simpl.
  - rewrite app_nil_r in H. rewrite H. reflexivity.
  - destruct (node_at fs done) as [[|d]|]; try reflexivity.
    apply IH. rewrite <- app_assoc. exact H.
Qed.

Lemma is_file_at_below_nothing fs base rel :
  base <> [] -> fs !! base = None -> is_file_at fs (base ++ rel) = false.
Proof.
  intros Hb Hn. unfold is_file_at, stat.
  assert (node_at fs base = None) as Hnode
    by (destruct base; [congruence | exact Hn]).
  destruct rel as [|c rel].
  - rewrite app_nil_r. destruct (walk fs [] base); simpl; [|reflexivity].
    rewrite Hnode. reflexivity.
  - pose proof (walk_through_nothing fs base [] c rel Hnode) as Hw.
    destruct (walk fs [] (base ++ c :: rel)); [discriminate | reflexivity].
Qed.

Section EmptySongList.

Variable cwd : loc.
Variable clock : nat -> Z.
Variable glob : filesys -> loc -> list (list string).

Lemma move_file_without_tree type_name rel cf fs :
  is_type_name type_name ->
  fs !! (cwd ++ ["final"; type_name]) = None ->
  move_file cwd type_name (cf, fs) rel = Ok (cf, fs).
Proof.
  intros Ht Hn. unfold move_file, is_file.
  rewrite (locate_glob_file _ _ _ Ht).
  change (cwd ++ ["final"; type_name] ++ rel)
    with (cwd ++ ([("final")%string; type_name] ++ rel)).
  rewrite app_assoc, is_file_at_below_nothing;
    [reflexivity | destruct cwd; discriminate | exact Hn].
Qed.

Lemma move_loop_without_tree type_name rels : forall cf fs,
  is_type_name type_name ->
  fs !! (cwd ++ ["final"; type_name]) = None ->
  foldM (move_file cwd type_name) (cf, fs) rels = Ok (cf, fs).
Proof.
  induction rels as [|rel rels IH]; intros cf fs Ht Hn; cbn [foldM];
    [reflexivity|].
  rewrite (move_file_without_tree _ _ _ _ Ht Hn). simpl.
  apply IH; assumption.
Qed.

Lemma move_tree_without_tree type_name rels cf fs :
  is_type_name type_name ->
  fs !! (cwd ++ ["final"; type_name]) = None ->
  is_err (move_tree cwd type_name rels (cf, fs)) = true.
Proof.
  intros Ht Hn. unfold move_tree.
  rewrite (move_loop_without_tree _ _ _ _ Ht Hn). simpl.
  rewrite (locate_type_dir _ _ Ht). unfold rmtree_at, stat.
  destruct (walk fs [] _); simpl; [|reflexivity].
  assert (node_at fs (cwd ++ ["final"; type_name]) = None) as ->
    by (destruct cwd; exact Hn).
  reflexivity.
Qed.

(** X14.  With an empty song list the conversion raises, unless a tree
    [final/Level] is there from before: no pack finds its level
    identifiers, and without packs there is no tree [final/Level] to
    move. *)
Theorem empty_song_list_never_converts level_count pack_count packs fs :
  fs !! (cwd ++ ["final"; "Level"]) = None ->
  is_err (convert cwd clock glob level_count pack_count [] packs fs) = true.
Proof.
  intros Hn. unfold convert. simpl.
  destruct packs as [|pack packs].
  - simpl. unfold move_files.
    destruct (mkdir cwd storage_root_path fs) as [fs1|] eqn:Hm;
      simpl; [|reflexivity].
    assert (fs1 !! (cwd ++ ["final"; "Level"]) = None) as Hn1.
    { destruct (fs1 !! (cwd ++ ["final"; "Level"])) as [n|] eqn:E;
        [|reflexivity].
      unfold mkdir, mkdir_at in Hm.
      destruct (mkdirs_lookup _ _ _ _ _ _ Hm E) as [E'|[_ Hp]];
        [congruence|].
      exfalso. simpl in Hp.
      change (locate cwd storage_root_path)
        with (cwd ++ ["final"; "storage"]) in Hp.
      apply prefix_app_inv in Hp. destruct Hp as [k Hk]. discriminate. }
    pose proof (move_tree_without_tree "Level"
                  (glob fs1 (locate cwd (final_path </> "Level"))) []
                  fs1 (or_introl eq_refl) Hn1) as He.
    destruct (move_tree cwd "Level" _ _); [discriminate | reflexivity].
  - pose proof (foldM_raises (pack_step cwd clock ∅) pack (pack :: packs)
                  (or_introl eq_refl)
                  (pack_step_raises cwd clock ∅ pack (lookup_empty _))
                  {| pl_i := pack_count + 1; converted_packs := [];
                     pl_fs := fs |}) as He.
    unfold convert_packs.
    destruct (foldM (pack_step cwd clock ∅) _ (pack :: packs));
      [discriminate | reflexivity].
Qed.

End EmptySongList.

(** ** The staging area *)

Lemma split_slash_parts (s : string) :
  Forall (fun c => no_slash c = true) (split_slash s).
Proof.
  induction s as [|c s IH]; simpl.
  - repeat constructor.
  - destruct (Ascii.eqb c "/") eqn:E.
    + constructor; [reflexivity | exact IH].
    + destruct (split_slash s) as [|x xs]; simpl.
      * repeat constructor. simpl. rewrite E. reflexivity.
      * apply Forall_cons in IH. destruct IH as [Hx Hxs].
        constructor; [|exact Hxs]. simpl. rewrite E, Hx. reflexivity.
Qed.

Lemma parse_path_parts (s : string) :
  Forall (fun c => no_slash c = true) (parts (parse_path s)).
Proof.
  unfold parse_path. simpl.
  induction (split_slash_parts s) as [|c l Hc _ IH]; simpl;
    [constructor|].
  destruct (is_component c); [constructor; assumption | exact IH].
Qed.

Lemma joinpath_parts (p : Path) (s : string) :
  Forall (fun c => no_slash c = true) (parts p) ->
  Forall (fun c => no_slash c = true) (parts (p </> s)).
Proof.
  intros Hp. unfold joinpath.
  destruct (String.eqb (anchor (parse_path s)) ""); simpl.
  - apply Forall_app. split; [exact Hp | apply parse_path_parts].
  - apply parse_path_parts.
Qed.

Lemma name_no_slash (p : Path) :
  Forall (fun c => no_slash c = true) (parts p) -> no_slash (name p) = true.
Proof.
  unfold name. induction 1 as [|c l Hc _ IH]; [reflexivity|].
  destruct l; [exact Hc | exact IH].
Qed.

(** A path below [final], relative to the working directory. *)
Lemma joinpath_in_final (p : Path) (s : string) :
  no_slash s = true ->
  anchor p = "" /\ (exists rest, parts p = "final" :: rest) ->
  anchor (p </> s) = "" /\ (exists rest, parts (p </> s) = "final" :: rest).
Proof.
  intros Hs [Ha [rest Hp]]. unfold joinpath.
  assert (anchor (parse_path s) = "") as Hq.
  { unfold parse_path. simpl. rewrite (leading_slashes_no_slash _ Hs).
    reflexivity. }
  rewrite Hq. simpl. split; [exact Ha|]. rewrite Hp. simpl. eauto.
Qed.

Section Staging.

Variable cwd : loc.

Lemma locate_in_final (p : Path) :
  anchor p = "" /\ (exists rest, parts p = "final" :: rest) ->
  exists rest, locate cwd p = cwd ++ "final" :: rest.
Proof.
  intros [Ha [rest Hp]]. unfold locate. rewrite Ha, Hp. simpl. eauto.
Qed.

Lemma staging_not_in_final (l rest : loc) :
  under (cwd ++ ["extracted_romfs"]) l -> l `prefix_of` cwd ++ "final" :: rest ->
  False.
Proof.
  intros [k ->] [k' Hk']. rewrite <- !app_assoc in Hk'.
  apply app_inv_head in Hk'. discriminate.
Qed.

Lemma mkdir_keeps_staging (p : Path) fs fs' l :
  anchor p = "" /\ (exists rest, parts p = "final" :: rest) ->
  mkdir cwd p fs = Ok fs' ->
  under (cwd ++ ["extracted_romfs"]) l -> fs' !! l = fs !! l.
Proof.
  intros Hp H Hl. destruct (locate_in_final _ Hp) as [rest Hloc].
  unfold mkdir, mkdir_at in H. rewrite Hloc in H.
  pose proof (mkdirs_spec _ _ _ _ H) as (_ & Hk & _).
  destruct (fs' !! l) as [n|] eqn:E.
  - destruct (mkdirs_lookup _ _ _ _ _ _ H E) as [E'|[_ Hpre]];
      [congruence|].
    exfalso. eapply staging_not_in_final; eauto.
  - destruct (fs !! l) as [n|] eqn:E'; [|reflexivity].
    rewrite (Hk _ _ E') in E. discriminate.
Qed.

Lemma copyfile_keeps_staging (src dst : Path) fs fs' l :
  anchor dst = "" /\ (exists rest, parts dst = "final" :: rest) ->
  copyfile cwd src dst fs = Ok fs' ->
  under (cwd ++ ["extracted_romfs"]) l -> fs' !! l = fs !! l.
Proof.
  intros Hp H Hl. destruct (locate_in_final _ Hp) as [rest Hloc].
  apply copyfile_reads in H. destruct H as (data & _ & _ & ->).
  rewrite Hloc. apply lookup_insert_ne. intros <-.
  eapply staging_not_in_final; [exact Hl | reflexivity].
Qed.

Lemma final_in_final :
  anchor final_path = "" /\ (exists rest, parts final_path = "final" :: rest).
Proof. split; [reflexivity | exists []; reflexivity]. Qed.

Lemma song_root_in_final song :
  no_slash (song_set song) = true /\ no_slash (song_id song) = true ->
  anchor (song_root_path song) = "" /\
  (exists rest, parts (song_root_path song) = "final" :: rest).
Proof.
  intros [Hs Hi]. unfold song_root_path.
  apply joinpath_in_final.
  - unfold new_id. rewrite !no_slash_app, Hs, Hi. reflexivity.
  - apply joinpath_in_final; [reflexivity | apply final_in_final].
Qed.

Lemma background_name_no_slash song diff :
  no_slash (name (background_path song diff)) = true.
Proof.
  apply name_no_slash. unfold background_path.
  destruct (negb (String.eqb (song_bg song) ""));
    apply joinpath_parts; repeat constructor.
Qed.

Lemma convert_song_keeps_staging i song fs lv fs' l :
  no_slash (song_set song) = true /\ no_slash (song_id song) = true ->
  convert_song cwd i song fs = Ok (lv, fs') ->
  under (cwd ++ ["extracted_romfs"]) l -> fs' !! l = fs !! l.
Proof.
  intros Hsong H Hl. pose proof (song_root_in_final _ Hsong) as Hroot.
  apply convert_song_run in H.
  destruct H as (fs1 & fs2 & fs3 & charts & bgs & Hm & Ha & Hj & Hrun & _).
  rewrite <- (mkdir_keeps_staging _ _ _ l Hroot Hm Hl).
  rewrite <- (copyfile_keeps_staging _ _ _ _ l
                (joinpath_in_final _ "base.ogg" eq_refl Hroot) Ha Hl).
  rewrite <- (copyfile_keeps_staging _ _ _ _ l
                (joinpath_in_final _ "base.jpg" eq_refl Hroot) Hj Hl).
  apply (foldM_invariant
           (fun st : list Chart * list Path * filesys =>
              snd st !! l = fs3 !! l)
           (convert_diff cwd song) (song_difficulties song))
    with (s := ([], [], fs3)) (s' := (charts, bgs, fs'));
    [| reflexivity | exact Hrun].
  intros [[cs bs] f0] diff [[cs' bs'] f1] _ Hst Hstep. simpl in *.
  apply convert_diff_ok in Hstep.
  destruct Hstep as (chart & f2 & Hc & _ & _ & Hbg).
  rewrite <- Hst.
  assert (no_slash (name (chart_path song diff)) = true) as Hcn.
  { rewrite chart_path_name. apply aff_name_is_name, no_slash_str_int. }
  rewrite <- (copyfile_keeps_staging _ _ _ _ l
                (joinpath_in_final _ _ Hcn Hroot) Hc Hl).
  simpl in Hbg. destruct Hbg as [(_ & _ & ->)|(_ & Hcopy & _)];
    [reflexivity|].
  apply (copyfile_keeps_staging _ _ _ _ l
           (joinpath_in_final _ _ (background_name_no_slash song diff) Hroot)
           Hcopy Hl).
Qed.

Lemma convert_pack_keeps_staging ids i now pack fs cp fs' l :
  no_slash (pack_new_id pack) = true ->
  convert_pack cwd ids i now pack fs = Ok (cp, fs') ->
  under (cwd ++ ["extracted_romfs"]) l -> fs' !! l = fs !! l.
Proof.
  intros Hid H Hl. apply convert_pack_run in H. cbv zeta in H.
  destruct H as (fs1 & cover & Hm & Hcover & _).
  assert (anchor (final_path </> "Pack" </> pack_new_id pack) = "" /\
          (exists rest,
             parts (final_path </> "Pack" </> pack_new_id pack)
             = "final" :: rest)) as Hroot.
  { apply joinpath_in_final; [exact Hid|].
    apply joinpath_in_final; [reflexivity | apply final_in_final]. }
  rewrite <- (mkdir_keeps_staging _ _ _ l Hroot Hm Hl).
  destruct Hcover as [(_ & _ & ->)|(_ & _ & Hc)]; [reflexivity|].
  apply (copyfile_keeps_staging _ _ _ _ l) in Hc; [exact Hc | | exact Hl].
  apply joinpath_in_final; [|exact Hroot].
  apply name_no_slash, joinpath_parts. repeat constructor.
Qed.

Lemma staging_not_below (rest l : loc) :
  under (cwd ++ ["extracted_romfs"]) l -> ~ under (cwd ++ "final" :: rest) l.
Proof.
  intros [k ->] [k' Hk']. rewrite <- !app_assoc in Hk'.
  apply app_inv_head in Hk'. discriminate.
Qed.

Lemma move_tree_keeps_staging type_name rels cf fs cf' fs' l :
  is_type_name type_name ->
  Forall (fun rel => rel_named rel = true) rels ->
  move_tree cwd type_name rels (cf, fs) = Ok (cf', fs') ->
  under (cwd ++ ["extracted_romfs"]) l -> fs' !! l = fs !! l.
Proof.
  intros Ht Hrels H Hl. unfold move_tree in H. ok_inv H.
  destruct a as [cf1 fs1]. ok_inv H. injection H as <- <-.
  rewrite (locate_type_dir _ _ Ht) in Ha0.
  rewrite (rmtree_at_lookup _ _ _ _ Ha0 (staging_not_below _ _ Hl)).
  clear Ha0 a. revert cf fs Ha.
  induction Hrels as [|rel rels Hrel _ IH]; intros cf fs H; simpl in H.
  - injection H as <- <-. reflexivity.
  - ok_inv H. destruct a as [cf2 fs2]. rewrite (IH _ _ H).
    apply move_file_ok in Ha; [|assumption..]. simpl in Ha.
    destruct Ha as [(_ & _ & ->)|(data & _ & _ & _ & [(_ & ->)|(_ & Hren)])];
      [reflexivity | reflexivity |].
    apply (rename_at_lookup _ _ _ _ l Hren).
    + intros ->.
      apply (staging_not_in_final _ (type_name :: rel) Hl). reflexivity.
    + intros ->. unfold store_loc in Hl.
      apply (staging_not_in_final _ ["storage"; stored_name
                                        (name (glob_file type_name rel)) data]
               Hl). reflexivity.
Qed.

Section Run.

Variable clock : nat -> Z.
Variable glob : filesys -> loc -> list (list string).

(** X22.  The conversion only reads the staging area: when the sets and
    ids of the songs and the identifiers of the packs hold no slash, and
    the glob yields file names, everything at and below
    [extracted_romfs] is after the conversion as it was before it. *)
Theorem staging_area_is_only_read
    level_count pack_count songs packs fs calls fs' :
  Forall (fun song => no_slash (song_set song) = true /\
                      no_slash (song_id song) = true) songs ->
  Forall (fun pack => no_slash (pack_new_id pack) = true) packs ->
  (forall fs0 d, forallb rel_named (glob fs0 d) = true) ->
  convert cwd clock glob level_count pack_count songs packs fs
    = Ok (calls, fs') ->
  forall l, under (cwd ++ ["extracted_romfs"]) l -> fs' !! l = fs !! l.
Proof.
  intros Hsongs Hpacks Hglob H l Hl. unfold convert in H.
  apply rbind_ok in H. destruct H as (sl & Hsl & H).
  apply rbind_ok in H. destruct H as (pl & Hpl & H).
  apply rbind_ok in H. destruct H as ([files fs1] & Hmv & H).
  injection H as _ <-.
  assert (sl_fs sl !! l = fs !! l) as H1.
  { unfold convert_songs in Hsl.
    apply (foldM_invariant (fun st => sl_fs st !! l = fs !! l)
             (song_step cwd) songs) in Hsl; [exact Hsl | | reflexivity].
    intros st song st' Hin Hst Hstep. unfold song_step in Hstep.
    apply rbind_ok in Hstep. destruct Hstep as ([lv f1] & Hcs & Hstep).
    injection Hstep as <-. simpl. rewrite <- Hst.
    apply (convert_song_keeps_staging _ _ _ _ _ l) in Hcs;
      [exact Hcs | | exact Hl].
    rewrite Forall_forall in Hsongs. apply Hsongs.
    apply list_elem_of_In. exact Hin. }
  assert (pl_fs pl !! l = sl_fs sl !! l) as H2.
  { unfold convert_packs in Hpl.
    apply (foldM_invariant (fun st => pl_fs st !! l = sl_fs sl !! l)
             (pack_step cwd clock (level_identifiers sl)) packs) in Hpl;
      [exact Hpl | | reflexivity].
    intros st pack st' Hin Hst Hstep. unfold pack_step in Hstep.
    apply rbind_ok in Hstep. destruct Hstep as ([cp f1] & Hcp & Hstep).
    injection Hstep as <-. simpl. rewrite <- Hst.
    apply (convert_pack_keeps_staging _ _ _ _ _ _ _ l) in Hcp;
      [exact Hcp | | exact Hl].
    rewrite Forall_forall in Hpacks. apply Hpacks.
    apply list_elem_of_In. exact Hin. }
  rewrite <- H1, <- H2. clear H1 H2 Hsl Hpl.
  unfold move_files in Hmv.
  apply rbind_ok in Hmv. destruct Hmv as (f0 & Hmk & Hmv).
  apply rbind_ok in Hmv. destruct Hmv as ([cf1 f1] & Hlevel & Hpack).
  simpl in Hpack.
  rewrite (move_tree_keeps_staging _ _ _ _ _ _ l (or_intror eq_refl)
             (glob_named _ (Hglob _ _)) Hpack Hl).
  rewrite (move_tree_keeps_staging _ _ _ _ _ _ l (or_introl eq_refl)
             (glob_named _ (Hglob _ _)) Hlevel Hl).
  apply (mkdir_keeps_staging storage_root_path _ _ l); [|exact Hmk | exact Hl].
  apply joinpath_in_final; [reflexivity | apply final_in_final].
Qed.

End Run.

End Staging.

(** ** The theorems at the small archive *)

Lemma fixture_song_converts :
  exists r,
    convert_song Fixture.cwd 11 Fixture.song Fixture.staged = Ok r.
Proof. apply is_ok_true. vm_compute. reflexivity. Qed.

Lemma fixture_songs_convert :
  exists sl,
    convert_songs Fixture.cwd 10 [Fixture.song] Fixture.staged = Ok sl.
Proof. apply is_ok_true. vm_compute. reflexivity. Qed.

Lemma bpm_display_rule_witness :
  exists lv fs',
    convert_song Fixture.cwd 11 Fixture.song Fixture.staged = Ok (lv, fs') /\
    Forall (fun chart => SyncBaseBpm chart = false /\
                         BpmText chart = Some "120 - 140")
      (level_Charts lv).
Proof.
  destruct fixture_song_converts as [[lv fs'] E].
  exists lv, fs'. split; [exact E|].
  destruct (bpm_display_rule Fixture.cwd 11 Fixture.song Fixture.staged
              lv fs' E) as [_ H].
  eapply Forall_impl; [exact H|].
  intros chart [_ Hne]. apply Hne. vm_compute. discriminate.
Defined.

Lemma empty_difficulties_raise_witness :
  is_err (convert_song Fixture.cwd 1 Fixture.silent_song Fixture.staged)
    = true /\
  exists sl,
    convert_songs Fixture.cwd 10 [Fixture.song] Fixture.staged = Ok sl /\
    Forall (fun lv => level_Charts lv <> []) (converted_songs sl).
Proof.
  destruct (empty_difficulties_raise Fixture.cwd) as [H1 H2]. split.
  - exact (proj1 (H1 1 Fixture.silent_song Fixture.staged eq_refl)).
  - destruct fixture_songs_convert as [sl E]. exists sl.
    split; [exact E | exact (H2 _ _ _ _ E)].
Defined.

Lemma fifth_chart_copies :
  exists fs1,
    copyfile Fixture.cwd
      (chart_path Fixture.fifth_song (Fixture.difficulty 4 12))
      (song_root_path Fixture.fifth_song
         </> name (chart_path Fixture.fifth_song (Fixture.difficulty 4 12)))
      Fixture.fifth_prepared = Ok fs1.
Proof. apply is_ok_true. vm_compute. reflexivity. Qed.

Lemma fifth_song_reaches_the_table :
  convert_song Fixture.cwd 1 Fixture.fifth_song Fixture.fifth_staged
    = Err IndexError.
Proof. vm_compute. reflexivity. Qed.

Lemma rating_class_lookup_witness :
  is_err (convert_song Fixture.cwd 1 Fixture.fifth_song Fixture.fifth_staged)
    = true /\
  convert_song Fixture.cwd 1 Fixture.fifth_song Fixture.fifth_staged
    = Err IndexError /\
  convert_diff Fixture.cwd Fixture.fifth_song ([], [], Fixture.fifth_prepared)
    (Fixture.difficulty 4 12) = Err IndexError /\
  make_chart Fixture.huge_song (Fixture.difficulty 0 3) = Err OverflowError /\
  exists chart,
    make_chart Fixture.odd_song (Fixture.difficulty (-1) 11) = Ok chart /\
    DifficultyText chart = "Beyond 11" /\ Skin chart = None.
Proof.
  destruct (rating_class_lookup Fixture.cwd) as [H1 H2].
  destruct (H1 1 Fixture.fifth_song Fixture.fifth_staged
              (Fixture.difficulty 4 12)) as (Herr & Hidx & _).
  { left. reflexivity. }
  { right. simpl. lia. }
  split; [exact Herr|]. split; [exact fifth_song_reaches_the_table|]. split.
  { destruct Hidx as [_ Hd]; [vm_compute; reflexivity|].
    destruct fifth_chart_copies as [fs1 Hcp]. exact (Hd [] [] _ fs1 Hcp). }
  split.
  { destruct (H2 Fixture.huge_song (Fixture.difficulty 0 3)) as [_ Hov].
    - simpl. lia.
    - apply Hov. intros [Hb _]. vm_compute in Hb. discriminate. }
  destruct (H2 Fixture.odd_song (Fixture.difficulty (-1) 11)) as [Hok _].
  { simpl. lia. }
  destruct Hok as (chart & nm & Hc & Hnm & Htext & _ & Hskin).
  { vm_compute. reflexivity. }
  { vm_compute. reflexivity. }
  exists chart. split; [exact Hc|]. split.
  - rewrite Htext. vm_compute in Hnm. injection Hnm as <-. reflexivity.
  - apply Hskin; simpl; lia.
Defined.

(** C7 fails at the rating class -1 with the side 2: the song is
    converted, with the name and the colour of the rating class 3 and
    without a skin. *)
Lemma rating_class_minus_one_converts :
  map ratingClass (song_difficulties Fixture.odd_song) = [-1] /\
  song_side Fixture.odd_song = 2 /\
  match convert_song Fixture.cwd 1 Fixture.odd_song Fixture.odd_staged with
  | Ok (lv, _) =>
      map DifficultyText (level_Charts lv) = ["Beyond 11"] /\
      map DifficultyColor (level_Charts lv) = ["#7C1C30FF"] /\
      map Skin (level_Charts lv) = [None]
  | Err _ => False
  end.
Proof. vm_compute. repeat split. Qed.

Lemma fixture_diff_converts :
  exists r,
    convert_diff Fixture.cwd Fixture.song ([], [], Fixture.prepared)
      (Fixture.difficulty 0 3) = Ok r.
Proof. apply is_ok_true. vm_compute. reflexivity. Qed.

Lemma background_selection_witness :
  (name (background_path Fixture.silent_song (Fixture.difficulty 3 10))
     = "byd_conflict.jpg" /\
   name (background_path Fixture.silent_song (Fixture.difficulty 0 2))
     = "base_conflict.jpg") /\
  (exists charts' bgs' fs' fs1,
     convert_diff Fixture.cwd Fixture.song ([], [], Fixture.prepared)
       (Fixture.difficulty 0 3) = Ok (charts', bgs', fs') /\
     let target :=
       song_root_path Fixture.song
         </> name (background_path Fixture.song (Fixture.difficulty 0 3)) in
     (path_exists Fixture.cwd target fs1 = true ->
      bgs' = [] /\ fs' = fs1) /\
     (path_exists Fixture.cwd target fs1 = false ->
      bgs' = [background_path Fixture.song (Fixture.difficulty 0 3)] /\
      copyfile Fixture.cwd
        (background_path Fixture.song (Fixture.difficulty 0 3)) target fs1
        = Ok fs')) /\
  (exists lv fs',
     convert_song Fixture.cwd 11 Fixture.song Fixture.staged = Ok (lv, fs') /\
     Forall2 (fun diff chart =>
                BackgroundPath chart
                  = name (background_path Fixture.song diff) /\
                path_exists Fixture.cwd
                  (song_root_path Fixture.song </> BackgroundPath chart) fs'
                  = true)
       (song_difficulties Fixture.song) (level_Charts lv) /\
     exists bgs,
       level_FileReferences lv
         = ["base.ogg"; "base.jpg"] ++ map name bgs
             ++ map ChartPath (level_Charts lv) /\
       NoDup (map name bgs)).
Proof.
  destruct (background_selection Fixture.cwd) as (H1 & H2 & H3).
  split; [|split].
  - split.
    + exact (proj2 (H1 Fixture.silent_song (Fixture.difficulty 3 10))
               eq_refl).
    + exact (proj2 (H1 Fixture.silent_song (Fixture.difficulty 0 2))
               eq_refl).
  - destruct fixture_diff_converts as [[[charts' bgs'] fs'] E].
    destruct (H2 _ _ _ _ _ _ _ _ E) as (fs1 & _ & Hskip & Hcopy).
    exists charts', bgs', fs', fs1. split; [exact E|].
    split; [exact Hskip | exact Hcopy].
  - destruct fixture_song_converts as [[lv fs'] E].
    exists lv, fs'. split; [exact E | exact (H3 _ _ _ _ _ E)].
Defined.

Lemma fixture_packs_convert :
  exists pl,
    convert_packs Fixture.cwd Fixture.clock {[ "p1" := ["p1.s1"] ]} 20
      [Fixture.pack] Fixture.staged = Ok pl.
Proof. apply is_ok_true. vm_compute. reflexivity. Qed.

Lemma ids_count_up_witness :
  (exists sl,
     convert_songs Fixture.cwd 10 [Fixture.song] Fixture.staged = Ok sl /\
     map level_id (converted_songs sl) = [11]) /\
  (exists pl,
     convert_packs Fixture.cwd Fixture.clock {[ "p1" := ["p1.s1"] ]} 20
       [Fixture.pack] Fixture.staged = Ok pl /\
     map cpack_id (converted_packs pl) = [21]).
Proof.
  destruct (ids_count_up Fixture.cwd Fixture.clock) as [H1 H2]. split.
  - destruct fixture_songs_convert as [sl E]. exists sl.
    split; [exact E | exact (proj1 (H1 _ _ _ _ E))].
  - destruct fixture_packs_convert as [pl E]. exists pl.
    split; [exact E | exact (proj1 (H2 _ _ _ _ _ E))].
Defined.

Lemma fixture_songs_and_packs_convert :
  exists sl pl,
    convert_songs Fixture.cwd 10 [Fixture.song] Fixture.staged = Ok sl /\
    convert_packs Fixture.cwd Fixture.clock (level_identifiers sl) 20
      [Fixture.pack] (sl_fs sl) = Ok pl.
Proof.
  assert (exists r,
            (sl <- convert_songs Fixture.cwd 10 [Fixture.song]
                     Fixture.staged ;;
             pl <- convert_packs Fixture.cwd Fixture.clock
                     (level_identifiers sl) 20 [Fixture.pack] (sl_fs sl) ;;
             Ok (sl, pl)) = Ok r) as [r H].
  { apply is_ok_true. vm_compute. reflexivity. }
  ok_inv H. ok_inv H. eauto.
Qed.

Lemma pack_level_identifiers_witness :
  exists sl,
    convert_songs Fixture.cwd 10 [Fixture.song] Fixture.staged = Ok sl /\
    (exists pl,
       convert_packs Fixture.cwd Fixture.clock (level_identifiers sl) 20
         [Fixture.pack] (sl_fs sl) = Ok pl /\
       map cpack_LevelIdentifiers (converted_packs pl) = [["p1.s1"]]) /\
    is_err (convert_packs Fixture.cwd Fixture.clock (level_identifiers sl)
              20 [Fixture.pack; Fixture.stray_pack] (sl_fs sl)) = true.
Proof.
  destruct fixture_songs_and_packs_convert as (sl & pl & Es & Ep).
  exists sl. split; [exact Es|]. split.
  - exists pl. split; [exact Ep|].
    destruct (pack_level_identifiers Fixture.cwd Fixture.clock 10 20
                [Fixture.song] [Fixture.pack] Fixture.staged (sl_fs sl) sl Es)
      as [H _].
    specialize (H pl Ep).
    inversion H as [|pack cp packs cps [Hids _] Hrest]; subst.
    inversion Hrest; subst. simpl. rewrite Hids. reflexivity.
  - destruct (pack_level_identifiers Fixture.cwd Fixture.clock 10 20
                [Fixture.song] [Fixture.pack; Fixture.stray_pack]
                Fixture.staged (sl_fs sl) sl Es) as [_ H].
    apply (H Fixture.stray_pack); [right; left; reflexivity | reflexivity].
Defined.

Lemma fixture_archive_extracts :
  exists fs',
    extract_romfs Fixture.cwd Fixture.max_offset Fixture.max_length
      Fixture.archive Fixture.empty_disk = Ok fs'.
Proof. apply is_ok_true. vm_compute. reflexivity. Qed.








Lemma fixture_doubles_read :
  read_at Fixture.doubles_after_x
    (locate Fixture.cwd (glob_file "Level" ["y.jpg"]))
  = Ok (bytes_of_string "AB").
Proof. vm_compute. reflexivity. Qed.

Lemma fixture_doubles_stored :
  path_exists Fixture.cwd
    (storage_root_path
       </> stored_name (name (glob_file "Level" ["y.jpg"]))
             (bytes_of_string "AB"))
    Fixture.doubles_after_x = true.
Proof. vm_compute. reflexivity. Qed.

Lemma fixture_doubles_move :
  exists r,
    move_tree Fixture.cwd "Level" [["x.jpg"]; ["y.jpg"]] ([], Fixture.doubles)
    = Ok r.
Proof. apply is_ok_true. vm_compute. reflexivity. Qed.

Lemma fixture_doubles_content_addressed :
  content_addressed Fixture.cwd Fixture.doubles.
Proof.
  intros n data H. unfold in_store, store_loc, Fixture.doubles in H.
  exfalso. revert H. unfold Fixture.empty_disk, Fixture.cwd. simpl app.
  rewrite !lookup_insert_ne by discriminate.
  rewrite lookup_empty. discriminate.
Qed.

Lemma fixture_twins_read (rel : list string) :
  In rel [["x.jpg"]; ["x.aff"]] ->
  read_at Fixture.twins (locate Fixture.cwd (glob_file "Level" rel))
  = Ok (bytes_of_string "AB").
Proof. intros [<-|[<-|[]]]; vm_compute; reflexivity. Qed.

Lemma fixture_twins_free (rel : list string) :
  In rel [["x.jpg"]; ["x.aff"]] ->
  path_exists Fixture.cwd
    (storage_root_path
       </> stored_name (name (glob_file "Level" rel)) (bytes_of_string "AB"))
    Fixture.twins = false.
Proof. intros [<-|[<-|[]]]; vm_compute; reflexivity. Qed.

Lemma fixture_twins_store :
  stat Fixture.twins (locate Fixture.cwd storage_root_path) = Ok Dir.
Proof. vm_compute. reflexivity. Qed.

Lemma fixture_twins_move :
  exists r,
    move_tree Fixture.cwd "Level" [["x.jpg"]; ["x.aff"]] ([], Fixture.twins)
    = Ok r.
Proof. apply is_ok_true. vm_compute. reflexivity. Qed.

Lemma fixture_twins_differ :
  suffix_of_name "x.jpg" <> suffix_of_name "x.aff".
Proof. vm_compute. discriminate. Qed.

Lemma fixture_twins_alone (rel' : list string) (data' : list byte) :
  In rel' [["x.jpg"]; ["x.aff"]] ->
  read_at Fixture.twins (locate Fixture.cwd (glob_file "Level" rel'))
    = Ok data' ->
  data' = bytes_of_string "AB".
Proof.
  intros Hin Hr. rewrite (fixture_twins_read rel' Hin) in Hr. congruence.
Qed.

Lemma content_store_law_witness :
  stored_name "x.jpg" (bytes_of_string "AB")
    = stored_name "y.jpg" (bytes_of_string "AB") /\
  stored_name "x.jpg" (bytes_of_string "AB")
    <> stored_name "x.aff" (bytes_of_string "AB") /\
  (exists f,
     move_file Fixture.cwd "Level" ([], Fixture.doubles_after_x) ["y.jpg"]
       = Ok ([] ++ [f], Fixture.doubles_after_x) /\
     RealPath f
       = stored_name (name (glob_file "Level" ["y.jpg"]))
           (bytes_of_string "AB")) /\
  (exists f fs',
     move_file Fixture.cwd "Level" ([], Fixture.twins) ["x.jpg"]
       = Ok ([] ++ [f], fs') /\
     RealPath f = stored_name "x.jpg" (bytes_of_string "AB") /\
     in_store Fixture.cwd fs'
       (stored_name "x.jpg" (bytes_of_string "AB"))
       (bytes_of_string "AB") /\
     fs' !! locate Fixture.cwd (glob_file "Level" ["x.jpg"]) = None) /\
  (exists cf' fs',
     move_tree Fixture.cwd "Level" [["x.jpg"]; ["x.aff"]]
       ([], Fixture.twins) = Ok (cf', fs') /\
     in_store Fixture.cwd fs'
       (stored_name "x.jpg" (bytes_of_string "AB"))
       (bytes_of_string "AB") /\
     in_store Fixture.cwd fs'
       (stored_name "x.aff" (bytes_of_string "AB"))
       (bytes_of_string "AB") /\
     exists f1 f2,
       In f1 cf' /\ In f2 cf' /\
       RealPath f1 = stored_name "x.jpg" (bytes_of_string "AB") /\
       RealPath f2 = stored_name "x.aff" (bytes_of_string "AB")) /\
  (exists cf' fs',
     move_tree Fixture.cwd "Level" [["x.jpg"]; ["y.jpg"]]
       ([], Fixture.doubles) = Ok (cf', fs') /\
     content_addressed Fixture.cwd fs' /\
     forall n1 n2 data,
       in_store Fixture.cwd fs' n1 data ->
       in_store Fixture.cwd fs' n2 data ->
       suffix_of_name n1 = suffix_of_name n2 -> n1 = n2).
Proof.
  destruct (content_store_law Fixture.cwd) as (_ & H2 & H3 & H4).
  split; [|split; [|split; [|split; [|split]]]].
  - exact (proj1 (H2 "x.jpg" "y.jpg" (bytes_of_string "AB")) eq_refl).
  - exact (proj2 (H2 "x.jpg" "x.aff" (bytes_of_string "AB"))
             fixture_twins_differ).
  - destruct (H3 "Level" ["y.jpg"] [] Fixture.doubles_after_x
                (bytes_of_string "AB")) as [Htaken _].
    + left. reflexivity.
    + reflexivity.
    + exact fixture_doubles_read.
    + exact (Htaken fixture_doubles_stored).
  - destruct (H3 "Level" ["x.jpg"] [] Fixture.twins
                (bytes_of_string "AB")) as [_ Hfree].
    + left. reflexivity.
    + reflexivity.
    + exact (fixture_twins_read ["x.jpg"] (or_introl eq_refl)).
    + destruct (Hfree (fixture_twins_free ["x.jpg"] (or_introl eq_refl))
                  fixture_twins_store)
        as (f & fs' & Hm & Hf & Hin & _ & Hgone & _).
      exists f, fs'. auto.
  - destruct fixture_twins_move as [[cf' fs'] E]. exists cf', fs'.
    split; [exact E|].
    destruct (H4 "Level" [["x.jpg"]; ["x.aff"]] [] Fixture.twins cf' fs')
      as [Hall _].
    + left. reflexivity.
    + reflexivity.
    + exact E.
    + destruct (Hall ["x.jpg"] (bytes_of_string "AB"))
        as (_ & (f1 & Hin1 & Hf1) & Hb1).
      { left. reflexivity. }
      { exact (fixture_twins_read ["x.jpg"] (or_introl eq_refl)). }
      destruct (Hall ["x.aff"] (bytes_of_string "AB"))
        as (_ & (f2 & Hin2 & Hf2) & Hb2).
      { right. left. reflexivity. }
      { exact (fixture_twins_read ["x.aff"] (or_intror (or_introl eq_refl))). }
      split.
      { apply Hb1.
        - exact (fixture_twins_free ["x.jpg"] (or_introl eq_refl)).
        - intros rel' data' Hin' Hr' _.
          exact (fixture_twins_alone rel' data' Hin' Hr'). }
      split.
      { apply Hb2.
        - exact (fixture_twins_free ["x.aff"] (or_intror (or_introl eq_refl))).
        - intros rel' data' Hin' Hr' _.
          exact (fixture_twins_alone rel' data' Hin' Hr'). }
      exists f1, f2. auto.
  - destruct fixture_doubles_move as [[cf' fs'] E]. exists cf', fs'.
    split; [exact E|].
    destruct (H4 "Level" [["x.jpg"]; ["y.jpg"]] [] Fixture.doubles cf' fs')
      as (_ & _ & Hca).
    + left. reflexivity.
    + reflexivity.
    + exact E.
    + exact (Hca fixture_doubles_content_addressed).
Defined.

(** C6 fails at two files of the same bytes called [x.jpg] and [x.aff]:
    their stored names differ, and after the round of the type loop the
    store holds the bytes twice. *)
Lemma same_bytes_stored_twice :
  stored_name "x.jpg" (bytes_of_string "AB")
    <> stored_name "x.aff" (bytes_of_string "AB") /\
  match move_tree Fixture.cwd "Level" [["x.jpg"]; ["x.aff"]]
          ([], Fixture.twins) with
  | Ok (_, fs') =>
      in_store Fixture.cwd fs'
        (stored_name "x.jpg" (bytes_of_string "AB")) (bytes_of_string "AB") /\
      in_store Fixture.cwd fs'
        (stored_name "x.aff" (bytes_of_string "AB")) (bytes_of_string "AB")
  | Err _ => False
  end.
Proof.
  split.
  - vm_compute. discriminate.
  - vm_compute. split; reflexivity.
Qed.

Lemma fixture_glob_named (fs : filesys) (d : loc) :
  forallb rel_named (Fixture.glob fs d) = true.
Proof.
  unfold Fixture.glob. apply forallb_forall. intros rel Hin.
  apply filter_In in Hin. tauto.
Qed.

Lemma fixture_run_ok : exists r, Fixture.run = Ok r.
Proof. apply is_ok_true. vm_compute. reflexivity. Qed.



(** ** The further properties at the small archive *)

Lemma level_records_follow_songs_witness :
  exists sl,
    convert_songs Fixture.cwd 10 [Fixture.song] Fixture.staged = Ok sl /\
    Forall2 (fun song lv =>
               level_Identifier lv = song_set song +:+ "." +:+ song_id song /\
               level_Type lv = "Level" /\
               level_Version lv = 0 /\
               level_IsDefaultAsset lv = true /\
               level_AddedDate lv = "d" +:+ str_int (song_date song))
      [Fixture.song] (converted_songs sl).
Proof.
  destruct fixture_songs_convert as [sl E]. exists sl.
  split; [exact E|].
  exact (level_records_follow_songs Fixture.cwd 10 [Fixture.song]
           Fixture.staged sl E).
Defined.

Lemma charts_follow_difficulties_witness :
  exists lv fs',
    convert_song Fixture.cwd 11 Fixture.song Fixture.staged = Ok (lv, fs') /\
    exists diff,
      last (song_difficulties Fixture.song) = Some diff /\
      level_LastOpenedChartPath lv = str_int (ratingClass diff) +:+ ".aff".
Proof.
  destruct fixture_song_converts as [[lv fs'] E]. exists lv, fs'.
  split; [exact E|].
  exact (proj2 (charts_follow_difficulties Fixture.cwd 11 Fixture.song
                  Fixture.staged lv fs' E)).
Defined.

Lemma charts_carry_metadata_witness :
  exists lv fs',
    convert_song Fixture.cwd 11 Fixture.song Fixture.staged = Ok (lv, fs') /\
    Forall2 (fun diff chart =>
               Charter chart = chartDesigner diff /\
               Skin chart = Some "light")
      (song_difficulties Fixture.song) (level_Charts lv).
Proof.
  destruct fixture_song_converts as [[lv fs'] E]. exists lv, fs'.
  split; [exact E|].
  pose proof (charts_carry_metadata Fixture.cwd 11 Fixture.song
                Fixture.staged lv fs' E) as H.
  eapply Forall2_impl; [exact H|].
  intros diff chart Hc. split; [apply Hc|]. apply Hc. reflexivity.
Defined.

Lemma file_references_are_in_place_witness :
  exists lv fs',
    convert_song Fixture.cwd 11 Fixture.song Fixture.staged = Ok (lv, fs') /\
    Forall (fun r => path_exists Fixture.cwd
                       (song_root_path Fixture.song </> r) fs' = true)
      (level_FileReferences lv).
Proof.
  destruct fixture_song_converts as [[lv fs'] E]. exists lv, fs'.
  split; [exact E|].
  exact (file_references_are_in_place Fixture.cwd 11 Fixture.song
           Fixture.staged lv fs' E).
Defined.

Lemma pack_records_follow_packs_witness :
  exists pl,
    convert_packs Fixture.cwd Fixture.clock {[ "p1" := ["p1.s1"] ]} 20
      [Fixture.pack] Fixture.staged = Ok pl /\
    length (converted_packs pl) = 1%nat /\
    forall cp,
      converted_packs pl !! 0%nat = Some cp ->
      pack_record Fixture.clock 0 Fixture.pack cp.
Proof.
  destruct fixture_packs_convert as [pl E]. exists pl.
  split; [exact E|].
  destruct (pack_records_follow_packs Fixture.cwd Fixture.clock _ _ _ _ _ E)
    as [Hlen Hall].
  split; [exact Hlen|]. intros cp Hcp.
  exact (Hall 0%nat Fixture.pack cp eq_refl Hcp).
Defined.

Lemma sample_single_converts :
  exists r,
    convert_pack Fixture.cwd {[ "single" := ["single.s1"] ]} 21 0
      Sample.single_pack Fixture.staged = Ok r.
Proof. apply is_ok_true. vm_compute. reflexivity. Qed.

Lemma single_pack_copies_nothing_witness :
  exists cp fs',
    convert_pack Fixture.cwd {[ "single" := ["single.s1"] ]} 21 0
      Sample.single_pack Fixture.staged = Ok (cp, fs') /\
    mkdir Fixture.cwd (final_path </> "Pack" </> "single") Fixture.staged
      = Ok fs' /\
    cpack_FileReferences cp = ["folder_singles.png"].
Proof.
  destruct sample_single_converts as [[cp fs'] E]. exists cp, fs'.
  split; [exact E|].
  destruct (single_pack_copies_nothing Fixture.cwd
              {[ "single" := ["single.s1"] ]} 21 0 Sample.single_pack
              Fixture.staged cp fs' eq_refl E)
    as (Hm & _ & Hf).
  split; [exact Hm | exact Hf].
Defined.

Lemma fixture_pack_converts :
  exists r,
    convert_pack Fixture.cwd {[ "p1" := ["p1.s1"] ]} 21 0
      Fixture.pack Fixture.staged = Ok r.
Proof. apply is_ok_true. vm_compute. reflexivity. Qed.

Lemma pack_cover_is_copied_witness :
  exists cp fs' data,
    convert_pack Fixture.cwd {[ "p1" := ["p1.s1"] ]} 21 0
      Fixture.pack Fixture.staged = Ok (cp, fs') /\
    read_at fs'
      (locate Fixture.cwd (final_path </> "Pack" </> "p1" </> "select_p1.png"))
    = Ok data /\
    cpack_ImagePath cp = "select_p1.png".
Proof.
  destruct fixture_pack_converts as [[cp fs'] E].
  destruct (pack_cover_is_copied Fixture.cwd {[ "p1" := ["p1.s1"] ]} 21 0
              Fixture.pack Fixture.staged cp fs')
    as (data & _ & Hr & Hi).
  - discriminate.
  - reflexivity.
  - exact E.
  - exists cp, fs', data. split; [exact E|]. split; [exact Hr | exact Hi].
Defined.

Lemma file_records_are_named_after_files_witness :
  exists cf' fs',
    move_tree Fixture.cwd "Level" [["x.jpg"]; ["y.jpg"]] ([], Fixture.doubles)
      = Ok (cf', fs') /\
    map file_id cf' `sublist_of` ["Level/x.jpg"; "Level/y.jpg"] /\
    NoDup (map file_id cf').
Proof.
  destruct fixture_doubles_move as [[cf' fs'] E]. exists cf', fs'.
  split; [exact E|].
  destruct (file_records_are_named_after_files Fixture.cwd "Level" _ _ _ _ _
              (or_introl eq_refl) E) as (new & Hcf & Hsub & _ & Hnd).
  simpl in Hcf. subst cf'. split; [exact Hsub|].
  apply Hnd.
  - apply NoDup_cons. split; [|apply NoDup_singleton].
    intros Hin. apply list_elem_of_singleton in Hin. discriminate.
  - repeat constructor.
Defined.

Lemma fixture_files_move :
  exists fs r, move_files Fixture.cwd Fixture.glob fs = Ok r.
Proof.
  destruct fixture_run_ok as [r H]. unfold Fixture.run, convert in H.
  do 3 ok_inv H. eauto.
Qed.

Lemma working_trees_are_removed_witness :
  exists fs files fs',
    move_files Fixture.cwd Fixture.glob fs = Ok (files, fs') /\
    path_exists Fixture.cwd (final_path </> "Level") fs' = false /\
    path_exists Fixture.cwd (final_path </> "Pack") fs' = false.
Proof.
  destruct fixture_files_move as (fs & [files fs'] & E).
  exists fs, files, fs'. split; [exact E|].
  destruct (working_trees_are_removed Fixture.cwd Fixture.glob fs files fs'
              fixture_glob_named E) as (_ & HL & HP & _).
  split; [exact HL | exact HP].
Defined.





Lemma nothing_is_lost_before_the_move_witness :
  (exists fs',
     extract_romfs Fixture.cwd Fixture.max_offset Fixture.max_length
       Fixture.archive Fixture.empty_disk = Ok fs' /\
     grows Fixture.empty_disk fs') /\
  (exists sl,
     convert_songs Fixture.cwd 10 [Fixture.song] Fixture.staged = Ok sl /\
     grows Fixture.staged (sl_fs sl)) /\
  (exists pl,
     convert_packs Fixture.cwd Fixture.clock {[ "p1" := ["p1.s1"] ]} 20
       [Fixture.pack] Fixture.staged = Ok pl /\
     grows Fixture.staged (pl_fs pl)).
Proof.
  destruct (nothing_is_lost_before_the_move Fixture.cwd Fixture.clock)
    as (H1 & H2 & H3).
  split; [|split].
  - destruct fixture_archive_extracts as [fs' E]. exists fs'.
    split; [exact E | exact (H1 _ _ _ _ _ E)].
  - destruct fixture_songs_convert as [sl E]. exists sl.
    split; [exact E | exact (H2 _ _ _ _ E)].
  - destruct fixture_packs_convert as [pl E]. exists pl.
    split; [exact E | exact (H3 _ _ _ _ _ E)].
Defined.

Lemma fixture_staged_has_no_level_tree :
  Fixture.staged !! (Fixture.cwd ++ ["final"; "Level"]) = None.
Proof. vm_compute. reflexivity. Qed.

Lemma empty_song_list_never_converts_witness :
  is_err (convert Fixture.cwd Fixture.clock Fixture.glob 10 20 []
            [Fixture.pack] Fixture.staged) = true.
Proof.
  exact (empty_song_list_never_converts Fixture.cwd Fixture.clock
           Fixture.glob 10 20 [Fixture.pack] Fixture.staged
           fixture_staged_has_no_level_tree).
Defined.

Lemma preparation_exits_without_its_files_witness :
  let r := prepare Fixture.cwd Sample.argv Fixture.empty_disk in
  path_exists Fixture.cwd litedb_path Fixture.empty_disk = false /\
  p_outcome r = Exits 1 /\
  p_fs r = Fixture.empty_disk /\
  map fst (p_console r) = [Message.stdout; Message.stderr].
Proof.
  intros r.
  destruct (preparation_exits_without_its_files Fixture.cwd Sample.argv
              Fixture.empty_disk "romfs" "arccreate.litedb" eq_refl eq_refl)
    as [Hiff Hexit].
  assert (path_exists Fixture.cwd litedb_path Fixture.empty_disk = false)
    as Hno by reflexivity.
  destruct (proj2 Hiff (or_introl Hno)) as [code Hc].
  destruct (Hexit code Hc) as (-> & Hfs & Hout & _).
  split; [exact Hno|]. split; [exact Hc|]. split; [exact Hfs | exact Hout].
Defined.

Lemma sample_preparation_continues :
  p_outcome (prepare Fixture.cwd Sample.argv Sample.tooled) = Continues.
Proof. vm_compute. reflexivity. Qed.

Lemma prepared_catalog_is_in_place_witness :
  let r := prepare Fixture.cwd Sample.argv Sample.tooled in
  p_outcome r = Continues /\
  grows Sample.tooled (p_fs r) /\
  path_exists Fixture.cwd (final_path </> "arccreate.litedb") (p_fs r) = true.
Proof.
  intros r.
  destruct (prepared_catalog_is_in_place Fixture.cwd Sample.argv
              Sample.tooled sample_preparation_continues)
    as (Hg & _ & _ & Hex & _).
  split; [exact sample_preparation_continues|].
  split; [exact Hg | exact Hex].
Defined.

Lemma sample_directories_are_made :
  exists fs1 fs2,
    mkdir Fixture.cwd extracted_romfs_path Sample.staged_only = Ok fs1 /\
    mkdir Fixture.cwd final_path fs1 = Ok fs2 /\
    is_file Fixture.cwd (parse_path "arccreate.litedb") fs2 = true.
Proof.
  assert (exists fs2,
            (fs1 <- mkdir Fixture.cwd extracted_romfs_path
                      Sample.staged_only ;;
             fs2 <- mkdir Fixture.cwd final_path fs1 ;;
             if is_file Fixture.cwd (parse_path "arccreate.litedb") fs2
             then Ok fs2 else Err OSError) = Ok fs2) as [fs2 H].
  { apply is_ok_true. vm_compute. reflexivity. }
  do 2 ok_inv H. exists a, a0. split; [exact Ha|]. split; [exact Ha0|].
  destruct (is_file Fixture.cwd (parse_path "arccreate.litedb") a0);
    [reflexivity | discriminate].
Qed.

Lemma preparation_goes_on_witness :
  let r := prepare Fixture.cwd Sample.argv Sample.staged_only in
  p_outcome r = Continues /\
  p_console r
  = [Message.ask "Preparing ...";
     Message.warning "Extracted romfs found, skipping extraction..."].
Proof.
  destruct sample_directories_are_made as (fs1 & fs2 & Hm1 & Hm2 & Hdb).
  exact (preparation_goes_on Fixture.cwd Sample.argv Sample.staged_only
           "romfs" "arccreate.litedb" fs1 fs2 eq_refl eq_refl eq_refl
           (or_intror eq_refl) Hm1 Hm2 (or_intror Hdb)).
Defined.

Lemma unquoting_removes_only_quotes_witness :
  drop_quotes (unquote_dates Sample.dated) = drop_quotes Sample.dated /\
  unquote_dates "{Version: 0}" = "{Version: 0}".
Proof.
  destruct unquoting_removes_only_quotes as [H1 H2].
  split; [apply H1 | apply H2; reflexivity].
Defined.


Lemma glob_order_does_not_matter_witness :
  extract_romfs Fixture.cwd Fixture.max_offset Fixture.max_length
    [Sample.late_pack; Fixture.short_pack] Fixture.empty_disk
  = extract_romfs Fixture.cwd Fixture.max_offset Fixture.max_length
      [Fixture.short_pack; Sample.late_pack] Fixture.empty_disk.
Proof.
  apply glob_order_does_not_matter.
  - apply perm_swap.
  - apply NoDup_cons. split; [|apply NoDup_singleton].
    intros Hin. apply list_elem_of_singleton in Hin. discriminate.
Defined.

Lemma audio_and_jacket_are_copied_verbatim_witness :
  exists lv fs' audio jacket,
    convert_song Fixture.cwd 11 Fixture.song Fixture.staged = Ok (lv, fs') /\
    Fixture.staged
      !! locate Fixture.cwd (audio_root_path </> "s1" </> "base.ogg")
      = Some (File audio) /\
    read_at fs'
      (locate Fixture.cwd (song_root_path Fixture.song </> "base.ogg"))
      = Ok audio /\
    read_at fs'
      (locate Fixture.cwd (song_root_path Fixture.song </> "base.jpg"))
      = Ok jacket.
Proof.
  destruct fixture_song_converts as [[lv fs'] E].
  destruct (audio_and_jacket_are_copied_verbatim Fixture.cwd 11 Fixture.song
              Fixture.staged lv fs' E)
    as (audio & jacket & Ha & _ & Hra & Hrj).
  exists lv, fs', audio, jacket. auto.
Defined.

Lemma staging_area_is_only_read_witness :
  exists calls fs',
    Fixture.run = Ok (calls, fs') /\
    forall l,
      under (Fixture.cwd ++ ["extracted_romfs"]) l ->
      fs' !! l = Fixture.staged !! l.
Proof.
  destruct fixture_run_ok as [[calls fs'] E]. exists calls, fs'.
  split; [exact E|].
  apply (staging_area_is_only_read Fixture.cwd Fixture.clock Fixture.glob
           10 20 [Fixture.song] [Fixture.pack] Fixture.staged calls fs').
  - constructor; [split; reflexivity | constructor].
  - constructor; [reflexivity | constructor].
  - exact fixture_glob_named.
  - exact E.
Defined.
